(** * DepthVision: the depth-displaced 3D viewer and its capture pipeline

    A shallow embedding of [src/components/depth-vision/ThreeDeeCanvas.tsx],
    of the page that hosts it ([src/app/page.tsx]) and of the server action
    behind the page's URL field ([src/actions/image-proxy.ts]).

    The React component keeps its world in mutable refs
    ([rendererRef], [sceneRef], [cameraRef], [controlsRef], [meshRef],
    [recorderRef]) and three pieces of React state.  The embedding threads
    one [State] record through every callback of the component: the effect
    body, the two promise handlers, the render loop, the recording loop
    and the recorder's stop callback.

    JavaScript numbers are modelled by exact rationals ([Q]) in the scene
    and capture part, and by real numbers in the camera part (which needs
    a square root); the rounding of IEEE doubles is not modelled. *)

From Stdlib Require Import ZArith QArith Qround Lia Reals Lra Lqa.
From stdpp Require Import gmap strings list pretty.

Local Open Scope Z_scope.

(** ** JavaScript numbers *)

(** [Math.round]: the nearest integer, ties towards plus infinity. *)
Definition Math_round (x : Q) : Z := Qfloor (x + (1 # 2)).

(** [Math.PI] is a double, hence a rational: 884279719003555 / 2^48. *)
Definition Math_PI : Q := 884279719003555 # 281474976710656.

(** Truthiness of a [string | null] prop: [null] and the empty string are
    falsy. *)
Definition truthy (uri : option string) : bool :=
  match uri with
  | Some u => negb (String.eqb u "")
  | None => false
  end.

(** ** three.js objects *)

Inductive Side := FrontSide | BackSide | DoubleSide.

(** A texture produced by [TextureLoader.loadAsync]; [tex_id] is the GPU
    resource it stands for. *)
Record Texture := {
  tex_id : nat;
  image_width : Z;
  image_height : Z
}.

(** [new THREE.PlaneGeometry(width, height, widthSegments, heightSegments)] *)
Record PlaneGeometry := {
  geo_id : nat;
  width : Q;
  height : Q;
  widthSegments : Z;
  heightSegments : Z
}.

Record MeshStandardMaterial := {
  mat_id : nat;
  mat_map : option Texture;
  mat_displacementMap : option Texture;
  displacementScale : Q;
  side : Side
}.

Record Mesh := {
  geometry : option PlaneGeometry;
  material : option MeshStandardMaterial;
  rotation_y : Q
}.

(** Children of the scene.  A mesh child is a reference (an address in
    the object heap), so that the scene and [meshRef] alias one object. *)
Inductive Object3D :=
| AmbientLight (color : Z) (intensity : Q)
| DirectionalLight (color : Z) (intensity : Q)
| MeshObj (addr : nat).

Record Scene := {
  background : Z;
  children : list Object3D
}.

Definition is_mesh (m : nat) (o : Object3D) : bool :=
  match o with
  | MeshObj a => Nat.eqb a m
  | _ => false
  end.

(** [Object3D.remove]: splices the first occurrence out of [children]. *)
Fixpoint remove_child (m : nat) (l : list Object3D) : list Object3D :=
  match l with
  | [] => []
  | o :: l' => if is_mesh m o then l' else o :: remove_child m l'
  end.

Definition Scene_remove (m : nat) (sc : Scene) : Scene :=
  {| background := background sc; children := remove_child m (children sc) |}.

(** [Object3D.add]: an object that already has a parent is detached from
    it first, then pushed at the end of [children]. *)
Definition Scene_add (o : Object3D) (sc : Scene) : Scene :=
  {| background := background sc;
     children :=
       match o with
       | MeshObj m => remove_child m (children sc) ++ [o]
       | _ => children sc ++ [o]
       end |}.

Record PerspectiveCamera := {
  fov : Q;
  aspect : Q;
  near : Q;
  far : Q
}.

Record WebGLRenderer := {
  renderer_size : Z * Z;
  renderer_disposed : bool
}.

Record OrbitControls := {
  enableDamping : bool;
  dampingFactor : Q;
  controls_disposed : bool
}.

(** The [div] the canvas is mounted in. *)
Record HTMLDivElement := {
  clientWidth : Z;
  clientHeight : Z;
  canvases : nat
}.

(** ** RecordRTC *)

Inductive RecorderState := Rinactive | Rrecording | Rpaused | Rstopped | Rdestroyed.

Record RecordRTC := {
  rtc_state : RecorderState
}.

(** [getState().includes('recording')] *)
Definition is_recording (r : RecordRTC) : bool :=
  match rtc_state r with
  | Rrecording => true
  | _ => false
  end.

(** ** Observable effects of the component *)

Inductive Effect :=
| ConsoleError (msg : string)
| ExportLoadingChange (isLoading : bool)
| GetBlob
| Download (filename : string).

(** ** The component's state *)

Record State := {
  (* refs *)
  mountRef : option HTMLDivElement;
  rendererRef : option WebGLRenderer;
  sceneRef : option Scene;
  cameraRef : option PerspectiveCamera;
  controlsRef : option OrbitControls;
  meshRef : option nat;
  recorderRef : option RecordRTC;
  (* React state *)
  isRecording : bool;
  isLoadingAssets : bool;
  aspectRatio : Q;
  (* object heap, GPU resources not yet disposed, next fresh identity *)
  heap : gmap nat Mesh;
  live : gset nat;
  next_id : nat;
  (* browser side *)
  resize_listeners : nat;
  animate_loops : nat;
  pending_stops : nat;
  log : list Effect
}.

Definition set_mountRef v s :=
  Build_State v (rendererRef s) (sceneRef s) (cameraRef s) (controlsRef s) (meshRef s)
    (recorderRef s) (isRecording s) (isLoadingAssets s) (aspectRatio s) (heap s) (live s)
    (next_id s) (resize_listeners s) (animate_loops s) (pending_stops s) (log s).

Definition set_rendererRef v s :=
  Build_State (mountRef s) v (sceneRef s) (cameraRef s) (controlsRef s) (meshRef s)
    (recorderRef s) (isRecording s) (isLoadingAssets s) (aspectRatio s) (heap s) (live s)
    (next_id s) (resize_listeners s) (animate_loops s) (pending_stops s) (log s).

Definition set_sceneRef v s :=
  Build_State (mountRef s) (rendererRef s) v (cameraRef s) (controlsRef s) (meshRef s)
    (recorderRef s) (isRecording s) (isLoadingAssets s) (aspectRatio s) (heap s) (live s)
    (next_id s) (resize_listeners s) (animate_loops s) (pending_stops s) (log s).

Definition set_cameraRef v s :=
  Build_State (mountRef s) (rendererRef s) (sceneRef s) v (controlsRef s) (meshRef s)
    (recorderRef s) (isRecording s) (isLoadingAssets s) (aspectRatio s) (heap s) (live s)
    (next_id s) (resize_listeners s) (animate_loops s) (pending_stops s) (log s).

Definition set_controlsRef v s :=
  Build_State (mountRef s) (rendererRef s) (sceneRef s) (cameraRef s) v (meshRef s)
    (recorderRef s) (isRecording s) (isLoadingAssets s) (aspectRatio s) (heap s) (live s)
    (next_id s) (resize_listeners s) (animate_loops s) (pending_stops s) (log s).

Definition set_meshRef v s :=
  Build_State (mountRef s) (rendererRef s) (sceneRef s) (cameraRef s) (controlsRef s) v
    (recorderRef s) (isRecording s) (isLoadingAssets s) (aspectRatio s) (heap s) (live s)
    (next_id s) (resize_listeners s) (animate_loops s) (pending_stops s) (log s).

Definition set_recorderRef v s :=
  Build_State (mountRef s) (rendererRef s) (sceneRef s) (cameraRef s) (controlsRef s) (meshRef s)
    v (isRecording s) (isLoadingAssets s) (aspectRatio s) (heap s) (live s)
    (next_id s) (resize_listeners s) (animate_loops s) (pending_stops s) (log s).

Definition setIsRecording v s :=
  Build_State (mountRef s) (rendererRef s) (sceneRef s) (cameraRef s) (controlsRef s) (meshRef s)
    (recorderRef s) v (isLoadingAssets s) (aspectRatio s) (heap s) (live s)
    (next_id s) (resize_listeners s) (animate_loops s) (pending_stops s) (log s).

Definition setIsLoadingAssets v s :=
  Build_State (mountRef s) (rendererRef s) (sceneRef s) (cameraRef s) (controlsRef s) (meshRef s)
    (recorderRef s) (isRecording s) v (aspectRatio s) (heap s) (live s)
    (next_id s) (resize_listeners s) (animate_loops s) (pending_stops s) (log s).

Definition setAspectRatio v s :=
  Build_State (mountRef s) (rendererRef s) (sceneRef s) (cameraRef s) (controlsRef s) (meshRef s)
    (recorderRef s) (isRecording s) (isLoadingAssets s) v (heap s) (live s)
    (next_id s) (resize_listeners s) (animate_loops s) (pending_stops s) (log s).

Definition set_heap v s :=
  Build_State (mountRef s) (rendererRef s) (sceneRef s) (cameraRef s) (controlsRef s) (meshRef s)
    (recorderRef s) (isRecording s) (isLoadingAssets s) (aspectRatio s) v (live s)
    (next_id s) (resize_listeners s) (animate_loops s) (pending_stops s) (log s).

Definition set_live v s :=
  Build_State (mountRef s) (rendererRef s) (sceneRef s) (cameraRef s) (controlsRef s) (meshRef s)
    (recorderRef s) (isRecording s) (isLoadingAssets s) (aspectRatio s) (heap s) v
    (next_id s) (resize_listeners s) (animate_loops s) (pending_stops s) (log s).

Definition set_next_id v s :=
  Build_State (mountRef s) (rendererRef s) (sceneRef s) (cameraRef s) (controlsRef s) (meshRef s)
    (recorderRef s) (isRecording s) (isLoadingAssets s) (aspectRatio s) (heap s) (live s)
    v (resize_listeners s) (animate_loops s) (pending_stops s) (log s).

Definition set_resize_listeners v s :=
  Build_State (mountRef s) (rendererRef s) (sceneRef s) (cameraRef s) (controlsRef s) (meshRef s)
    (recorderRef s) (isRecording s) (isLoadingAssets s) (aspectRatio s) (heap s) (live s)
    (next_id s) v (animate_loops s) (pending_stops s) (log s).

Definition set_animate_loops v s :=
  Build_State (mountRef s) (rendererRef s) (sceneRef s) (cameraRef s) (controlsRef s) (meshRef s)
    (recorderRef s) (isRecording s) (isLoadingAssets s) (aspectRatio s) (heap s) (live s)
    (next_id s) (resize_listeners s) v (pending_stops s) (log s).

Definition set_pending_stops v s :=
  Build_State (mountRef s) (rendererRef s) (sceneRef s) (cameraRef s) (controlsRef s) (meshRef s)
    (recorderRef s) (isRecording s) (isLoadingAssets s) (aspectRatio s) (heap s) (live s)
    (next_id s) (resize_listeners s) (animate_loops s) v (log s).

Definition set_log v s :=
  Build_State (mountRef s) (rendererRef s) (sceneRef s) (cameraRef s) (controlsRef s) (meshRef s)
    (recorderRef s) (isRecording s) (isLoadingAssets s) (aspectRatio s) (heap s) (live s)
    (next_id s) (resize_listeners s) (animate_loops s) (pending_stops s) v.

Definition emit (e : Effect) (s : State) : State := set_log (log s ++ [e]) s.

(** A freshly mounted component: every ref but the mount is [null],
    [aspectRatio] starts at 16/9. *)
Definition mounted (w h : Z) : State :=
  {| mountRef := Some {| clientWidth := w; clientHeight := h; canvases := 0 |};
     rendererRef := None; sceneRef := None; cameraRef := None; controlsRef := None;
     meshRef := None; recorderRef := None;
     isRecording := false; isLoadingAssets := false; aspectRatio := (16 # 9)%Q;
     heap := ∅; live := ∅; next_id := 0%nat;
     resize_listeners := 0%nat; animate_loops := 0%nat; pending_stops := 0%nat;
     log := [] |}.

(** ** GPU resources *)

(** Creating a geometry, a material or a texture takes a fresh identity
    and makes the resource live. *)
Definition alloc (s : State) : nat * State :=
  (next_id s, set_next_id (S (next_id s)) (set_live ({[next_id s]} ∪ live s) s)).

(** [resource.dispose()] *)
Definition dispose (id : nat) (s : State) : State :=
  set_live (live s ∖ {[id]}) s.

(** [new THREE.Mesh(geometry, material)] puts a new object on the heap. *)
Definition new_Mesh (m : Mesh) (s : State) : nat * State :=
  (next_id s, set_next_id (S (next_id s)) (set_heap (<[next_id s := m]> (heap s)) s)).

(** ** cleanupScene (lines 31-43) *)

Definition dispose_texture (t : option Texture) (s : State) : State :=
  match t with
  | Some tx => dispose (tex_id tx) s
  | None => s
  end.

Definition dispose_material (mt : option MeshStandardMaterial) (s : State) : State :=
  match mt with
  | Some mat =>
      let s := dispose_texture (mat_map mat) s in
      let s := dispose_texture (mat_displacementMap mat) s in
      dispose (mat_id mat) s
  | None => s
  end.

Definition dispose_geometry (g : option PlaneGeometry) (s : State) : State :=
  match g with
  | Some geo => dispose (geo_id geo) s
  | None => s
  end.

Definition cleanupScene (s : State) : State :=
  match meshRef s, sceneRef s with
  | Some m, Some sc =>
      let s := set_sceneRef (Some (Scene_remove m sc)) s in
      let s := dispose_geometry (heap s !! m ≫= geometry) s in
      let s := dispose_material (heap s !! m ≫= material) s in
      set_meshRef None s
  | _, _ => s
  end.

(** ** The render loop (lines 128-134) *)

(** [animate] returns at once when a ref is missing; otherwise it asks for
    the next frame, updates the controls and renders.  Rendering reads the
    scene and writes nothing the component can observe, so the function
    only tells whether the loop goes on. *)
Definition animate (s : State) : bool :=
  match rendererRef s, sceneRef s, cameraRef s, controlsRef s with
  | Some _, Some _, Some _, Some _ => true
  | _, _, _, _ => false
  end.

(** One animation frame delivered to a waiting [animate] callback. *)
Definition animate_frame (s : State) : State :=
  match animate_loops s with
  | O => s
  | S n => if animate s then s else set_animate_loops n s
  end.

(** ** The effect on [originalImageUri, depthMapUri] (lines 45-158) *)

Definition setSize (w h : Z) (r : WebGLRenderer) : WebGLRenderer :=
  {| renderer_size := (w, h); renderer_disposed := renderer_disposed r |}.

Definition set_aspect (a : Q) (c : PerspectiveCamera) : PerspectiveCamera :=
  {| fov := fov c; aspect := a; near := near c; far := far c |}.

Definition appendChild (el : HTMLDivElement) : HTMLDivElement :=
  {| clientWidth := clientWidth el; clientHeight := clientHeight el;
     canvases := S (canvases el) |}.

(** Lines 59-79: first initialisation of scene, camera, renderer, lights
    and controls.  (The camera's position is the Camera Controller's
    business and lives in [Module Orbit].) *)
Definition init_three (currentMount : HTMLDivElement) (s : State) : State :=
  let w := clientWidth currentMount in
  let h := clientHeight currentMount in
  let s := set_sceneRef (Some {| background := 0xf0f4f8; children := [] |}) s in
  let s := set_cameraRef
             (Some {| fov := 75; aspect := (inject_Z w / inject_Z h)%Q;
                      near := 0.1; far := 1000 |}) s in
  let s := set_rendererRef
             (Some (setSize w h {| renderer_size := (0, 0); renderer_disposed := false |})) s in
  let s := set_mountRef (Some (appendChild currentMount)) s in
  let s := set_sceneRef (Scene_add (AmbientLight 0xffffff 0.7) <$> sceneRef s) s in
  let s := set_sceneRef (Scene_add (DirectionalLight 0xffffff 0.8) <$> sceneRef s) s in
  set_controlsRef
    (Some {| enableDamping := true; dampingFactor := 0.05; controls_disposed := false |}) s.

(** Lines 80-87: later runs only bring the renderer and the camera up to
    the mount's size. *)
Definition refresh_size (currentMount : HTMLDivElement) (s : State) : State :=
  let w := clientWidth currentMount in
  let h := clientHeight currentMount in
  let s := set_rendererRef (setSize w h <$> rendererRef s) s in
  set_cameraRef (set_aspect (inject_Z w / inject_Z h)%Q <$> cameraRef s) s.

(** The effect body.  The boolean tells whether a cleanup function was
    returned (the two early returns give none).  The texture loads it
    starts settle later, through [load_then] or [load_catch]. *)
Definition useEffect_body (originalImageUri depthMapUri : option string) (s : State)
  : State * bool :=
  match mountRef s with
  | None => (s, false)
  | Some currentMount =>
      if negb (truthy originalImageUri) || negb (truthy depthMapUri)
      then (cleanupScene s, false)
      else
        let s := setIsLoadingAssets true s in
        let s := match rendererRef s with
                 | None => init_three currentMount s
                 | Some _ => refresh_size currentMount s
                 end in
        let s := cleanupScene s in
        let s := if animate s then set_animate_loops (S (animate_loops s)) s else s in
        let s := set_resize_listeners (S (resize_listeners s)) s in
        (s, true)
  end.

(** Lines 144-157: the cleanup removes the resize listener; everything
    else in it is commented out. *)
Definition useEffect_cleanup (s : State) : State :=
  set_resize_listeners (Nat.pred (resize_listeners s)) s.

(** React runs the cleanup of the previous effect, if it returned one,
    before the next effect body and when the component unmounts. *)
Definition run_cleanup (f : State * bool) : State :=
  if snd f then useEffect_cleanup (fst f) else fst f.

Definition rerender (originalImageUri depthMapUri : option string) (f : State * bool)
  : State * bool :=
  useEffect_body originalImageUri depthMapUri (run_cleanup f).

Definition unmount (f : State * bool) : State :=
  set_mountRef None (run_cleanup f).

(** Lines 136-141: the resize handler, which a window resize calls once for
    every effect run whose cleanup has not run yet. *)
Definition handleResize (s : State) : State :=
  match rendererRef s, cameraRef s, mountRef s with
  | Some _, Some _, Some currentMount => refresh_size currentMount s
  | _, _, _ => s
  end.

(** Lines 194-203: the still export. *)
Definition exportAsImage (s : State) : State :=
  match rendererRef s with
  | Some _ => emit (Download "depthvision_render.png") s
  | None => s
  end.

(** Lines 123-126: the catch handler. *)
Definition load_catch (s : State) : State :=
  setIsLoadingAssets false (emit (ConsoleError "Error loading textures:") s).

(** [TextureLoader.loadAsync] resolving with an image of the given size. *)
Definition new_Texture (w h : Z) (s : State) : Texture * State :=
  let '(id, s) := alloc s in
  ({| tex_id := id; image_width := w; image_height := h |}, s).

(** Lines 95-122: the then handler of [Promise.all].  The non-null
    assertion on [sceneRef.current] throws when the scene is missing; the
    [catch] chained after [then] receives that error.  The handler's
    lines 113-120, which move the camera back so that the plane fits, are
    [Orbit.fit_camera]. *)
Definition load_then (originalTexture depthTexture : Texture) (s : State) : State :=
  let imageAspect :=
    (inject_Z (image_width originalTexture) / inject_Z (image_height originalTexture))%Q in
  let s := setAspectRatio imageAspect s in
  let planeWidth := 2%Q in
  let planeHeight := (planeWidth / imageAspect)%Q in
  let '(gid, s) := alloc s in
  let geometry :=
    {| geo_id := gid; width := planeWidth; height := planeHeight;
       widthSegments := 255; heightSegments := Math_round (255 / imageAspect) |} in
  let '(mid, s) := alloc s in
  let material :=
    {| mat_id := mid; mat_map := Some originalTexture;
       mat_displacementMap := Some depthTexture;
       displacementScale := 0.3; side := DoubleSide |} in
  let '(m, s) :=
    new_Mesh {| geometry := Some geometry; material := Some material; rotation_y := 0 |} s in
  let s := set_meshRef (Some m) s in
  match sceneRef s with
  | None => load_catch s
  | Some sc =>
      let s := set_sceneRef (Some (Scene_add (MeshObj m) sc)) s in
      setIsLoadingAssets false s
  end.

(** Both loads resolve, with images of the given sizes, and the then
    handler runs. *)
Definition load_resolved (cw ch dw dh : Z) (s : State) : State :=
  let '(originalTexture, s) := new_Texture cw ch s in
  let '(depthTexture, s) := new_Texture dw dh s in
  load_then originalTexture depthTexture s.

(** ** Video export (lines 205-261) *)

(** What [animateRecording] closes over. *)
Record RecordingClosure := {
  initialRotationY : Q;
  startTime : Z
}.

Definition duration : Z := 5000.

Definition set_rotation_y (v : Q) (m : Mesh) : Mesh :=
  {| geometry := geometry m; material := material m; rotation_y := v |}.

(** [if (meshRef.current) meshRef.current.rotation.y = v] *)
Definition rotate_mesh (v : Q) (s : State) : State :=
  match meshRef s with
  | Some m => set_heap (alter (set_rotation_y v) m (heap s)) s
  | None => s
  end.

(** [recorder.stopRecording(callback)]: the recorder leaves the recording
    state and owes one call of the callback. *)
Definition stopRecordingAndDownload (s : State) : State :=
  match recorderRef s with
  | Some r =>
      set_pending_stops (S (pending_stops s))
        (set_recorderRef (Some {| rtc_state := Rstopped |}) s)
  | None => emit (ExportLoadingChange false) (setIsRecording false s)
  end.

(** The callback handed to [stopRecording] (lines 243-256);
    [recorderRef.current!.getBlob()] throws on a null ref. *)
Definition stop_callback (s : State) : option State :=
  match recorderRef s with
  | None => None
  | Some _ =>
      let s := emit GetBlob s in
      let s := emit (Download "depthvision_animation.webm") s in
      let s := set_recorderRef None s in
      let s := setIsRecording false s in
      Some (emit (ExportLoadingChange false) s)
  end.

(** RecordRTC delivering one owed callback; nothing happens when none is
    owed. *)
Definition recorder_onstop (s : State) : option State :=
  match pending_stops s with
  | O => Some s
  | S n => stop_callback (set_pending_stops n s)
  end.

(** One run of [animateRecording] at clock reading [now]; the boolean
    tells whether it asked for another frame. *)
Definition animateRecording (c : RecordingClosure) (now : Z) (s : State) : State * bool :=
  match recorderRef s with
  | None => (s, false)
  | Some r =>
      if negb (is_recording r) then (s, false)
      else
        let elapsedTime := now - startTime c in
        if elapsedTime <? duration then
          (rotate_mesh
             (initialRotationY c + (inject_Z elapsedTime / inject_Z duration) * Math_PI * 2)%Q s,
           true)
        else
          let s := stopRecordingAndDownload s in
          (rotate_mesh (initialRotationY c) s, false)
  end.

(** [startRecording]: [t0] is the clock reading stored in [startTime],
    [t1] the one read by the first run of [animateRecording]. *)
Definition startRecording (t0 t1 : Z) (s : State) : State * option RecordingClosure * bool :=
  match rendererRef s, sceneRef s, cameraRef s with
  | Some _, Some _, Some _ =>
      let s := emit (ExportLoadingChange true) s in
      let s := setIsRecording true s in
      let s := set_recorderRef (Some {| rtc_state := Rrecording |}) s in
      let c := {| initialRotationY :=
                    match meshRef s ≫= (fun m => heap s !! m) with
                    | Some mesh => rotation_y mesh
                    | None => 0
                    end;
                  startTime := t0 |} in
      let '(s, again) := animateRecording c t1 s in
      (s, Some c, again)
  | _, _, _ => (s, None, false)
  end.

(** * The Camera Controller (lines 160-192)

    The camera's position and the orbit controls, over the reals.
    [OrbitControls] is three.js code, outside the repository.  Its
    methods are modelled as three.js defines them, for a controller at
    rest (no drag and no damped motion in flight): [update] keeps the
    direction from the target to the camera, multiplies the distance by
    the pending dolly scale and clamps it to [minDistance, maxDistance];
    [reset] restores the saved target and position; [dollyOut] divides the
    pending scale by its argument, so that, as the comment at the call
    site says, a factor above 1 zooms in and a factor below 1 zooms
    out. *)

Module Orbit.

Local Open Scope R_scope.

Record Vector3 := { x : R; y : R; z : R }.

Definition origin : Vector3 := {| x := 0; y := 0; z := 0 |}.

Definition add (a b : Vector3) : Vector3 :=
  {| x := x a + x b; y := y a + y b; z := z a + z b |}.

Definition sub (a b : Vector3) : Vector3 :=
  {| x := x a - x b; y := y a - y b; z := z a - z b |}.

Definition multiplyScalar (k : R) (a : Vector3) : Vector3 :=
  {| x := x a * k; y := y a * k; z := z a * k |}.

(** [Vector3.length] *)
Definition length (v : Vector3) : R :=
  sqrt (x v * x v + y v * y v + z v * z v).

(** The fields of [OrbitControls] that zoom and presets depend on.
    [maxDistance = None] stands for [Infinity]; [scale] is the dolly
    gathered since the last [update]. *)
Record OrbitControls := {
  target : Vector3;
  target0 : Vector3;
  position0 : Vector3;
  minDistance : R;
  maxDistance : option R;
  scale : R
}.

(** [cameraRef] (the camera's position) and [controlsRef]. *)
Record View := {
  cameraRef : option Vector3;
  controlsRef : option OrbitControls
}.

(** [new OrbitControls(camera, domElement)]: target at the origin, the
    saved state taken from the camera as it is, the distance limits at
    their defaults 0 and [Infinity]. *)
Definition new_OrbitControls (position : Vector3) : OrbitControls :=
  {| target := origin; target0 := origin; position0 := position;
     minDistance := 0; maxDistance := None; scale := 1 |}.

(** Lines 63-64 and 77: the camera at z = 1.5, then the controls. *)
Definition init_view : View :=
  {| cameraRef := Some {| x := 0; y := 0; z := 3 / 2 |};
     controlsRef := Some (new_OrbitControls {| x := 0; y := 0; z := 3 / 2 |}) |}.

Definition clampDistance (c : OrbitControls) (dist : R) : R :=
  Rmax (minDistance c)
    (match maxDistance c with
     | Some M => Rmin M dist
     | None => dist
     end).

Definition with_target (t : Vector3) (c : OrbitControls) : OrbitControls :=
  {| target := t; target0 := target0 c; position0 := position0 c;
     minDistance := minDistance c; maxDistance := maxDistance c; scale := scale c |}.

Definition with_scale (k : R) (c : OrbitControls) : OrbitControls :=
  {| target := target c; target0 := target0 c; position0 := position0 c;
     minDistance := minDistance c; maxDistance := maxDistance c; scale := k |}.

(** [controls.update()] *)
Definition update (v : View) : View :=
  match cameraRef v, controlsRef v with
  | Some p, Some c =>
      let offset := sub p (target c) in
      let radius := length offset in
      let radius' := clampDistance c (radius * scale c) in
      {| cameraRef := Some (add (target c) (multiplyScalar (radius' / radius) offset));
         controlsRef := Some (with_scale 1 c) |}
  | _, _ => v
  end.

(** [controls.reset()] *)
Definition controls_reset (v : View) : View :=
  match cameraRef v, controlsRef v with
  | Some _, Some c =>
      update {| cameraRef := Some (position0 c);
                controlsRef := Some (with_target (target0 c) c) |}
  | _, _ => v
  end.

(** Lines 113-120 of the then handler: the camera goes to the distance
    along z at which a plane of the given size fits the field of view,
    with a margin of 1.1, and the controls look at the origin again. *)
Definition fit_camera (planeWidth planeHeight fov_degrees : R) (v : View) : View :=
  match cameraRef v with
  | Some p =>
      let fov := fov_degrees * (PI / 180) in
      let fit := Rmax planeWidth planeHeight / (2 * tan (fov / 2)) * (11 / 10) in
      update {| cameraRef := Some {| x := x p; y := y p; z := fit |};
                controlsRef := with_target origin <$> controlsRef v |}
  | None => v
  end.

(** [controls.dollyOut(dollyScale)] *)
Definition dollyOut (dollyScale : R) (c : OrbitControls) : OrbitControls :=
  with_scale (scale c / dollyScale) c.

Inductive Preset := front | top | sideR | sideL | reset.

(** [position.set(...)] of the switch at lines 165-179; [d] is
    [distance > 0.1 ? distance : 1.5]. *)
Definition preset_position (preset : Preset) (d : R) : Vector3 :=
  match preset with
  | front | reset => {| x := 0; y := 0; z := d |}
  | top => {| x := 0; y := d; z := 1 / 1000 |}
  | sideR => {| x := d; y := 0; z := 0 |}
  | sideL => {| x := - d; y := 0; z := 0 |}
  end.

(** [setPresetView] (lines 160-182).  [camera.lookAt] turns the camera
    and leaves its position alone. *)
Definition setPresetView (preset : Preset) (v : View) : View :=
  match cameraRef v, controlsRef v with
  | Some p, Some _ =>
      let distance := length p in
      let v := controls_reset v in
      let d := if Rlt_dec (1 / 10) distance then distance else 3 / 2 in
      update {| cameraRef := Some (preset_position preset d);
                controlsRef := controlsRef v |}
  | _, _ => v
  end.

(** [handleZoom] (lines 184-192); the camera is always a
    [PerspectiveCamera]. *)
Definition handleZoom (factor : R) (v : View) : View :=
  match cameraRef v, controlsRef v with
  | Some _, Some c =>
      update {| cameraRef := cameraRef v; controlsRef := Some (dollyOut factor c) |}
  | _, _ => v
  end.

(** The two zoom buttons (lines 279 and 287). *)
Definition zoomIn : View -> View := handleZoom (12 / 10).

Definition zoomOut : View -> View := handleZoom (8 / 10).

(** The orbit distance: from the target to the camera. *)
Definition distance (v : View) : R :=
  match cameraRef v, controlsRef v with
  | Some p, Some c => length (sub p (target c))
  | _, _ => 0
  end.

(** Controls as the component leaves them: built by the constructor and
    not configured any further (the component sets the damping fields
    only), with no dolly pending. *)
Definition unconfigured (c : OrbitControls) : Prop :=
  target0 c = origin /\ minDistance c = 0 /\ maxDistance c = None /\ scale c = 1.

(** The distance [setPresetView] puts the camera at. *)
Definition preset_distance (d : R) : R :=
  if Rlt_dec (1 / 10) d then d else 3 / 2.

(** A view whose camera and controls exist, the controls as the component
    leaves them. *)
Definition at_rest (v : View) : Prop :=
  exists p c, cameraRef v = Some p /\ controlsRef v = Some c /\
              minDistance c = 0 /\ maxDistance c = None /\ scale c = 1.

(** A camera closer to the origin than 0.1: the controls put no lower
    limit on the distance, so zooming in gets there. *)
Definition close_view : View :=
  {| cameraRef := Some {| x := 0; y := 0; z := 1 / 20 |};
     controlsRef := Some (new_OrbitControls {| x := 0; y := 0; z := 3 / 2 |}) |}.

End Orbit.

(** * Vocabulary of the properties *)

(** The meshes among a list of children, as heap addresses. *)
Definition mesh_children (l : list Object3D) : list nat :=
  omap (fun o => match o with MeshObj a => Some a | _ => None end) l.

Definition scene_meshes (s : State) : list nat :=
  match sceneRef s with
  | Some sc => mesh_children (children sc)
  | None => []
  end.

Definition texture_ids (t : option Texture) : list nat :=
  match t with
  | Some tx => [tex_id tx]
  | None => []
  end.

(** The GPU resources a mesh refers to: its geometry, its material and
    the material's two textures. *)
Definition mesh_resources (m : Mesh) : list nat :=
  match geometry m with
  | Some g => [geo_id g]
  | None => []
  end ++
  match material m with
  | Some mt => texture_ids (mat_map mt) ++ texture_ids (mat_displacementMap mt) ++ [mat_id mt]
  | None => []
  end.

Definition resources_at (s : State) (a : nat) : list nat :=
  match heap s !! a with
  | Some m => mesh_resources m
  | None => []
  end.

(** Resources referred to by the meshes attached to the scene. *)
Definition scene_resources (s : State) : list nat :=
  flat_map (resources_at s) (scene_meshes s).

(** Live GPU resources attached to the scene. *)
Definition gpu_count (s : State) : nat :=
  size (live s ∩ list_to_set (scene_resources s)).

(** A mesh with all four resources, as the then handler builds it. *)
Definition complete_mesh (m : Mesh) : Prop :=
  exists g mt t1 t2,
    geometry m = Some g /\ material m = Some mt /\
    mat_map mt = Some t1 /\ mat_displacementMap mt = Some t2.

(** The state the component is in between two rebuilds that do not
    overlap: the scene holds the mesh [meshRef] points to and no other,
    and the live GPU resources are exactly the four of that mesh. *)
Record tidy (s : State) : Prop := {
  tidy_scene : rendererRef s = None <-> sceneRef s = None;
  tidy_mesh_scene : meshRef s <> None -> sceneRef s <> None;
  tidy_children : scene_meshes s = option_list (meshRef s);
  tidy_live :
    live s = match meshRef s with
             | Some m => list_to_set (resources_at s m)
             | None => ∅
             end;
  tidy_complete :
    forall m, meshRef s = Some m ->
      exists mesh, heap s !! m = Some mesh /\ complete_mesh mesh /\ NoDup (mesh_resources mesh);
  tidy_fresh : forall id, id ∈ live s -> (id < next_id s)%nat
}.

(** The mesh the scene is asked to drop is the only one it holds. *)
Definition tracked (s : State) : Prop :=
  (meshRef s <> None -> sceneRef s <> None) /\
  scene_meshes s = option_list (meshRef s).

(** Lines 59-87, either branch. *)
Definition prepare (el : HTMLDivElement) (s : State) : State :=
  match rendererRef s with
  | None => init_three el s
  | Some _ => refresh_size el s
  end.

(** A pair of props together with the sizes of the images the two URIs
    decode to. *)
Record InputPair := {
  originalImageUri : string;
  depthMapUri : string;
  original_size : Z * Z;
  depth_size : Z * Z
}.

Definition valid_pair (i : InputPair) : Prop :=
  originalImageUri i <> "" /\ depthMapUri i <> "" /\
  0 < fst (original_size i) /\ 0 < snd (original_size i) /\
  0 < fst (depth_size i) /\ 0 < snd (depth_size i).

(** The first half of a rebuild: React swaps the effect for the new pair. *)
Definition rebuild_start (i : InputPair) (f : State * bool) : State * bool :=
  rerender (Some (originalImageUri i)) (Some (depthMapUri i)) f.

(** A whole rebuild: the effect runs, then both loads resolve and the
    then handler builds the mesh, before anything else happens. *)
Definition rebuild (i : InputPair) (f : State * bool) : State * bool :=
  let '(s, c) := rebuild_start i f in
  (load_resolved (fst (original_size i)) (snd (original_size i))
     (fst (depth_size i)) (snd (depth_size i)) s, c).

(** Rebuilds one after the other. *)
Definition rebuilds (l : list InputPair) (f : State * bool) : State * bool :=
  fold_left (fun f i => rebuild i f) l f.

(** The resources of the mesh [meshRef] points to. *)
Definition tracked_resources (s : State) : list nat :=
  match meshRef s with
  | Some m => resources_at s m
  | None => []
  end.

Definition sample_pair : InputPair :=
  {| originalImageUri := "data:image/png;base64,AAAA";
     depthMapUri := "data:image/png;base64,BBBB";
     original_size := (1920, 1080);
     depth_size := (640, 360) |}.

Definition other_pair : InputPair :=
  {| originalImageUri := "data:image/png;base64,CCCC";
     depthMapUri := "data:image/png;base64,DDDD";
     original_size := (600, 800);
     depth_size := (600, 800) |}.

(** The component showing [sample_pair]. *)
Definition showing : State * bool := rebuild sample_pair (mounted 800 600, false).

(** A new pair arrives while [sample_pair] is shown, and one of its
    loads fails. *)
Definition failed_reload : State := load_catch (fst (rebuild_start other_pair showing)).

(** Two changes of the inputs of which the second comes before the loads
    of the first have settled; then both pairs of loads resolve, those of
    the first pair first. *)
Definition overlapped : State :=
  load_resolved 600 800 600 800
    (load_resolved 1920 1080 640 360
       (fst (rebuild_start other_pair
               (rebuild_start sample_pair (mounted 800 600, false))))).

(** The part of the state a Capture Session lives in. *)
Definition capture_state (s : State) : option RecordRTC * nat * bool * list Effect :=
  (recorderRef s, pending_stops s, isRecording s, log s).

(** The yaw of the mesh at address [m]. *)
Definition yaw (s : State) (m : nat) : option Q := rotation_y <$> heap s !! m.



(** The two phases of a session: the recorder records; or it was stopped,
    owes its callback, and the yaw is back at [y0]. *)
Definition capturing (s : State) : Prop :=
  recorderRef s = Some {| rtc_state := Rrecording |} /\ pending_stops s = 0%nat.


(** The state [startRecording] has set up when it runs the first tick. *)
Definition recording_armed (s : State) : State :=
  set_recorderRef (Some {| rtc_state := Rrecording |})
    (setIsRecording true (emit (ExportLoadingChange true) s)).

(** An export started on the component showing [sample_pair]: the clock
    reads 0 when [startTime] is taken and 16 at the first tick. *)
Definition export_begun : State * option RecordingClosure * bool :=
  startRecording 0 16 (fst showing).

Definition export_closure : RecordingClosure :=
  {| initialRotationY := 0; startTime := 0 |}.

(** The component is unmounted in the middle of the export. *)
Definition unmounted_mid_export : State :=
  unmount (fst (fst export_begun), snd showing).

(** The pair changes in the middle of the export. *)
Definition changed_mid_export : State :=
  fst (rebuild_start other_pair (fst (fst export_begun), snd showing)).

(** * The component in its host

    The component's callbacks (effect, promise handlers, frame callbacks,
    listeners, click handlers) run one at a time, in whatever order the
    host and the browser deliver them.  [Canvas] adds to the component's
    state what decides which callbacks can run: the props, whether the
    last effect returned a cleanup, the [Promise.all] still pending, and
    the [animateRecording] callbacks waiting for a frame. *)

(** [hasContent] (line 263) *)
Definition hasContent (p : option string * option string) : bool :=
  truthy (fst p) && truthy (snd p).

(** [disabled={!hasContent || isRecording}], on each button of the
    toolbar (lines 271-311). *)
Definition toolbar_disabled (p : option string * option string) (s : State) : bool :=
  negb (hasContent p) || isRecording s.

Record Canvas := {
  comp : State;
  cleanup_due : bool;
  props : option string * option string;
  loads : nat;
  rec_frames : list RecordingClosure;
  alive : bool
}.

Definition with_comp (s : State) (c : Canvas) : Canvas :=
  {| comp := s; cleanup_due := cleanup_due c; props := props c; loads := loads c;
     rec_frames := rec_frames c; alive := alive c |}.

(** The component right after its first render with no images: the
    effect ran, found no pair and returned at line 52. *)
Definition initial (w h : Z) : Canvas :=
  {| comp := mounted w h; cleanup_due := false; props := (None, None); loads := 0%nat;
     rec_frames := []; alive := true |}.

Inductive Event :=
| Props (originalImageUri depthMapUri : option string)
| Resolve (cw ch dw dh : Z)
| Reject
| Frame (now : Z)
| Resize (w h : Z)
| ClickRecord (t0 t1 : Z)
| ClickScreenshot
| Stopped
| Unmount.

(** The size of the mount changes. *)
Definition resize_mount (w h : Z) (s : State) : State :=
  set_mountRef
    ((fun el => {| clientWidth := w; clientHeight := h; canvases := canvases el |})
       <$> mountRef s) s.

(** A window resize: the registered listener, if any, runs [handleResize]. *)
Definition window_resize (w h : Z) (s : State) : State :=
  let s := resize_mount w h s in
  match resize_listeners s with
  | O => s
  | S _ => handleResize s
  end.

(** The [animateRecording] callbacks of one frame; those that ask for
    another frame wait again. *)
Fixpoint run_rec_frames (now : Z) (cs : list RecordingClosure) (s : State)
  : State * list RecordingClosure :=
  match cs with
  | [] => (s, [])
  | c :: cs' =>
      let '(s1, again) := animateRecording c now s in
      let '(s2, rest) := run_rec_frames now cs' s1 in
      (s2, if again then c :: rest else rest)
  end.

(** One callback.  [None] is an uncaught exception (the [TypeError] of
    [recorderRef.current!.getBlob()]).  An effect runs when the component
    is mounted and a dependency changed; a promise handler runs when a
    [Promise.all] is pending; a click reaches its handler when the button
    is not disabled. *)
Definition step (e : Event) (c : Canvas) : option Canvas :=
  match e with
  | Props o d =>
      if alive c && negb (bool_decide ((o, d) = props c)) then
        let '(s, cl) := rerender o d (comp c, cleanup_due c) in
        Some {| comp := s; cleanup_due := cl; props := (o, d);
                loads := if cl then S (loads c) else loads c;
                rec_frames := rec_frames c; alive := true |}
      else Some c
  | Resolve cw ch dw dh =>
      match loads c with
      | O => Some c
      | S n =>
          Some {| comp := load_resolved cw ch dw dh (comp c); cleanup_due := cleanup_due c;
                  props := props c; loads := n; rec_frames := rec_frames c;
                  alive := alive c |}
      end
  | Reject =>
      match loads c with
      | O => Some c
      | S n =>
          Some {| comp := load_catch (comp c); cleanup_due := cleanup_due c;
                  props := props c; loads := n; rec_frames := rec_frames c;
                  alive := alive c |}
      end
  | Frame now =>
      let s := Nat.iter (animate_loops (comp c)) animate_frame (comp c) in
      let '(s, waiting) := run_rec_frames now (rec_frames c) s in
      Some {| comp := s; cleanup_due := cleanup_due c; props := props c; loads := loads c;
              rec_frames := waiting; alive := alive c |}
  | Resize w h => Some (with_comp (window_resize w h (comp c)) c)
  | ClickRecord t0 t1 =>
      if alive c && negb (toolbar_disabled (props c) (comp c)) then
        let '(s, cl, again) := startRecording t0 t1 (comp c) in
        Some {| comp := s; cleanup_due := cleanup_due c; props := props c; loads := loads c;
                rec_frames :=
                  match cl with
                  | Some k => if again then rec_frames c ++ [k] else rec_frames c
                  | None => rec_frames c
                  end;
                alive := alive c |}
      else Some c
  | ClickScreenshot =>
      if alive c && negb (toolbar_disabled (props c) (comp c))
      then Some (with_comp (exportAsImage (comp c)) c)
      else Some c
  | Stopped =>
      match recorder_onstop (comp c) with
      | Some s => Some (with_comp s c)
      | None => None
      end
  | Unmount =>
      if alive c then
        Some {| comp := unmount (comp c, cleanup_due c); cleanup_due := false;
                props := props c; loads := loads c; rec_frames := rec_frames c;
                alive := false |}
      else Some c
  end.

Fixpoint run (es : list Event) (c : Canvas) : option Canvas :=
  match es with
  | [] => Some c
  | e :: es' =>
      match step e c with
      | Some c' => run es' c'
      | None => None
      end
  end.

(** The lights among a list of children. *)
Definition lights (l : list Object3D) : list Object3D :=
  List.filter (fun o => match o with MeshObj _ => false | _ => true end) l.

(** How often the log holds a busy signal [b], a blob taken from the
    recorder, a download of the video. *)
Definition busy_signals (b : bool) (l : list Effect) : nat :=
  length (List.filter
            (fun e => match e with ExportLoadingChange b' => Bool.eqb b b' | _ => false end) l).

Definition blobs (l : list Effect) : nat :=
  length (List.filter (fun e => match e with GetBlob => true | _ => false end) l).

Definition video_downloads (l : list Effect) : nat :=
  length (List.filter
            (fun e => match e with
                      | Download f => String.eqb f "depthvision_animation.webm"
                      | _ => false
                      end) l).

(** What an export leaves in the state. *)
Definition export_view (s : State) : option RecordRTC * nat * bool * (nat * nat * nat * nat) :=
  (recorderRef s, pending_stops s, isRecording s,
   (busy_signals true (log s), busy_signals false (log s), blobs (log s),
    video_downloads (log s))).

(** The recorder between two callbacks: none when no export runs; while
    one runs, either recording with its one frame callback waiting, or
    stopped with its one stop callback owed.  And the books of the log:
    each busy signal that was lowered goes with one blob and one video
    download, and one more was raised exactly while an export runs. *)
Definition export_ok_at (s : State) (waiting : list RecordingClosure) : Prop :=
  (if isRecording s then
     (recorderRef s = Some {| rtc_state := Rrecording |} /\
      pending_stops s = 0%nat /\ exists k, waiting = [k]) \/
     (recorderRef s = Some {| rtc_state := Rstopped |} /\
      pending_stops s = 1%nat /\ waiting = [])
   else
     recorderRef s = None /\ pending_stops s = 0%nat /\ waiting = []) /\
  busy_signals true (log s) =
    (busy_signals false (log s) + if isRecording s then 1 else 0)%nat /\
  blobs (log s) = busy_signals false (log s) /\
  video_downloads (log s) = busy_signals false (log s).

Definition export_ok (c : Canvas) : Prop := export_ok_at (comp c) (rec_frames c).

(** The renderer, the scene with its lights, the camera and the controls
    are created together, once, with one canvas put into the mount; one
    resize listener is registered exactly while an effect cleanup is due;
    and no load is pending before they exist. *)
Definition devices_ok_at (s : State) (cleanup mounted_now : bool) (pending : nat) : Prop :=
  resize_listeners s = (if cleanup then 1 else 0)%nat /\
  (mounted_now = true -> mountRef s <> None) /\
  match rendererRef s with
  | None =>
      sceneRef s = None /\ cameraRef s = None /\ controlsRef s = None /\
      pending = 0%nat /\ animate_loops s = 0%nat /\
      (forall el, mountRef s = Some el -> canvases el = 0%nat)
  | Some r =>
      renderer_disposed r = false /\
      exists sc cam ctl,
        sceneRef s = Some sc /\ cameraRef s = Some cam /\ controlsRef s = Some ctl /\
        lights (children sc) = [AmbientLight 0xffffff 0.7; DirectionalLight 0xffffff 0.8] /\
        controls_disposed ctl = false /\
        (forall el, mountRef s = Some el -> canvases el = 1%nat)
  end.

Definition devices_ok (c : Canvas) : Prop :=
  devices_ok_at (comp c) (cleanup_due c) (alive c) (loads c).

(** The scene never shows what was disposed: the meshes attached to it
    are distinct objects, each with its geometry, its material and both
    textures still live, no resource belongs to two meshes, and the mesh
    [meshRef] points to is attached. *)
Record scene_ok (s : State) : Prop := {
  scene_nodup : NoDup (scene_meshes s);
  scene_live :
    forall m, m ∈ scene_meshes s ->
      exists mesh, heap s !! m = Some mesh /\ complete_mesh mesh /\
                   forall r, r ∈ mesh_resources mesh -> r ∈ live s;
  scene_fresh_mesh : forall m, is_Some (heap s !! m) -> (m < next_id s)%nat;
  scene_fresh_resource :
    forall m mesh r, heap s !! m = Some mesh -> r ∈ mesh_resources mesh -> (r < next_id s)%nat;
  scene_unshared :
    forall m1 m2 mesh1 mesh2 r,
      heap s !! m1 = Some mesh1 -> heap s !! m2 = Some mesh2 ->
      r ∈ mesh_resources mesh1 -> r ∈ mesh_resources mesh2 -> m1 = m2;
  scene_tracked : forall m, meshRef s = Some m -> m ∈ scene_meshes s
}.

(** Everything at once. *)
Definition sound (c : Canvas) : Prop :=
  export_ok c /\ devices_ok c /\ scene_ok (comp c).

(** The fields that hold the devices. *)
Definition device_view (s : State) :=
  (mountRef s, rendererRef s, sceneRef s, cameraRef s, controlsRef s,
   (resize_listeners s, animate_loops s)).

(** The fields that hold the meshes and their resources. *)
Definition scene_view (s : State) :=
  (sceneRef s, meshRef s, heap s, live s, next_id s).

(** A mesh that is attached to the scene and that [meshRef] does not
    point to: [cleanupScene] cannot reach it. *)
Definition orphan (s : State) (m : nat) : Prop :=
  m ∈ scene_meshes s /\ meshRef s <> Some m.

(** Two states with the same scene, the same tracked mesh, the same live
    resources, and meshes that refer to the same resources. *)
Definition same_shape (s s' : State) : Prop :=
  sceneRef s' = sceneRef s /\ meshRef s' = meshRef s /\ live s' = live s /\
  next_id s' = next_id s /\ forall a, resources_at s' a = resources_at s a.

(** Two pairs of props of which the second arrives while the loads of the
    first are pending, then both pairs of loads resolve. *)
Definition overlapping_events : list Event :=
  [Props (Some "data:image/png;base64,AAAA") (Some "data:image/png;base64,BBBB");
   Props (Some "data:image/png;base64,CCCC") (Some "data:image/png;base64,DDDD");
   Resolve 1920 1080 640 360; Resolve 600 800 600 800].

(** The images are taken away while their loads are pending. *)
Definition withdrawn_events : list Event :=
  [Props (Some "data:image/png;base64,AAAA") (Some "data:image/png;base64,BBBB");
   Props None None].

(** What neither the scene nor an export touches. *)
Definition rest_view (s : State) :=
  (mountRef s, rendererRef s, cameraRef s, controlsRef s,
   (resize_listeners s, animate_loops s, isLoadingAssets s)).

(** A cleanup is due exactly while the component is mounted with both
    images, and then the devices exist. *)
Definition listener_ok (c : Canvas) : Prop :=
  cleanup_due c = alive c && hasContent (props c) /\
  (cleanup_due c = true -> rendererRef (comp c) <> None).

(** The spinner of the mount (line 315) is on only while a load is
    pending. *)
Definition loading_ok (c : Canvas) : Prop :=
  isLoadingAssets (comp c) = true -> loads c <> 0%nat.

(** The devices together with the loading flag. *)
Definition still_view (s : State) := (device_view s, isLoadingAssets s).

(** A pair is shown, then a second pair arrives and its loads resolve. *)
Definition two_pairs_events : list Event :=
  [Props (Some "data:image/png;base64,AAAA") (Some "data:image/png;base64,BBBB");
   Resolve 1920 1080 640 360;
   Props (Some "data:image/png;base64,CCCC") (Some "data:image/png;base64,DDDD");
   Resolve 600 800 600 800].

(** * The image proxy ([src/actions/image-proxy.ts])

    The server action behind "From URL".  [fetch] and the base64 encoder
    of [Buffer] are the platform's; the action is modelled for any
    behaviour of theirs.  Strings are byte strings, as the values of HTTP
    headers are. *)

Module ImageProxy.

(** What a [catch] clause receives: an [Error] with its [name] and
    [message], or some other value. *)
Inductive Thrown :=
| ErrorObject (name message : string)
| OtherValue.

(** [response.arrayBuffer()] either rejects or gives the body. *)
Record Response := {
  ok : bool;
  status : N;
  statusText : string;
  content_type : option string;
  arrayBuffer : Thrown + list Byte.byte
}.

Inductive Result :=
| Success (dataUri : string)
| Failure (error : string).

(** [String.prototype.startsWith], [includes] and [toLowerCase]; the
    last on the letters A to Z, the only bytes whose lower case is a
    character of the allowed types. *)
Definition startsWith (s searchString : string) : bool := String.prefix searchString s.

Definition includes (s searchString : string) : bool :=
  match String.index 0 searchString s with
  | Some _ => true
  | None => false
  end.

Definition toLowerCase_ascii (c : Ascii.ascii) : Ascii.ascii :=
  let n := Ascii.nat_of_ascii c in
  if (65 <=? n)%nat && (n <=? 90)%nat then Ascii.ascii_of_nat (n + 32) else c.

Fixpoint toLowerCase (s : string) : string :=
  match s with
  | EmptyString => EmptyString
  | String c s' => String (toLowerCase_ascii c) (toLowerCase s')
  end.

Definition allowedImageTypes : list string :=
  ["image/jpeg"; "image/png"; "image/gif"; "image/webp"; "image/svg+xml"].

(** [Array.prototype.includes] on strings *)
Definition Array_includes (l : list string) (s : string) : bool :=
  existsb (String.eqb s) l.

(** 10 MB, as the source writes it: [10 * 1024 * 1024]. *)
Definition size_limit : Z := 10 * 1024 * 1024.

(** The [catch] clause (lines 39-48). *)
Definition on_error (error : Thrown) : Result :=
  match error with
  | ErrorObject name message =>
      if String.eqb name "AbortError" || includes message "timed out"
      then Failure "Failed to load image: Request timed out."
      else Failure ("Failed to load image from URL: " +:+ message)
  | OtherValue => Failure "An unknown error occurred while fetching the image."
  end.

Section Action.

(** The platform: what [fetch] does for a URL, and
    [Buffer.from(buffer).toString('base64')]. *)
Variable fetch : string -> Thrown + Response.
Variable base64 : list Byte.byte -> string.

(** [fetchImageAsDataUrl] (lines 3-49).  Beside the result: the URLs
    that were requested and what went to [console.error]. *)
Definition fetchImageAsDataUrl (imageUrl : string)
  : Result * list string * list Thrown :=
  if negb (startsWith imageUrl "http://") && negb (startsWith imageUrl "https://")
  then (Failure "Invalid URL. Must start with http:// or https://", [], [])
  else
    match fetch imageUrl with
    | inl e => (on_error e, [imageUrl], [e])
    | inr response =>
        if negb (ok response) then
          (Failure ("Failed to fetch image: " +:+ pretty (status response) +:+ " " +:+
                    statusText response), [imageUrl], [])
        else
          match content_type response with
          | None =>
              (Failure "URL does not point to a valid image type. Received: null",
               [imageUrl], [])
          | Some contentType =>
              if negb (truthy (Some contentType)) || negb (startsWith contentType "image/")
              then
                (Failure ("URL does not point to a valid image type. Received: " +:+
                          contentType), [imageUrl], [])
              else if negb (Array_includes allowedImageTypes (toLowerCase contentType))
              then
                (Failure ("Unsupported image type: " +:+ contentType +:+
                          ". Supported types are JPEG, PNG, GIF, WebP, SVG."),
                 [imageUrl], [])
              else
                match arrayBuffer response with
                | inl e => (on_error e, [imageUrl], [e])
                | inr buffer =>
                    if size_limit <? Z.of_nat (length buffer)
                    then (Failure "Image size exceeds 10MB limit.", [imageUrl], [])
                    else
                      (Success ("data:" +:+ contentType +:+ ";base64," +:+ base64 buffer),
                       [imageUrl], [])
                end
          end
    end.

End Action.

End ImageProxy.

(** * The page ([src/app/page.tsx])

    The host of the viewer.  Its handlers run one at a time; the two
    asynchronous ones are cut at their [await]: the part before it runs on
    the click, the part after it when the server action settles.  State
    updates of one handler run are batched into one render. *)

Module Page.

Import ImageProxy.

Record Toast := {
  title : string;
  description : string;
  destructive : bool
}.

(** A server action that was called and has not settled. *)
Inductive Request :=
| UrlRequest (imageUrl : string)
| DepthRequest (photoDataUri : string).

Record State := {
  originalImage : option string;
  depthMapImage : option string;
  isLoading : bool;
  isExporting : bool;
  imageUrl : string;
  progress : Z;
  error : option string;
  toasts : list Toast;
  console : list string;
  readers : list string;
  requests : list Request;
  intervals : nat;
  unhandled : list string
}.

Definition initial : State :=
  {| originalImage := None; depthMapImage := None; isLoading := false;
     isExporting := false; imageUrl := EmptyString; progress := 0; error := None;
     toasts := []; console := []; readers := [];
     requests := []; intervals := 0; unhandled := [] |}.

Definition setOriginalImage v s :=
  {| originalImage := v; depthMapImage := depthMapImage s; isLoading := isLoading s;
     isExporting := isExporting s; imageUrl := imageUrl s; progress := progress s;
     error := error s; toasts := toasts s;
     console := console s; readers := readers s; requests := requests s;
     intervals := intervals s; unhandled := unhandled s |}.

Definition setDepthMapImage v s :=
  {| originalImage := originalImage s; depthMapImage := v; isLoading := isLoading s;
     isExporting := isExporting s; imageUrl := imageUrl s; progress := progress s;
     error := error s; toasts := toasts s;
     console := console s; readers := readers s; requests := requests s;
     intervals := intervals s; unhandled := unhandled s |}.

Definition setIsLoading v s :=
  {| originalImage := originalImage s; depthMapImage := depthMapImage s; isLoading := v;
     isExporting := isExporting s; imageUrl := imageUrl s; progress := progress s;
     error := error s; toasts := toasts s;
     console := console s; readers := readers s; requests := requests s;
     intervals := intervals s; unhandled := unhandled s |}.

Definition setIsExporting v s :=
  {| originalImage := originalImage s; depthMapImage := depthMapImage s;
     isLoading := isLoading s; isExporting := v; imageUrl := imageUrl s;
     progress := progress s; error := error s;
     toasts := toasts s; console := console s; readers := readers s;
     requests := requests s; intervals := intervals s; unhandled := unhandled s |}.

Definition setImageUrl v s :=
  {| originalImage := originalImage s; depthMapImage := depthMapImage s;
     isLoading := isLoading s; isExporting := isExporting s; imageUrl := v;
     progress := progress s; error := error s;
     toasts := toasts s; console := console s; readers := readers s;
     requests := requests s; intervals := intervals s; unhandled := unhandled s |}.

Definition setProgress v s :=
  {| originalImage := originalImage s; depthMapImage := depthMapImage s;
     isLoading := isLoading s; isExporting := isExporting s; imageUrl := imageUrl s;
     progress := v; error := error s;
     toasts := toasts s; console := console s; readers := readers s;
     requests := requests s; intervals := intervals s; unhandled := unhandled s |}.

Definition setError v s :=
  {| originalImage := originalImage s; depthMapImage := depthMapImage s;
     isLoading := isLoading s; isExporting := isExporting s; imageUrl := imageUrl s;
     progress := progress s; error := v;
     toasts := toasts s; console := console s; readers := readers s;
     requests := requests s; intervals := intervals s; unhandled := unhandled s |}.

Definition set_toasts v s :=
  {| originalImage := originalImage s; depthMapImage := depthMapImage s;
     isLoading := isLoading s; isExporting := isExporting s; imageUrl := imageUrl s;
     progress := progress s; error := error s;
     toasts := v; console := console s; readers := readers s;
     requests := requests s; intervals := intervals s; unhandled := unhandled s |}.

Definition set_console v s :=
  {| originalImage := originalImage s; depthMapImage := depthMapImage s;
     isLoading := isLoading s; isExporting := isExporting s; imageUrl := imageUrl s;
     progress := progress s; error := error s;
     toasts := toasts s; console := v; readers := readers s;
     requests := requests s; intervals := intervals s; unhandled := unhandled s |}.

Definition set_readers v s :=
  {| originalImage := originalImage s; depthMapImage := depthMapImage s;
     isLoading := isLoading s; isExporting := isExporting s; imageUrl := imageUrl s;
     progress := progress s; error := error s;
     toasts := toasts s; console := console s; readers := v;
     requests := requests s; intervals := intervals s; unhandled := unhandled s |}.

Definition set_requests v s :=
  {| originalImage := originalImage s; depthMapImage := depthMapImage s;
     isLoading := isLoading s; isExporting := isExporting s; imageUrl := imageUrl s;
     progress := progress s; error := error s;
     toasts := toasts s; console := console s; readers := readers s;
     requests := v; intervals := intervals s; unhandled := unhandled s |}.

Definition set_intervals v s :=
  {| originalImage := originalImage s; depthMapImage := depthMapImage s;
     isLoading := isLoading s; isExporting := isExporting s; imageUrl := imageUrl s;
     progress := progress s; error := error s;
     toasts := toasts s; console := console s; readers := readers s;
     requests := requests s; intervals := v; unhandled := unhandled s |}.

Definition set_unhandled v s :=
  {| originalImage := originalImage s; depthMapImage := depthMapImage s;
     isLoading := isLoading s; isExporting := isExporting s; imageUrl := imageUrl s;
     progress := progress s; error := error s;
     toasts := toasts s; console := console s; readers := readers s;
     requests := requests s; intervals := intervals s; unhandled := v |}.

Definition toast (t d : string) (v : bool) (s : State) : State :=
  set_toasts (toasts s ++ [{| title := t; description := d; destructive := v |}]) s.

(** [e.message || fallback] for a caught [e: any]. *)
Definition message_or (e : Thrown) (fallback : string) : string :=
  match e with
  | ErrorObject _ message => if String.eqb message "" then fallback else message
  | OtherValue => fallback
  end.

(** [handleFileChange] (lines 41-56): a file of more than 5 MB is
    refused with a toast; any other is handed to a [FileReader], whose
    [onload] comes later.  With no file chosen nothing happens. *)
Definition handleFileChange (file : option (Z * string)) (s : State) : State :=
  match file with
  | Some (size, content) =>
      if 5 * 1024 * 1024 <? size
      then toast "Error" "File size exceeds 5MB limit." true s
      else set_readers (readers s ++ [content]) s
  | None => s
  end.

(** [reader.onload] (lines 49-53) of the [i]-th reader that is still
    reading. *)
Definition reader_onload (i : nat) (s : State) : State :=
  match readers s !! i with
  | Some content =>
      let s := set_readers (delete i (readers s)) s in
      let s := setOriginalImage (Some content) s in
      let s := setDepthMapImage None s in
      setError None s
  | None => s
  end.

(** [handleImageUrlLoad] up to its [await] (lines 58-67). *)
Definition handleImageUrlLoad (s : State) : State :=
  if String.eqb (imageUrl s) ""
  then toast "Error" "Please enter an image URL." true s
  else
    let s := setIsLoading true s in
    let s := setProgress 30 s in
    let s := setError None s in
    set_requests (requests s ++ [UrlRequest (imageUrl s)]) s.

(** [handleImageUrlLoad] after its [await] (lines 68-81): the action
    returned a result, or the call itself failed. *)
Definition handleImageUrlLoad_settled (outcome : Thrown + Result) (s : State) : State :=
  let s :=
    match outcome with
    | inr (Success dataUri) =>
        let s := setOriginalImage (Some dataUri) s in
        setDepthMapImage None s
    | inr (Failure err) =>
        let s := setError (Some err) s in
        toast "Error loading image from URL" err true s
    | inl e =>
        let s := setError (Some "Failed to load image from URL.") s in
        toast "Error" (message_or e "Failed to load image from URL.") true s
    end in
  let s := setIsLoading false s in
  setProgress 0 s.

(** [handleGenerateDepthMap] up to its [await] (lines 84-101): the
    progress interval is started before the action is called. *)
Definition handleGenerateDepthMap (s : State) : State :=
  match originalImage s with
  | Some photo =>
      if String.eqb photo ""
      then toast "Error" "Please upload an image first." true s
      else
        let s := setIsLoading true s in
        let s := setProgress 10 s in
        let s := setError None s in
        let s := setDepthMapImage None s in
        let s := set_intervals (S (intervals s)) s in
        set_requests (requests s ++ [DepthRequest photo]) s
  | None => toast "Error" "Please upload an image first." true s
  end.

(** The [catch] clause of [handleGenerateDepthMap] (lines 112-116).
    [progressInterval] is a [const] of the [try] block and is not in
    scope here: evaluating [clearInterval(progressInterval)] throws a
    [ReferenceError] out of the clause, after the error was shown.  No
    interval is cleared. *)
Definition handleGenerateDepthMap_catch (e : Thrown) (s : State) : State :=
  let s := set_console (console s ++ ["Error generating depth map:"]) s in
  let s := setError (Some (message_or e "Failed to generate depth map.")) s in
  let s := toast "Error generating depth map" (message_or e "An unknown error occurred.")
             true s in
  set_unhandled (unhandled s ++ ["ReferenceError: progressInterval is not defined"]) s.

(** [handleGenerateDepthMap] after its [await] (lines 101-120):
    [outcome] is [result.depthMapDataUri], or what the action threw. *)
Definition handleGenerateDepthMap_settled (outcome : Thrown + string) (s : State) : State :=
  let s :=
    match outcome with
    | inr depthMapDataUri =>
        let s := set_intervals (Nat.pred (intervals s)) s in
        let s := setProgress 100 s in
        if negb (String.eqb depthMapDataUri "") then
          let s := setDepthMapImage (Some depthMapDataUri) s in
          toast "Success" "Depth map generated successfully!" false s
        else
          handleGenerateDepthMap_catch
            (ErrorObject "Error" "AI did not return a depth map.") s
    | inl e => handleGenerateDepthMap_catch e s
    end in
  let s := setIsLoading false s in
  setProgress 0 s.

(** One firing of a progress interval (line 97). *)
Definition progress_tick (s : State) : State :=
  setProgress (if progress s <? 90 then progress s + 10 else progress s) s.

(** [handleClear] (lines 123-134); emptying the file input (lines
    130-132) changes nothing the page reads. *)
Definition handleClear (s : State) : State :=
  let s := setOriginalImage None s in
  let s := setDepthMapImage None s in
  let s := setImageUrl "" s in
  let s := setError None s in
  let s := setIsLoading false s in
  let s := setProgress 0 s in
  toast "Cleared" "Inputs and 3D view have been cleared." false s.

(** [handleExportLoadingChange] (lines 136-138) *)
Definition handleExportLoadingChange (loading : bool) (s : State) : State :=
  setIsExporting loading s.

(** [String.prototype.trim] on the white space of ASCII. *)
Definition is_space (c : Ascii.ascii) : bool :=
  let n := Ascii.nat_of_ascii c in
  (n =? 32)%nat || ((9 <=? n)%nat && (n <=? 13)%nat).

Fixpoint blank (s : string) : bool :=
  match s with
  | EmptyString => true
  | String c s' => is_space c && blank s'
  end.

(** The [disabled] attributes of the controls (lines 178, 194, 196, 221
    and 226); [!imageUrl.trim()] holds when the URL is blank. *)
Definition file_input_disabled (s : State) : bool := isLoading s.

Definition url_input_disabled (s : State) : bool := isLoading s.

Definition load_disabled (s : State) : bool := isLoading s || blank (imageUrl s).

Definition clear_disabled (s : State) : bool := isLoading s || isExporting s.

Definition generate_disabled (s : State) : bool :=
  negb (truthy (originalImage s)) || isLoading s || isExporting s.

(** The props of the viewer (line 247). *)
Definition viewer_props (s : State) : option string * option string :=
  (originalImage s, depthMapImage s).

(** What can happen to the page. *)
Inductive Event :=
| ChooseFile (file : option (Z * string))
| ReaderLoaded (i : nat)
| TypeUrl (value : string)
| ClickLoad
| UrlSettled (outcome : Thrown + Result)
| ClickGenerate
| DepthSettled (outcome : Thrown + string)
| Tick
| ClickClear
| ExportLoadingChange (loading : bool).

(** The first request of a kind that is still awaited, and the others. *)
Fixpoint take_request (is_kind : Request -> bool) (l : list Request)
  : option (Request * list Request) :=
  match l with
  | [] => None
  | r :: l' =>
      if is_kind r then Some (r, l')
      else match take_request is_kind l' with
           | Some (r', rest) => Some (r', r :: rest)
           | None => None
           end
  end.

Definition is_url_request (r : Request) : bool :=
  match r with UrlRequest _ => true | DepthRequest _ => false end.

Definition is_depth_request (r : Request) : bool :=
  match r with DepthRequest _ => true | UrlRequest _ => false end.

(** One event.  A control that is disabled gives no event; a server
    action settles only if it was called; every running interval fires on
    a tick. *)
Definition step (e : Event) (s : State) : State :=
  match e with
  | ChooseFile file => if file_input_disabled s then s else handleFileChange file s
  | ReaderLoaded i => reader_onload i s
  | TypeUrl value => if url_input_disabled s then s else setImageUrl value s
  | ClickLoad => if load_disabled s then s else handleImageUrlLoad s
  | UrlSettled outcome =>
      match take_request is_url_request (requests s) with
      | Some (_, rest) => handleImageUrlLoad_settled outcome (set_requests rest s)
      | None => s
      end
  | ClickGenerate => if generate_disabled s then s else handleGenerateDepthMap s
  | DepthSettled outcome =>
      match take_request is_depth_request (requests s) with
      | Some (_, rest) => handleGenerateDepthMap_settled outcome (set_requests rest s)
      | None => s
      end
  | Tick => Nat.iter (intervals s) progress_tick s
  | ClickClear => if clear_disabled s then s else handleClear s
  | ExportLoadingChange loading => handleExportLoadingChange loading s
  end.

Definition run (es : list Event) (s : State) : State := fold_left (fun s e => step e s) es s.

(** The server actions that are awaited: at most one, and one exactly
    while [isLoading] is set; an awaited generation has its progress
    interval running; the progress value is a percentage; and neither
    a depth map nor an awaited generation is without an original
    image. *)
Record page_ok (s : State) : Prop := {
  ok_loading : isLoading s = true <-> requests s <> [];
  ok_single : (length (requests s) <= 1)%nat;
  ok_interval : (length (List.filter is_depth_request (requests s)) <= intervals s)%nat;
  ok_progress : 0 <= progress s <= 100;
  ok_depth : depthMapImage s <> None -> originalImage s <> None;
  ok_photo : forall photo, DepthRequest photo ∈ requests s -> originalImage s <> None
}.

End Page.

(** A platform for the examples: one PNG of four bytes behind one URL,
    answered with an upper-case subtype; nothing else can be reached. *)
Definition sample_fetch (url : string) : ImageProxy.Thrown + ImageProxy.Response :=
  if String.eqb url "https://example.com/a.png" then
    inr {| ImageProxy.ok := true; ImageProxy.status := 200%N;
           ImageProxy.statusText := "OK";
           ImageProxy.content_type := Some "image/PNG";
           ImageProxy.arrayBuffer := inr [Byte.x89; Byte.x50; Byte.x4e; Byte.x47] |}
  else inl (ImageProxy.ErrorObject "TypeError" "fetch failed").

Definition sample_base64 (buffer : list Byte.byte) : string := "iVBORw==".

(** * The page with its viewer

    The page renders one viewer, hands it its two images as props
    (line 247 of the page) and [handleExportLoadingChange] as
    [onExportLoadingChange].  An event of the page is followed by the
    viewer's effect when the props changed; the busy signals of a callback
    of the viewer reach the page's handler.  The page never unmounts its
    viewer. *)












(** * Rebuilds as the component meets them *)

(** The meshes of the scene that [meshRef] does not point to. *)
Definition untracked (s : State) : list nat :=
  match meshRef s with
  | Some m => List.filter (fun a => negb (Nat.eqb a m)) (scene_meshes s)
  | None => scene_meshes s
  end.

(** One rebuild run by itself: the props change to the pair, and both
    loads resolve before anything else happens. *)
Definition rebuild_events (i : InputPair) : list Event :=
  [Props (Some (originalImageUri i)) (Some (depthMapUri i));
   Resolve (fst (original_size i)) (snd (original_size i))
           (fst (depth_size i)) (snd (depth_size i))].

Definition rebuilds_events (l : list InputPair) : list Event :=
  flat_map rebuild_events l.

Definition pair_props (i : InputPair) : option string * option string :=
  (Some (originalImageUri i), Some (depthMapUri i)).

(** Every pair differs from the one before it, the first from [p]. *)
Fixpoint changing (p : option string * option string) (l : list InputPair) : Prop :=
  match l with
  | [] => True
  | i :: l' => pair_props i <> p /\ changing (pair_props i) l'
  end.

(** No mesh refers to one resource twice. *)
Definition distinct_ok (s : State) : Prop := forall a, NoDup (resources_at s a).

(** The props after the pairs of [l] have come, one after the other. *)
Definition last_props (p : option string * option string) (l : list InputPair)
  : option string * option string :=
  fold_left (fun _ i => pair_props i) l p.

(** * Properties *)

#[local] Set Warnings "-clear-no-such-hyp".

(** ** cleanupScene *)

Lemma mesh_children_app l1 l2 :
  mesh_children (l1 ++ l2) = mesh_children l1 ++ mesh_children l2.
Proof. unfold mesh_children. apply omap_app. Qed.

Lemma remove_child_single m l :
  mesh_children l = [m] -> mesh_children (remove_child m l) = [].
Proof.
  induction l as [|o l IH]; simpl; [discriminate|].
  destruct o as [c i|c i|a]; simpl; auto.
  intros H. injection H as -> Hl.
  rewrite Nat.eqb_refl. exact Hl.
Qed.

Lemma remove_child_absent m l :
  m ∉ mesh_children l -> remove_child m l = l.
Proof.
  induction l as [|o l IH]; simpl; [reflexivity|].
  destruct o as [c i|c i|a]; simpl; intros H; try (f_equal; auto).
  destruct (Nat.eqb_spec a m) as [->|Hne].
  - exfalso. apply H. left.
  - f_equal. apply IH. intros Hin. apply H. now right.
Qed.

(** Between rebuilds that do not overlap the scene holds the tracked mesh
    only. *)
Lemma tidy_tracked s : tidy s -> tracked s.
Proof. intros H. split; [apply H | apply H]. Qed.

Lemma dispose_geometry_heap g s : heap (dispose_geometry g s) = heap s.
Proof. destruct g; reflexivity. Qed.

(** [cleanupScene] in one step: the tracked mesh leaves the scene, its
    resources leave the live set, and [meshRef] is cleared. *)
Lemma cleanupScene_unfold s m sc :
  meshRef s = Some m -> sceneRef s = Some sc ->
  cleanupScene s =
  set_meshRef None
    (set_live (live s ∖ list_to_set (resources_at s m))
       (set_sceneRef (Some (Scene_remove m sc)) s)).
Proof.
  intros Hm Hs. unfold cleanupScene, resources_at, mesh_resources. rewrite Hm, Hs.
  cbv zeta. rewrite dispose_geometry_heap.
  change (heap (set_sceneRef (Some (Scene_remove m sc)) s)) with (heap s).
  destruct (heap s !! m) as [[[g|] [[i [t1|] [t2|] ds sd]|] r]|]; simpl;
    unfold set_meshRef, set_live, dispose; simpl; f_equal.
  all: set_solver.
Qed.

Lemma cleanupScene_noop s :
  meshRef s = None \/ sceneRef s = None -> cleanupScene s = s.
Proof.
  unfold cleanupScene. intros [H|H]; rewrite H; [reflexivity|].
  now destruct (meshRef s).
Qed.

(** [cleanupScene] on any state: a second call in a row changes nothing,
    no field of the state; it does nothing when there is no mesh or the
    scene does not exist yet; and when the scene holds the mesh [meshRef]
    points to and no other, one call leaves [meshRef] null and the scene
    without a mesh. *)
Lemma cleanupScene_twice (s : State) :
  cleanupScene (cleanupScene s) = cleanupScene s /\
  (meshRef s = None \/ sceneRef s = None -> cleanupScene s = s) /\
  (tracked s ->
   meshRef (cleanupScene s) = None /\ scene_meshes (cleanupScene s) = []).
Proof.
  split; [|split].
  - destruct (meshRef s) as [m|] eqn:Hm; [|rewrite (cleanupScene_noop s) by auto; apply cleanupScene_noop; auto].
    destruct (sceneRef s) as [sc|] eqn:Hs;
      [|rewrite (cleanupScene_noop s) by auto; apply cleanupScene_noop; auto].
    rewrite (cleanupScene_unfold s m sc Hm Hs).
    apply cleanupScene_noop. now left.
  - apply cleanupScene_noop.
  - intros [Hsc Hch].
    destruct (meshRef s) as [m|] eqn:Hm.
    + destruct (sceneRef s) as [sc|] eqn:Hs; [|now exfalso; apply Hsc].
      rewrite (cleanupScene_unfold s m sc Hm Hs). split; [reflexivity|].
      unfold scene_meshes in *. rewrite Hs in Hch. simpl in *.
      now apply remove_child_single.
    + rewrite cleanupScene_noop by auto. split; [exact Hm|]. exact Hch.
Qed.

(** ** Rebuilds *)

Lemma useEffect_body_valid o d s el :
  mountRef s = Some el -> truthy o = true -> truthy d = true ->
  useEffect_body o d s =
  (let s := cleanupScene (prepare el (setIsLoadingAssets true s)) in
   let s := if animate s then set_animate_loops (S (animate_loops s)) s else s in
   set_resize_listeners (S (resize_listeners s)) s, true).
Proof.
  intros Hm Ho Hd. unfold useEffect_body. rewrite Hm, Ho, Hd. reflexivity.
Qed.

(** What the initialisation leaves alone, and what it guarantees. *)
Lemma prepare_frame el s :
  tidy s -> mountRef s <> None ->
  let s' := prepare el (setIsLoadingAssets true s) in
  meshRef s' = meshRef s /\ heap s' = heap s /\ live s' = live s /\
  next_id s' = next_id s /\ log s' = log s /\ recorderRef s' = recorderRef s /\
  scene_meshes s' = scene_meshes s /\
  sceneRef s' <> None /\ rendererRef s' <> None /\ mountRef s' <> None /\
  isLoadingAssets s' = true.
Proof.
  intros T Hm. unfold prepare. simpl.
  destruct (rendererRef s) as [r|] eqn:Hr.
  - assert (Hs : sceneRef s <> None).
    { intros E. apply (tidy_scene s T) in E. congruence. }
    unfold scene_meshes. simpl. rewrite Hr. simpl.
    repeat split; auto; discriminate.
  - assert (Hs : sceneRef s = None) by (now apply (tidy_scene s T)).
    pose proof (tidy_children s T) as Hc. unfold scene_meshes in *.
    rewrite Hs in *. simpl.
    repeat split; auto; discriminate.
Qed.

(** The effect body on a valid pair: whatever mesh there was is gone from
    the scene and from the GPU before any load settles. *)
Lemma useEffect_body_clears o d s el :
  tidy s -> mountRef s = Some el -> truthy o = true -> truthy d = true ->
  let s1 := fst (useEffect_body o d s) in
  meshRef s1 = None /\ live s1 = ∅ /\ scene_meshes s1 = [] /\
  sceneRef s1 <> None /\ rendererRef s1 <> None /\ mountRef s1 <> None /\
  heap s1 = heap s /\ next_id s1 = next_id s /\ log s1 = log s /\
  recorderRef s1 = recorderRef s /\
  isLoadingAssets s1 = true.
Proof.
  intros T Hm Ho Hd. rewrite (useEffect_body_valid o d s el Hm Ho Hd).
  destruct (prepare_frame el s T) as (Fm & Fh & Fl & Fn & Flog & Frec & Fch & Fs & Fr & Fmt & Fld);
    [congruence|].
  set (sA := prepare el (setIsLoadingAssets true s)) in *.
  assert (HB : let sB := cleanupScene sA in
               meshRef sB = None /\ live sB = ∅ /\ scene_meshes sB = [] /\
               sceneRef sB <> None /\ rendererRef sB <> None /\ mountRef sB <> None /\
               heap sB = heap s /\ next_id sB = next_id s /\ log sB = log s /\
               recorderRef sB = recorderRef s /\
               isLoadingAssets sB = true).
  { cbv zeta. pose proof (tidy_live s T) as Hl. pose proof (tidy_children s T) as Hc.
    destruct (meshRef s) as [m|] eqn:Hms.
    - destruct (sceneRef sA) as [sc|] eqn:HsA; [|congruence].
      rewrite (cleanupScene_unfold sA m sc Fm HsA).
      unfold scene_meshes in *. simpl. rewrite HsA in Fch. rewrite <- Fch in Hc.
      simpl in Hc.
      repeat split; auto; try discriminate.
      + rewrite Fl, Hl. unfold resources_at. rewrite Fh. set_solver.
      + now apply remove_child_single.
    - rewrite cleanupScene_noop by (left; exact Fm).
      simpl in Hl, Hc. repeat split; try congruence. }
  cbv zeta in *. set (sB := cleanupScene sA) in *.
  destruct (animate sB); simpl; unfold scene_meshes in *; simpl; exact HB.
Qed.

Lemma NoDup_four (n : nat) : NoDup [S (S n); n; S n; S (S (S n))].
Proof.
  repeat (apply NoDup_cons; split; [rewrite ?elem_of_cons, elem_of_nil; lia|]).
  apply NoDup_nil_2.
Qed.

(** The then handler on a cleared scene: one complete mesh, tracked and
    attached, and its four resources are the only live ones. *)
Lemma load_resolved_tidy cw ch dw dh s :
  meshRef s = None -> live s = ∅ -> scene_meshes s = [] ->
  sceneRef s <> None -> rendererRef s <> None ->
  let s2 := load_resolved cw ch dw dh s in
  tidy s2 /\ meshRef s2 = Some (4 + next_id s)%nat /\
  size (live s2) = 4%nat /\ gpu_count s2 = 4%nat /\
  mountRef s2 = mountRef s /\ log s2 = log s /\ recorderRef s2 = recorderRef s /\
  isLoadingAssets s2 = false.
Proof.
  intros Hm Hl Hc Hs Hr.
  destruct (sceneRef s) as [sc|] eqn:Hsc; [clear Hs|congruence].
  unfold scene_meshes in Hc. rewrite Hsc in Hc.
  unfold load_resolved, new_Texture, load_then, alloc, new_Mesh. simpl.
  rewrite Hsc. unfold setIsLoadingAssets, set_sceneRef. simpl.
  set (n := next_id s). rewrite Hl.
  assert (Hch : mesh_children (remove_child (S (S (S (S n)))) (children sc)
                                ++ [MeshObj (S (S (S (S n))))]) = [S (S (S (S n)))]).
  { rewrite remove_child_absent by (rewrite Hc; apply not_elem_of_nil).
    rewrite mesh_children_app, Hc. reflexivity. }
  assert (Hset : ({[S (S (S n))]} ∪ ({[S (S n)]} ∪ ({[S n]} ∪ ({[n]} ∪ ∅))) : gset nat)
                 = list_to_set [S (S n); n; S n; S (S (S n))]) by set_solver.
  repeat split; try (simpl; intros; congruence).
  - unfold scene_meshes. simpl. exact Hch.
  - cbn [live meshRef]. unfold resources_at. cbn [heap].
    rewrite lookup_insert_eq. cbn [mesh_resources geometry material texture_ids
      mat_map mat_displacementMap geo_id mat_id tex_id app]. exact Hset.
  - intros m [= <-]. eexists. split; [apply lookup_insert_eq|]. split.
    + do 4 eexists. repeat split; reflexivity.
    + apply NoDup_four.
  - intros id Hid. cbn [live next_id] in *. set_unfold in Hid. lia.
  - cbn [live]. rewrite Hset. rewrite size_list_to_set by apply NoDup_four. reflexivity.
  - unfold gpu_count, scene_resources, scene_meshes. cbn [live sceneRef Scene_add children].
    rewrite Hch. cbn [flat_map]. unfold resources_at. cbn [heap].
    rewrite lookup_insert_eq. cbn [mesh_resources geometry material texture_ids
      mat_map mat_displacementMap geo_id mat_id tex_id app]. rewrite Hset.
    rewrite (subseteq_intersection_1_L _ _) by set_solver.
    rewrite size_list_to_set by apply NoDup_four. reflexivity.
Qed.

Lemma truthy_Some u : u <> "" -> truthy (Some u) = true.
Proof.
  intros H. simpl. destruct (String.eqb_spec u ""); [contradiction|reflexivity].
Qed.

Lemma mounted_tidy w h : tidy (mounted w h).
Proof.
  split; simpl; try tauto; try reflexivity; try discriminate.
Qed.

Lemma run_cleanup_tidy f :
  tidy (fst f) -> tidy (run_cleanup f).
Proof.
  intros [T1 T2 T3 T4 T5 T6]. unfold run_cleanup.
  destruct (snd f); [|now split].
  split; auto.
Qed.

Lemma run_cleanup_frame f :
  mountRef (run_cleanup f) = mountRef (fst f) /\
  meshRef (run_cleanup f) = meshRef (fst f) /\
  heap (run_cleanup f) = heap (fst f) /\
  live (run_cleanup f) = live (fst f) /\
  sceneRef (run_cleanup f) = sceneRef (fst f) /\
  log (run_cleanup f) = log (fst f) /\
  recorderRef (run_cleanup f) = recorderRef (fst f).
Proof. unfold run_cleanup. destruct (snd f); simpl; auto 10. Qed.

(** The state in the middle of a rebuild, and the state after it. *)
Lemma rebuild_steps i f :
  tidy (fst f) -> mountRef (fst f) <> None -> valid_pair i ->
  let mid := fst (rebuild_start i f) in
  let s' := fst (rebuild i f) in
  (meshRef mid = None /\ live mid = ∅ /\ scene_meshes mid = [] /\
   log mid = log (fst f) /\ isLoadingAssets mid = true) /\
  (tidy s' /\ mountRef s' <> None /\ meshRef s' <> None /\
   size (live s') = 4%nat /\ gpu_count s' = 4%nat /\ log s' = log (fst f) /\
   isLoadingAssets s' = false).
Proof.
  intros T Hm (Ho & Hd & _). cbv zeta.
  destruct (run_cleanup_frame f) as (Cm & _ & _ & _ & _ & Clog & _).
  destruct (mountRef (run_cleanup f)) as [el|] eqn:Hel; [|congruence].
  pose proof (useEffect_body_clears _ _ _ el (run_cleanup_tidy f T) Hel
                (truthy_Some _ Ho) (truthy_Some _ Hd)) as H.
  cbv zeta in H. unfold rebuild, rebuild_start, rerender.
  destruct (useEffect_body _ _ (run_cleanup f)) as [s1 c]. simpl in *.
  destruct H as (H1 & H2 & H3 & H4 & H5 & H6 & H7 & H8 & H9 & H10 & H11).
  split; [repeat split; congruence|].
  pose proof (load_resolved_tidy (fst (original_size i)) (snd (original_size i))
                (fst (depth_size i)) (snd (depth_size i)) s1 H1 H2 H3 H4 H5) as L.
  cbv zeta in L. destruct L as (L1 & L2 & L3 & L4 & L5 & L6 & L7 & L8).
  split; [exact L1|]. repeat split; congruence.
Qed.

Lemma rebuilds_tidy l : forall f,
  tidy (fst f) -> mountRef (fst f) <> None -> Forall valid_pair l ->
  tidy (fst (rebuilds l f)) /\ mountRef (fst (rebuilds l f)) <> None.
Proof.
  induction l as [|i l IH]; intros f T Hm Hv; [now split|].
  inversion Hv as [|? ? Hi Hl]; subst. simpl.
  destruct (rebuild_steps i f T Hm Hi) as (_ & T' & Hm' & _).
  now apply IH.
Qed.

Lemma rebuilds_snoc l i f : rebuilds (l ++ [i]) f = rebuild i (rebuilds l f).
Proof. unfold rebuilds. now rewrite fold_left_app. Qed.

(** A rebuild disposes all that the previous mesh held. *)
Lemma rebuild_start_disposes i f :
  tidy (fst f) -> mountRef (fst f) <> None -> valid_pair i ->
  forall r, r ∈ tracked_resources (fst f) -> r ∉ live (fst (rebuild_start i f)).
Proof.
  intros T Hm Hi r _.
  destruct (rebuild_steps i f T Hm Hi) as ((_ & Hl & _) & _).
  rewrite Hl. apply not_elem_of_empty.
Qed.

Lemma sample_pair_valid : valid_pair sample_pair.
Proof. unfold valid_pair. simpl. repeat split; (discriminate || lia). Qed.

Lemma other_pair_valid : valid_pair other_pair.
Proof. unfold valid_pair. simpl. repeat split; (discriminate || lia). Qed.

(** Remark.  That the rebuilds come one after the other matters.  When
    the loads of two rebuilds overlap, both then handlers attach their
    mesh, with no [cleanupScene] between them: the scene holds two meshes
    and eight live resources, [meshRef] points to the later mesh only, and
    [cleanupScene] leaves the earlier one in the scene. *)
Lemma overlapping_loads_keep_both_meshes :
  scene_meshes overlapped = [4%nat; 9%nat] /\
  meshRef overlapped = Some 9%nat /\
  gpu_count overlapped = 8%nat /\
  scene_meshes (cleanupScene overlapped) = [4%nat] /\
  gpu_count (cleanupScene overlapped) = 4%nat.
Proof. vm_compute. repeat split; reflexivity. Qed.

(** A resize leaves the mesh, the scene and the GPU resources alone. *)
Lemma handleResize_keeps_mesh s :
  meshRef (handleResize s) = meshRef s /\ sceneRef (handleResize s) = sceneRef s /\
  heap (handleResize s) = heap s /\ live (handleResize s) = live s.
Proof.
  unfold handleResize.
  destruct (rendererRef s), (cameraRef s), (mountRef s); repeat split.
Qed.

(** ** The mesh geometry *)





(** ** Load failure *)

(** C3, as stated, fails: the mesh that was in the scene before the failed
    load is no longer there after it. *)
Lemma load_failure_drops_prior_mesh :
  scene_meshes (fst showing) = [4%nat] /\
  meshRef (fst showing) = Some 4%nat /\
  scene_meshes failed_reload = [] /\
  meshRef failed_reload = None /\
  size (live failed_reload) = 0%nat.
Proof. vm_compute. repeat split; reflexivity. Qed.

(** ** Video export *)

Lemma cleanupScene_capture s : capture_state (cleanupScene s) = capture_state s.
Proof.
  destruct (meshRef s) as [m|] eqn:Hm; [|now rewrite cleanupScene_noop by auto].
  destruct (sceneRef s) as [sc|] eqn:Hs; [|now rewrite cleanupScene_noop by auto].
  now rewrite (cleanupScene_unfold s m sc Hm Hs).
Qed.

(** Neither the effect body nor its cleanup knows about the recorder. *)
Lemma useEffect_body_capture o d s :
  capture_state (fst (useEffect_body o d s)) = capture_state s.
Proof.
  unfold useEffect_body.
  destruct (mountRef s) as [el|]; [|reflexivity].
  destruct (negb (truthy o) || negb (truthy d)); [apply cleanupScene_capture|].
  cbv zeta.
  set (sA := match rendererRef _ with Some _ => _ | None => _ end).
  assert (HA : capture_state sA = capture_state s).
  { subst sA. simpl. now destruct (rendererRef s). }
  rewrite <- HA, <- (cleanupScene_capture sA).
  now destruct (animate (cleanupScene sA)).
Qed.

Lemma run_cleanup_capture f : capture_state (run_cleanup f) = capture_state (fst f).
Proof. unfold run_cleanup. now destruct (snd f). Qed.

Lemma rerender_capture o d f :
  capture_state (fst (rerender o d f)) = capture_state (fst f).
Proof. unfold rerender. now rewrite useEffect_body_capture, run_cleanup_capture. Qed.

Lemma unmount_capture f : capture_state (unmount f) = capture_state (fst f).
Proof. unfold unmount. now rewrite <- run_cleanup_capture. Qed.

Lemma rotate_mesh_yaw v s m :
  meshRef s = Some m -> is_Some (heap s !! m) -> yaw (rotate_mesh v s) m = Some v.
Proof.
  intros Hm [mesh Hh]. unfold yaw, rotate_mesh. rewrite Hm. simpl.
  rewrite lookup_alter_eq, Hh. reflexivity.
Qed.

Lemma rotate_mesh_frame v s :
  capture_state (rotate_mesh v s) = capture_state s /\
  meshRef (rotate_mesh v s) = meshRef s.
Proof. unfold rotate_mesh. destruct (meshRef s) eqn:E; split; simpl; auto. Qed.


(** A tick before the duration has passed. *)
Lemma animateRecording_early c now s r :
  recorderRef s = Some r -> is_recording r = true ->
  now - startTime c < duration ->
  animateRecording c now s =
  (rotate_mesh (initialRotationY c
                + (inject_Z (now - startTime c) / inject_Z duration) * Math_PI * 2)%Q s,
   true).
Proof.
  intros Hr Hrec Ht. unfold animateRecording. rewrite Hr, Hrec. simpl.
  destruct (Z.ltb_spec (now - startTime c) duration); [reflexivity|lia].
Qed.

(** A tick at or past the duration. *)
Lemma animateRecording_late c now s r :
  recorderRef s = Some r -> is_recording r = true ->
  duration <= now - startTime c ->
  animateRecording c now s =
  (rotate_mesh (initialRotationY c)
     (set_pending_stops (S (pending_stops s))
        (set_recorderRef (Some {| rtc_state := Rstopped |}) s)),
   false).
Proof.
  intros Hr Hrec Ht. unfold animateRecording, stopRecordingAndDownload.
  rewrite Hr, Hrec. simpl.
  destruct (Z.ltb_spec (now - startTime c) duration); [lia|reflexivity].
Qed.

(** A tick that finds the recorder stopped, or none, does nothing. *)
Lemma animateRecording_idle c now s :
  match recorderRef s with
  | Some r => is_recording r = false
  | None => True
  end ->
  animateRecording c now s = (s, false).
Proof.
  unfold animateRecording. destruct (recorderRef s) as [r|]; [|reflexivity].
  now intros ->.
Qed.

(** C4.  While the recorder records, a tick at clock reading [now], with
    [elapsed = now - startTime]: before the duration of 5000 ms it sets the
    mesh's yaw to [initial + (elapsed / duration) * Math.PI * 2] -- a share
    of one full turn, the whole of it at [elapsed = duration] -- and asks
    for another frame; at or past the duration it asks for none, leaves
    the yaw at its initial value, and any later tick changes nothing. *)
Theorem recording_tick (c : RecordingClosure) (now : Z) (s : State)
    (r : RecordRTC) (m : nat) :
  recorderRef s = Some r -> is_recording r = true ->
  meshRef s = Some m -> is_Some (heap s !! m) ->
  let elapsed := now - startTime c in
  let s' := fst (animateRecording c now s) in
  let again := snd (animateRecording c now s) in
  duration = 5000 /\
  (elapsed < duration ->
   again = true /\
   yaw s' m = Some (initialRotationY c
                    + (inject_Z elapsed / inject_Z duration) * Math_PI * 2)%Q /\
   (initialRotationY c + (inject_Z elapsed / inject_Z duration) * Math_PI * 2
    == initialRotationY c + (inject_Z elapsed / inject_Z duration) * (2 * Math_PI))%Q) /\
  ((inject_Z duration / inject_Z duration) * Math_PI * 2 == 2 * Math_PI)%Q /\
  (duration <= elapsed ->
   again = false /\
   yaw s' m = Some (initialRotationY c) /\
   forall later, animateRecording c later s' = (s', false)).
Proof.
  intros Hr Hrec Hm Hh. cbv zeta.
  split; [reflexivity|]. split; [|split].
  - intros Ht. rewrite (animateRecording_early c now s r Hr Hrec Ht). cbn [fst snd].
    split; [reflexivity|]. split; [apply rotate_mesh_yaw; assumption|]. ring.
  - reflexivity.
  - intros Ht. rewrite (animateRecording_late c now s r Hr Hrec Ht). cbn [fst snd].
    split; [reflexivity|]. split.
    + apply rotate_mesh_yaw; assumption.
    + intros later. apply animateRecording_idle.
      destruct (rotate_mesh_frame (initialRotationY c)
                  (set_pending_stops (S (pending_stops s))
                     (set_recorderRef (Some {| rtc_state := Rstopped |}) s))) as (Hc & _).
      unfold capture_state in Hc. injection Hc as -> _ _ _. reflexivity.
Qed.








Lemma export_begun_eq :
  snd (fst export_begun) = Some export_closure /\ snd export_begun = true /\
  recorderRef (fst (fst export_begun)) = Some {| rtc_state := Rrecording |} /\
  meshRef (fst (fst export_begun)) = Some 4%nat.
Proof. vm_compute. repeat split; reflexivity. Qed.

Lemma recording_tick_witness :
  yaw (fst (animateRecording export_closure 1250 (fst (fst export_begun)))) 4
  = Some (0 + (inject_Z (1250 - 0) / inject_Z duration) * Math_PI * 2)%Q /\
  snd (animateRecording export_closure 1250 (fst (fst export_begun))) = true.
Proof.
  destruct (recording_tick export_closure 1250 (fst (fst export_begun))
              {| rtc_state := Rrecording |} 4) as (_ & H & _).
  - apply export_begun_eq.
  - reflexivity.
  - apply export_begun_eq.
  - vm_compute. eexists. reflexivity.
  - destruct H as (H1 & H2 & _); [vm_compute; reflexivity|]. split; assumption.
Defined.


(** ** Interrupted exports *)

Lemma late_tick_finalizes c t s :
  capturing s -> duration <= t - startTime c ->
  exists s3,
    recorder_onstop (fst (animateRecording c t s)) = Some s3 /\
    log s3 = log s ++ [GetBlob; Download "depthvision_animation.webm";
                       ExportLoadingChange false] /\
    recorderRef s3 = None /\ isRecording s3 = false.
Proof.
  intros (Hr & Hp) Ht.
  rewrite (animateRecording_late c t s _ Hr eq_refl Ht). cbn [fst].
  set (s1 := set_pending_stops _ _).
  destruct (rotate_mesh_frame (initialRotationY c) s1) as (Hc & _).
  unfold capture_state in Hc. injection Hc as Hc1 Hc2 Hc3 Hc4.
  unfold recorder_onstop, stop_callback. rewrite Hc2. subst s1. simpl.
  simpl in Hc1. rewrite Hc1. eexists. split; [reflexivity|]. simpl.
  simpl in Hc4. rewrite Hc4, <- !app_assoc. repeat split.
Qed.

(** C6, as stated, fails.  After an unmount, and after a change of the
    inputs, in the middle of an export the recorder is still recording and
    no export-finished signal has been given; the tick at the end of the
    duration then stops it as usual and the callback triggers the
    download. *)
Lemma interrupted_export_still_downloads :
  recorderRef unmounted_mid_export = Some {| rtc_state := Rrecording |} /\
  log unmounted_mid_export = [ExportLoadingChange true] /\
  (log <$> recorder_onstop (fst (animateRecording export_closure 5000 unmounted_mid_export)))
  = Some [ExportLoadingChange true; GetBlob; Download "depthvision_animation.webm";
          ExportLoadingChange false] /\
  recorderRef changed_mid_export = Some {| rtc_state := Rrecording |} /\
  log changed_mid_export = [ExportLoadingChange true] /\
  (log <$> recorder_onstop (fst (animateRecording export_closure 5000 changed_mid_export)))
  = Some [ExportLoadingChange true; GetBlob; Download "depthvision_animation.webm";
          ExportLoadingChange false].
Proof. vm_compute. repeat split; reflexivity. Qed.

(** C6, amended.  A change of the inputs or an unmount in the middle of a
    recording does not tear the Capture Session down: recorder, owed
    callbacks, recording flag and the signals given so far are as before,
    so nothing is finished at that point.  The session ends as any other:
    the first tick at or past the duration stops the recorder, and its
    callback triggers the download and gives the export-finished signal. *)
Theorem interruption_keeps_session (o d : option string) (flag : bool) (s : State)
    (c : RecordingClosure) (t : Z) :
  capturing s -> duration <= t - startTime c ->
  let changed := fst (rerender o d (s, flag)) in
  let gone := unmount (s, flag) in
  capture_state changed = capture_state s /\
  capture_state gone = capture_state s /\
  forall s', s' = changed \/ s' = gone ->
    exists s3,
      recorder_onstop (fst (animateRecording c t s')) = Some s3 /\
      log s3 = log s ++ [GetBlob; Download "depthvision_animation.webm";
                         ExportLoadingChange false] /\
      recorderRef s3 = None /\ isRecording s3 = false.
Proof.
  intros Hcap Ht. cbv zeta.
  pose proof (rerender_capture o d (s, flag)) as H1.
  pose proof (unmount_capture (s, flag)) as H2. cbn [fst] in H1, H2.
  split; [exact H1|]. split; [exact H2|].
  intros s' Hs'.
  assert (Hc : capture_state s' = capture_state s) by (destruct Hs' as [->| ->]; assumption).
  unfold capture_state in Hc. injection Hc as Hc1 Hc2 Hc3 Hc4.
  destruct (late_tick_finalizes c t s') as (s3 & E & L & R).
  - destruct Hcap as (Hr & Hp). split; congruence.
  - exact Ht.
  - exists s3. split; [exact E|]. split; [congruence|exact R].
Qed.

Lemma interruption_keeps_session_witness :
  capture_state unmounted_mid_export = capture_state (fst (fst export_begun)) /\
  capture_state changed_mid_export = capture_state (fst (fst export_begun)).
Proof.
  destruct (interruption_keeps_session (Some (originalImageUri other_pair))
              (Some (depthMapUri other_pair)) (snd showing) (fst (fst export_begun))
              export_closure 5000) as (H1 & H2 & _).
  - split; [apply export_begun_eq|reflexivity].
  - vm_compute. discriminate.
  - split; [exact H2|exact H1].
Defined.

(** ** Unmount *)

(** C7 at work: the component showing [sample_pair] is unmounted.  The
    resize listener is gone, but the renderer and the controls are still
    referenced and not disposed, the mesh is still in the scene with its
    four resources live, and the render loop still asks for frames. *)
Lemma unmount_releases_nothing :
  resize_listeners (unmount showing) = 0%nat /\
  (renderer_disposed <$> rendererRef (unmount showing)) = Some false /\
  (controls_disposed <$> controlsRef (unmount showing)) = Some false /\
  meshRef (unmount showing) = Some 4%nat /\
  scene_meshes (unmount showing) = [4%nat] /\
  gpu_count (unmount showing) = 4%nat /\
  animate (unmount showing) = true /\
  animate_loops (animate_frame (unmount showing)) = 1%nat.
Proof. vm_compute. repeat split; reflexivity. Qed.

(** ** The Camera Controller *)

Module OrbitFacts.

Import Lra Orbit.

Local Open Scope R_scope.

Lemma vector_eq (a b : Vector3) : x a = x b -> y a = y b -> z a = z b -> a = b.
Proof. destruct a, b. simpl. now intros -> -> ->. Qed.

Lemma length_nonneg v : 0 <= length v.
Proof. apply sqrt_pos. Qed.

Lemma sum_squares_nonneg a b c : 0 <= a * a + b * b + c * c.
Proof. nra. Qed.

Lemma length_zero v : length v = 0 -> v = origin.
Proof.
  unfold length. intros H. apply sqrt_eq_0 in H; [|apply sum_squares_nonneg].
  apply vector_eq; simpl; nra.
Qed.

Lemma length_multiplyScalar k v : 0 <= k -> length (multiplyScalar k v) = length v * k.
Proof.
  intros Hk. unfold length, multiplyScalar. simpl.
  replace (x v * k * (x v * k) + y v * k * (y v * k) + z v * k * (z v * k))
    with ((x v * x v + y v * y v + z v * z v) * (k * k)) by ring.
  rewrite sqrt_mult; [|apply sum_squares_nonneg|nra].
  now rewrite sqrt_square.
Qed.

Lemma sub_add t o : sub (add t o) t = o.
Proof. apply vector_eq; simpl; ring. Qed.

Lemma sub_origin p : sub p origin = p.
Proof. apply vector_eq; simpl; ring. Qed.

(** With the default limits the clamp lets every distance through. *)
Lemma clampDistance_default c dist :
  minDistance c = 0 -> maxDistance c = None -> 0 <= dist -> clampDistance c dist = dist.
Proof.
  intros Hmin Hmax Hd. unfold clampDistance. rewrite Hmin, Hmax.
  now apply Rmax_right.
Qed.

Lemma ratio_nonneg r s : 0 <= r -> 0 <= s -> 0 <= r * s / r.
Proof.
  intros Hr Hs. destruct (Req_dec r 0) as [->|Hne].
  - unfold Rdiv. rewrite !Rmult_0_l. lra.
  - unfold Rdiv. apply Rmult_le_pos; [nra|]. left. apply Rinv_0_lt_compat. lra.
Qed.

(** [update] with default limits: same target, same direction, the
    distance multiplied by the pending scale. *)
Lemma update_default p c :
  minDistance c = 0 -> maxDistance c = None -> 0 <= scale c ->
  let v' := update {| cameraRef := Some p; controlsRef := Some c |} in
  controlsRef v' = Some (with_scale 1 c) /\
  (exists p', cameraRef v' = Some p') /\
  distance v' = distance {| cameraRef := Some p; controlsRef := Some c |} * scale c /\
  (scale c = 1 -> cameraRef v' = Some p).
Proof.
  intros Hmin Hmax Hs. unfold update, distance. simpl.
  set (o := sub p (target c)). set (r := length o).
  assert (Hr : 0 <= r) by apply length_nonneg.
  rewrite (clampDistance_default c (r * scale c) Hmin Hmax) by nra.
  split; [reflexivity|]. split; [eauto|]. split.
  - rewrite sub_add, length_multiplyScalar by now apply ratio_nonneg.
    fold r. destruct (Req_dec r 0) as [E|Hne].
    + rewrite E. unfold Rdiv. ring.
    + field. exact Hne.
  - intros E. f_equal. rewrite E, Rmult_1_r.
    destruct (Req_dec r 0) as [E0|Hne].
    + apply length_zero in E0. apply vector_eq; simpl;
        [assert (H : x o = 0) by now rewrite E0
        |assert (H : y o = 0) by now rewrite E0
        |assert (H : z o = 0) by now rewrite E0]; subst o; simpl in H; nra.
    + apply vector_eq; simpl; field; exact Hne.
Qed.

(** At rest, with default limits, [update] moves nothing. *)
Lemma update_rest p c :
  minDistance c = 0 -> maxDistance c = None -> scale c = 1 ->
  update {| cameraRef := Some p; controlsRef := Some c |} =
  {| cameraRef := Some p; controlsRef := Some (with_scale 1 c) |}.
Proof.
  intros Hmin Hmax Hs.
  destruct (update_default p c) as (Hc & _ & _ & Hp); [exact Hmin|exact Hmax|lra|].
  specialize (Hp Hs).
  destruct (update _) as [cam ctl]. simpl in Hc, Hp. congruence.
Qed.

(** [setPresetView] in one step. *)
Lemma setPresetView_unfold preset p c :
  unconfigured c ->
  setPresetView preset {| cameraRef := Some p; controlsRef := Some c |} =
  {| cameraRef := Some (preset_position preset (preset_distance (length p)));
     controlsRef := Some (with_scale 1 (with_target origin c)) |}.
Proof.
  intros (Ht0 & Hmin & Hmax & Hs).
  unfold setPresetView, controls_reset. cbn [cameraRef controlsRef].
  rewrite (update_rest (position0 c) (with_target (target0 c) c) Hmin Hmax Hs).
  cbn [controlsRef]. fold (preset_distance (length p)).
  rewrite update_rest by (simpl; auto). rewrite Ht0. reflexivity.
Qed.

Lemma length_axis d : 0 <= d -> sqrt (0 * 0 + 0 * 0 + d * d) = d.
Proof. intros H. replace (0 * 0 + 0 * 0 + d * d) with (d * d) by ring. now apply sqrt_square. Qed.

Lemma length_preset preset d :
  0 <= d -> preset <> top -> length (preset_position preset d) = d.
Proof.
  intros Hd Hp. unfold length.
  destruct preset; simpl; try contradiction.
  - now apply length_axis.
  - replace (d * d + 0 * 0 + 0 * 0) with (d * d) by ring. now apply sqrt_square.
  - replace (- d * - d + 0 * 0 + 0 * 0) with (d * d) by ring. now apply sqrt_square.
  - now apply length_axis.
Qed.

Lemma new_OrbitControls_unconfigured p : unconfigured (new_OrbitControls p).
Proof. repeat split. Qed.

(** C8, as stated, fails.  From an orbit distance of 0.05 the preset
    [front] puts the camera at (0, 0, 1.5), not at (0, 0, 0.05), and the
    orbit distance becomes 1.5; and from the distance 1.5 the preset [top]
    puts the camera at (0, 1.5, 0.001), farther than 1.5 from the
    target. *)
Lemma preset_changes_distance :
  distance close_view = 1 / 20 /\
  cameraRef (setPresetView front close_view) = Some {| x := 0; y := 0; z := 3 / 2 |} /\
  distance (setPresetView front close_view) = 3 / 2 /\
  distance init_view = 3 / 2 /\
  cameraRef (setPresetView top init_view) = Some {| x := 0; y := 3 / 2; z := 1 / 1000 |} /\
  3 / 2 < distance (setPresetView top init_view).
Proof.
  assert (Hclose : length {| x := 0; y := 0; z := 1 / 20 |} = 1 / 20)
    by (unfold length; simpl; apply length_axis; lra).
  assert (Hinit : length {| x := 0; y := 0; z := 3 / 2 |} = 3 / 2)
    by (unfold length; simpl; apply length_axis; lra).
  unfold close_view, init_view.
  rewrite !setPresetView_unfold by apply new_OrbitControls_unconfigured.
  unfold distance. simpl. rewrite !sub_origin, Hclose, Hinit.
  unfold preset_distance.
  destruct (Rlt_dec (1 / 10) (1 / 20)) as [H|_]; [lra|].
  destruct (Rlt_dec (1 / 10) (3 / 2)) as [_|H]; [|lra].
  repeat split; try reflexivity.
  - exact Hinit.
  - unfold length. simpl. rewrite <- (sqrt_square (3 / 2)) at 1 by lra.
    apply sqrt_lt_1_alt. lra.
Qed.

(** C8, amended.  With [d] the length of the camera's position (its
    distance from the origin, which is the orbit distance when the target
    is the origin): when [d > 0.1] the presets put the camera at
    (0, d, 0.001) for [top], (0, 0, d) for [front] and [reset], (d, 0, 0)
    and (-d, 0, 0) for [sideR] and [sideL]; when [d <= 0.1] they use 1.5
    in place of [d].  Every preset puts the orbit target at the origin.
    For [d > 0.1] the orbit distance after a preset other than [top] is
    [d] again; after [top] it is the square root of
    [d * d + 0.001 * 0.001]. *)
Theorem preset_views (preset : Preset) (v : View) (p : Vector3) (c : OrbitControls) :
  cameraRef v = Some p -> controlsRef v = Some c -> unconfigured c ->
  let d := length p in
  let v' := setPresetView preset v in
  (1 / 10 < d -> cameraRef v' = Some (preset_position preset d)) /\
  (d <= 1 / 10 -> cameraRef v' = Some (preset_position preset (3 / 2))) /\
  (target <$> controlsRef v') = Some origin /\
  (1 / 10 < d -> preset <> top -> distance v' = d) /\
  (1 / 10 < d -> preset = top ->
   distance v' = sqrt (d * d + 1 / 1000 * (1 / 1000))).
Proof.
  intros Hp Hc Hu. destruct v as [cam ctl]. simpl in Hp, Hc. subst cam ctl.
  cbv zeta. rewrite (setPresetView_unfold preset p c Hu).
  unfold distance, preset_distance. cbn [cameraRef controlsRef fmap option_fmap option_map
    with_scale with_target target]. rewrite sub_origin.
  split; [|split; [|split; [|split]]].
  - intros H. destruct (Rlt_dec (1 / 10) (length p)); [reflexivity|lra].
  - intros H. destruct (Rlt_dec (1 / 10) (length p)); [lra|reflexivity].
  - reflexivity.
  - intros H Hne. destruct (Rlt_dec (1 / 10) (length p)); [|lra].
    apply length_preset; [lra|exact Hne].
  - intros H ->. destruct (Rlt_dec (1 / 10) (length p)); [|lra].
    unfold length at 1. simpl. f_equal. ring.
Qed.

Lemma preset_views_witness :
  cameraRef (setPresetView sideL init_view) = Some {| x := - (3 / 2); y := 0; z := 0 |} /\
  (target <$> controlsRef (setPresetView sideL init_view)) = Some origin /\
  distance (setPresetView sideL init_view) = 3 / 2.
Proof.
  assert (Hinit : length {| x := 0; y := 0; z := 3 / 2 |} = 3 / 2)
    by (unfold length; simpl; apply length_axis; lra).
  destruct (preset_views sideL init_view {| x := 0; y := 0; z := 3 / 2 |}
              (new_OrbitControls {| x := 0; y := 0; z := 3 / 2 |}))
    as (H1 & _ & H3 & H4 & _).
  - reflexivity.
  - reflexivity.
  - apply new_OrbitControls_unconfigured.
  - rewrite Hinit in H1, H4. split; [|split].
    + rewrite H1 by lra. reflexivity.
    + exact H3.
    + apply H4; [lra|discriminate].
Defined.

(** ** Zoom *)

(** One [handleZoom]: the orbit distance is divided by the factor, the
    target and the limits stay, no dolly is left pending. *)
Lemma handleZoom_distance factor v :
  0 < factor -> at_rest v ->
  at_rest (handleZoom factor v) /\
  distance (handleZoom factor v) = distance v / factor /\
  (target <$> controlsRef (handleZoom factor v)) = (target <$> controlsRef v).
Proof.
  intros Hf (p & c & Hp & Hc & Hmin & Hmax & Hs).
  destruct v as [cam ctl]. simpl in Hp, Hc. subst cam ctl.
  unfold handleZoom. cbn [cameraRef controlsRef].
  assert (Hpos : 0 <= scale (dollyOut factor c)).
  { simpl. rewrite Hs. unfold Rdiv. rewrite Rmult_1_l. left.
    now apply Rinv_0_lt_compat. }
  destruct (update_default p (dollyOut factor c) Hmin Hmax Hpos)
    as (Uc & (p' & Up) & Ud & _).
  split; [|split].
  - exists p', (with_scale 1 (dollyOut factor c)). repeat split; assumption.
  - rewrite Ud. unfold distance. simpl. rewrite Hs. unfold Rdiv. ring.
  - rewrite Uc. reflexivity.
Qed.

Lemma zoom_iter factor k v :
  0 < factor -> at_rest v ->
  at_rest (Nat.iter k (handleZoom factor) v) /\
  distance (Nat.iter k (handleZoom factor) v) = distance v / factor ^ k.
Proof.
  intros Hf Hv. induction k as [|k (IH1 & IH2)]; simpl.
  - split; [exact Hv|]. unfold Rdiv. rewrite Rinv_1. ring.
  - destruct (handleZoom_distance factor _ Hf IH1) as (H1 & H2 & _).
    split; [exact H1|]. rewrite H2, IH2. field.
    split; [apply pow_nonzero|]; lra.
Qed.

Lemma init_view_at_rest : at_rest init_view.
Proof. do 2 eexists. repeat split. Qed.

Lemma init_view_distance : distance init_view = 3 / 2.
Proof.
  unfold distance. simpl. rewrite sub_origin. unfold length. simpl.
  apply length_axis. lra.
Qed.

(** Fifteen zoom-ins from the initial view bring the camera closer to the
    target than 0.1, into the range where the presets stop using the
    current distance. *)
Lemma zoom_in_gets_close : distance (Nat.iter 15 zoomIn init_view) < 1 / 10.
Proof.
  unfold zoomIn.
  destruct (zoom_iter (12 / 10) 15 init_view) as (_ & H);
    [lra|apply init_view_at_rest|].
  rewrite H, init_view_distance.
  apply Rmult_lt_reg_r with ((12 / 10) ^ 15); [apply pow_lt; lra|].
  unfold Rdiv at 1. rewrite Rmult_assoc, Rinv_l by (apply pow_nonzero; lra).
  simpl. lra.
Qed.

(** C9, as stated, fails: starting at the distance 1.5, one zoom-in
    followed by one zoom-out ends at 1.5625, not back at 1.5. *)
Lemma zoom_in_out_not_inverse :
  distance init_view = 3 / 2 /\
  distance (zoomOut (zoomIn init_view)) = 25 / 16 /\
  distance (zoomOut (zoomIn init_view)) <> distance init_view.
Proof.
  assert (H : distance (zoomOut (zoomIn init_view)) = 25 / 16).
  { unfold zoomIn, zoomOut.
    destruct (handleZoom_distance (12 / 10) init_view) as (H1 & H2 & _);
      [lra|apply init_view_at_rest|].
    destruct (handleZoom_distance (8 / 10) _ ltac:(lra) H1) as (_ & H3 & _).
    rewrite H3, H2, init_view_distance. field. }
  rewrite H, init_view_distance. repeat split; lra.
Qed.

(** C9, amended.  From a positive orbit distance [d], [k] zoom-ins bring
    the distance to [d / 1.2 ^ k] and [k] zoom-outs to [d / 0.8 ^ k]; each
    zoom-in makes the distance strictly smaller and each zoom-out strictly
    larger.  No limit stops either: the controls keep three.js's default
    limits 0 and Infinity, and the distance stays positive however often
    one zooms in.  Zoom-in and zoom-out are not inverses: one after the
    other, in either order, multiplies the distance by 25/24. *)
Theorem zoom_scales_distance (v : View) (k : nat) :
  at_rest v -> 0 < distance v ->
  let d := distance v in
  distance (Nat.iter k zoomIn v) = d / (12 / 10) ^ k /\
  0 < distance (Nat.iter (S k) zoomIn v) < distance (Nat.iter k zoomIn v) /\
  distance (Nat.iter k zoomOut v) = d / (8 / 10) ^ k /\
  distance (Nat.iter k zoomOut v) < distance (Nat.iter (S k) zoomOut v) /\
  at_rest (Nat.iter k zoomIn v) /\ at_rest (Nat.iter k zoomOut v) /\
  distance (zoomOut (zoomIn v)) = d * (25 / 24) /\
  distance (zoomIn (zoomOut v)) = d * (25 / 24).
Proof.
  intros Hv Hd. cbv zeta. unfold zoomIn, zoomOut.
  destruct (zoom_iter (12 / 10) k v ltac:(lra) Hv) as (I1 & I2).
  destruct (zoom_iter (8 / 10) k v ltac:(lra) Hv) as (O1 & O2).
  destruct (handleZoom_distance (12 / 10) _ ltac:(lra) I1) as (_ & I3 & _).
  destruct (handleZoom_distance (8 / 10) _ ltac:(lra) O1) as (_ & O3 & _).
  destruct (handleZoom_distance (12 / 10) v ltac:(lra) Hv) as (A1 & A2 & _).
  destruct (handleZoom_distance (8 / 10) v ltac:(lra) Hv) as (B1 & B2 & _).
  destruct (handleZoom_distance (8 / 10) _ ltac:(lra) A1) as (_ & A3 & _).
  destruct (handleZoom_distance (12 / 10) _ ltac:(lra) B1) as (_ & B3 & _).
  assert (Pin : 0 < (12 / 10) ^ k) by (apply pow_lt; lra).
  assert (Pout : 0 < (8 / 10) ^ k) by (apply pow_lt; lra).
  assert (Din : 0 < distance v / (12 / 10) ^ k) by (apply Rdiv_lt_0_compat; lra).
  assert (Dout : 0 < distance v / (8 / 10) ^ k) by (apply Rdiv_lt_0_compat; lra).
  repeat split; try assumption.
  - simpl. rewrite I3, I2. set (X := distance v / (12 / 10) ^ k) in *. lra.
  - simpl. rewrite I3, I2. set (X := distance v / (12 / 10) ^ k) in *. lra.
  - simpl. rewrite O3, O2. set (X := distance v / (8 / 10) ^ k) in *. lra.
  - rewrite A3, A2. field.
  - rewrite B3, B2. field.
Qed.

Lemma zoom_scales_distance_witness :
  distance (Nat.iter 2 zoomIn init_view) = 3 / 2 / (12 / 10) ^ 2 /\
  distance (zoomOut (zoomIn init_view)) = 3 / 2 * (25 / 24).
Proof.
  destruct (zoom_scales_distance init_view 2) as (H1 & _ & _ & _ & _ & _ & H2 & _).
  - apply init_view_at_rest.
  - rewrite init_view_distance. lra.
  - rewrite init_view_distance in H1, H2. split; assumption.
Defined.

End OrbitFacts.

(** * The component in its host: what holds whatever happens *)

(** ** Exports *)

Lemma busy_signals_app b l1 l2 :
  busy_signals b (l1 ++ l2) = (busy_signals b l1 + busy_signals b l2)%nat.
Proof. unfold busy_signals. now rewrite List.filter_app, length_app. Qed.

Lemma blobs_app l1 l2 : blobs (l1 ++ l2) = (blobs l1 + blobs l2)%nat.
Proof. unfold blobs. now rewrite List.filter_app, length_app. Qed.

Lemma video_downloads_app l1 l2 :
  video_downloads (l1 ++ l2) = (video_downloads l1 + video_downloads l2)%nat.
Proof. unfold video_downloads. now rewrite List.filter_app, length_app. Qed.

Ltac count_log :=
  rewrite !busy_signals_app, !blobs_app, !video_downloads_app;
  change (busy_signals true [ExportLoadingChange true]) with 1%nat;
  change (busy_signals false [ExportLoadingChange true]) with 0%nat;
  change (blobs [ExportLoadingChange true]) with 0%nat;
  change (video_downloads [ExportLoadingChange true]) with 0%nat.

Lemma capture_export_view s s' :
  capture_state s' = capture_state s -> export_view s' = export_view s.
Proof.
  unfold capture_state, export_view. intros H. injection H as -> -> -> ->. reflexivity.
Qed.

Lemma load_catch_export_view s : export_view (load_catch s) = export_view s.
Proof.
  unfold export_view, load_catch, emit, busy_signals, blobs, video_downloads. simpl.
  rewrite !List.filter_app, !length_app. simpl. now rewrite !Nat.add_0_r.
Qed.

Lemma load_resolved_export_view cw ch dw dh s :
  export_view (load_resolved cw ch dw dh s) = export_view s.
Proof.
  unfold load_resolved, new_Texture, load_then, alloc, new_Mesh. simpl.
  destruct (sceneRef s); [reflexivity|].
  rewrite load_catch_export_view. reflexivity.
Qed.

Lemma exportAsImage_export_view s : export_view (exportAsImage s) = export_view s.
Proof.
  unfold exportAsImage. destruct (rendererRef s); [|reflexivity].
  unfold export_view, emit, busy_signals, blobs, video_downloads. simpl.
  rewrite !List.filter_app, !length_app. simpl. now rewrite !Nat.add_0_r.
Qed.

Lemma window_resize_capture w h s :
  capture_state (window_resize w h s) = capture_state s.
Proof.
  unfold window_resize, handleResize. simpl.
  destruct (resize_listeners s); [reflexivity|].
  destruct (rendererRef s), (cameraRef s), (mountRef s); reflexivity.
Qed.

Lemma animate_frames_capture n s :
  capture_state (Nat.iter n animate_frame s) = capture_state s.
Proof.
  induction n as [|n IH]; [reflexivity|]. simpl. rewrite <- IH.
  unfold animate_frame.
  destruct (animate_loops _); [reflexivity|]. now destruct (animate _).
Qed.

Lemma export_ok_at_view s s' waiting :
  export_view s' = export_view s -> export_ok_at s waiting -> export_ok_at s' waiting.
Proof.
  unfold export_view, export_ok_at. intros H.
  injection H as -> -> -> -> -> -> ->. auto.
Qed.

(** The frame callbacks of a sound export leave it sound. *)
Lemma run_rec_frames_export_ok now s waiting :
  export_ok_at s waiting ->
  export_ok_at (fst (run_rec_frames now waiting s)) (snd (run_rec_frames now waiting s)).
Proof.
  intros (Hrec & Hb & Hg & Hd).
  destruct (isRecording s) eqn:Hi.
  - destruct Hrec as [(Hr & Hp & k & ->)|(Hr & Hp & ->)].
    + simpl. destruct (Z.lt_ge_cases (now - startTime k) duration) as [Ht|Ht].
      * rewrite (animateRecording_early k now s _ Hr eq_refl Ht). simpl.
        destruct (rotate_mesh_frame
                    (initialRotationY k
                     + inject_Z (now - startTime k) / inject_Z duration * Math_PI * 2)%Q s)
          as (Hc & _).
        apply (export_ok_at_view s); [now apply capture_export_view|].
        unfold export_ok_at. rewrite Hi. repeat split; eauto.
      * rewrite (animateRecording_late k now s _ Hr eq_refl Ht). simpl.
        set (s1 := set_pending_stops _ _).
        destruct (rotate_mesh_frame (initialRotationY k) s1) as (Hc & _).
        apply (export_ok_at_view s1); [now apply capture_export_view|].
        unfold export_ok_at. subst s1. simpl. rewrite Hi, Hp.
        repeat split; auto.
    + simpl. unfold export_ok_at. rewrite Hi. repeat split; auto.
  - destruct Hrec as (Hr & Hp & ->). simpl.
    unfold export_ok_at. rewrite Hi. repeat split; auto.
Qed.

(** [startRecording] on an idle component. *)
Lemma startRecording_export_ok t0 t1 s :
  export_ok_at s [] -> isRecording s = false ->
  let '(s', cl, again) := startRecording t0 t1 s in
  export_ok_at s' (match cl with
                   | Some k => if again then [k] else []
                   | None => []
                   end).
Proof.
  intros H Hi. unfold startRecording.
  destruct (rendererRef s); [|exact H].
  destruct (sceneRef s); [|exact H].
  destruct (cameraRef s); [|exact H].
  cbv zeta. fold (recording_armed s).
  set (k := {| initialRotationY := _; startTime := t0 |}).
  assert (Harm : export_ok_at (recording_armed s) [k]).
  { destruct H as (Hrec & Hb & Hg & Hd). rewrite Hi in Hb, Hrec.
    destruct Hrec as (_ & Hp & _).
    unfold export_ok_at, recording_armed, emit. simpl. count_log.
    split; [left; repeat split; eauto|]. repeat split; lia. }
  pose proof (run_rec_frames_export_ok t1 _ _ Harm) as Hrun. simpl in Hrun.
  destruct (animateRecording k t1 (recording_armed s)) as [s' again]. simpl in Hrun.
  destruct again; exact Hrun.
Qed.

(** The stop callback of a sound export finds its recorder. *)
Lemma recorder_onstop_export_ok s waiting :
  export_ok_at s waiting ->
  exists s', recorder_onstop s = Some s' /\ export_ok_at s' waiting.
Proof.
  intros H. pose proof H as (Hrec & Hb & Hg & Hd).
  unfold recorder_onstop.
  destruct (pending_stops s) as [|n] eqn:Hp; [eauto|].
  destruct (isRecording s) eqn:Hi.
  - destruct Hrec as [(_ & Hp' & _)|(Hr & Hp' & ->)]; [congruence|].
    injection Hp' as ->. unfold stop_callback. simpl. rewrite Hr.
    eexists. split; [reflexivity|].
    unfold export_ok_at, emit. simpl.
    rewrite <- !app_assoc. simpl.
    rewrite !busy_signals_app, !blobs_app, !video_downloads_app.
    change (busy_signals true [GetBlob; Download "depthvision_animation.webm";
                               ExportLoadingChange false]) with 0%nat.
    change (busy_signals false [GetBlob; Download "depthvision_animation.webm";
                                ExportLoadingChange false]) with 1%nat.
    change (blobs [GetBlob; Download "depthvision_animation.webm";
                   ExportLoadingChange false]) with 1%nat.
    change (video_downloads [GetBlob; Download "depthvision_animation.webm";
                             ExportLoadingChange false]) with 1%nat.
    repeat split; auto; lia.
  - destruct Hrec as (_ & Hp' & _). congruence.
Qed.

Lemma step_export_ok e c :
  export_ok c -> exists c', step e c = Some c' /\ export_ok c'.
Proof.
  unfold export_ok. intros H.
  destruct e as [o d|cw ch dw dh| |now|w h|t0 t1| | |]; simpl.
  - destruct (alive c && negb (bool_decide ((o, d) = props c))); [|eauto].
    pose proof (rerender_capture o d (comp c, cleanup_due c)) as Hc.
    destruct (rerender o d (comp c, cleanup_due c)) as [s cl]. simpl in *.
    eexists. split; [reflexivity|]. simpl.
    apply (export_ok_at_view (comp c)); [now apply capture_export_view|exact H].
  - destruct (loads c); [eauto|]. eexists. split; [reflexivity|]. simpl.
    apply (export_ok_at_view (comp c)); [apply load_resolved_export_view|exact H].
  - destruct (loads c); [eauto|]. eexists. split; [reflexivity|]. simpl.
    apply (export_ok_at_view (comp c)); [apply load_catch_export_view|exact H].
  - set (s := Nat.iter _ _ _).
    assert (Hs : export_ok_at s (rec_frames c)).
    { apply (export_ok_at_view (comp c)); [|exact H].
      apply capture_export_view, animate_frames_capture. }
    pose proof (run_rec_frames_export_ok now s (rec_frames c) Hs) as Hrun.
    destruct (run_rec_frames now (rec_frames c) s) as [s' waiting].
    eexists. split; [reflexivity|]. exact Hrun.
  - eexists. split; [reflexivity|]. simpl.
    apply (export_ok_at_view (comp c)); [|exact H].
    apply capture_export_view, window_resize_capture.
  - unfold toolbar_disabled.
    destruct (alive c); simpl; [|eauto].
    destruct (hasContent (props c)); simpl; [|eauto].
    destruct (isRecording (comp c)) eqn:Hi; simpl; [eauto|].
    assert (Hw : rec_frames c = []).
    { destruct H as (Hrec & _). rewrite Hi in Hrec. apply Hrec. }
    rewrite Hw in *.
    pose proof (startRecording_export_ok t0 t1 (comp c) H Hi) as Hs.
    destruct (startRecording t0 t1 (comp c)) as [[s cl] again].
    eexists. split; [reflexivity|]. simpl.
    destruct cl as [k|]; [destruct again|]; exact Hs.
  - destruct (alive c && negb (toolbar_disabled (props c) (comp c))); [|eauto].
    eexists. split; [reflexivity|]. simpl.
    apply (export_ok_at_view (comp c)); [apply exportAsImage_export_view|exact H].
  - destruct (recorder_onstop_export_ok _ _ H) as (s' & -> & Hs).
    eexists. split; [reflexivity|]. exact Hs.
  - destruct (alive c); [|eauto]. eexists. split; [reflexivity|]. simpl.
    apply (export_ok_at_view (comp c)); [|exact H].
    apply capture_export_view. apply (unmount_capture (comp c, cleanup_due c)).
Qed.

Lemma run_export_ok es : forall c,
  export_ok c -> exists c', run es c = Some c' /\ export_ok c'.
Proof.
  induction es as [|e es IH]; intros c H; simpl; [eauto|].
  destruct (step_export_ok e c H) as (c1 & -> & H1). now apply IH.
Qed.

Lemma initial_export_ok w h : export_ok (initial w h).
Proof. repeat split. Qed.

(** X1.  Whatever the host and the browser do, and in whatever order -- props
    that change, loads that resolve or fail, frames, resizes, clicks on
    the toolbar, stop callbacks, an unmount -- every callback returns: the
    stop callback never finds [recorderRef] null.  At most one export runs
    at a time, with at most one stop callback owed; and each export that
    was finished took exactly one blob and started exactly one video
    download. *)
Theorem exports_never_overlap (es : list Event) (w h : Z) :
  exists c, run es (initial w h) = Some c /\ export_ok c.
Proof. apply run_export_ok, initial_export_ok. Qed.

(** ** The scene *)

Lemma scene_ok_view s s' :
  scene_view s' = scene_view s -> scene_ok s -> scene_ok s'.
Proof.
  unfold scene_view. intros H [H1 H2 H3 H4 H5 H6].
  injection H as Hsc Hm Hh Hl Hn.
  assert (Hms : scene_meshes s' = scene_meshes s) by (unfold scene_meshes; now rewrite Hsc).
  split; rewrite ?Hms, ?Hm, ?Hh, ?Hl, ?Hn; auto.
Qed.

(** Removing a child from a list whose meshes are distinct removes that
    mesh and nothing else. *)
Lemma remove_child_meshes m l :
  NoDup (mesh_children l) ->
  NoDup (mesh_children (remove_child m l)) /\
  forall a, a ∈ mesh_children (remove_child m l) <-> a ∈ mesh_children l /\ a <> m.
Proof.
  induction l as [|o l IH]; simpl; intros Hnd.
  - split; [constructor|]. intros a. split; [intros H; inversion H|intros [H _]; inversion H].
  - destruct o as [c i|c i|b]; simpl in *; try (now apply IH).
    apply NoDup_cons in Hnd as [Hb Hnd].
    destruct (Nat.eqb_spec b m) as [->|Hne].
    + split; [exact Hnd|]. intros a. rewrite elem_of_cons. split.
      * intros Ha. split; [now right|]. intros ->. contradiction.
      * intros [[->|Ha] Hne]; [contradiction|exact Ha].
    + destruct (IH Hnd) as [IH1 IH2]. simpl. split.
      * apply NoDup_cons. split; [|exact IH1]. rewrite IH2. tauto.
      * intros a. rewrite !elem_of_cons, IH2. split.
        -- intros [->|[Ha Hn]]; auto.
        -- intros [[->|Ha] Hn]; auto.
Qed.

Lemma lights_remove_child m l : lights (remove_child m l) = lights l.
Proof.
  induction l as [|o l IH]; [reflexivity|]. simpl.
  destruct o as [c i|c i|b]; simpl; try (now rewrite IH).
  destruct (Nat.eqb b m); simpl; [reflexivity|exact IH].
Qed.

Lemma lights_app l1 l2 : lights (l1 ++ l2) = lights l1 ++ lights l2.
Proof. unfold lights. apply List.filter_app. Qed.

(** [cleanupScene] keeps the scene sound. *)
Lemma cleanupScene_scene_ok s : scene_ok s -> scene_ok (cleanupScene s).
Proof.
  intros H.
  destruct (meshRef s) as [m|] eqn:Hm; [|now rewrite cleanupScene_noop by auto].
  destruct (sceneRef s) as [sc|] eqn:Hs; [|now rewrite cleanupScene_noop by auto].
  rewrite (cleanupScene_unfold s m sc Hm Hs).
  destruct H as [H1 H2 H3 H4 H5 H6].
  unfold scene_meshes in *. rewrite Hs in *.
  destruct (remove_child_meshes m (children sc) H1) as [R1 R2].
  split; simpl; auto.
  - intros a Ha. apply R2 in Ha as [Ha Hne].
    destruct (H2 a Ha) as (mesh & Hh & Hc & Hl).
    exists mesh. repeat split; auto.
    intros r Hr. apply elem_of_difference. split; [auto|].
    unfold resources_at. destruct (heap s !! m) as [mesh0|] eqn:Hm0; [|set_solver].
    intros Hin. apply elem_of_list_to_set in Hin.
    apply Hne. exact (H5 a m mesh mesh0 r Hh Hm0 Hr Hin).
  - intros a Ha. discriminate.
Qed.

Lemma prepare_scene_ok el s :
  (rendererRef s = None -> sceneRef s = None) ->
  scene_ok s -> scene_ok (prepare el (setIsLoadingAssets true s)).
Proof.
  intros Hdev H. unfold prepare. simpl.
  destruct (rendererRef s) as [r|] eqn:Hr.
  - apply (scene_ok_view s); [reflexivity|exact H].
  - specialize (Hdev eq_refl).
    destruct H as [H1 H2 H3 H4 H5 H6].
    assert (Hm : meshRef s = None).
    { destruct (meshRef s) as [m|] eqn:Hm; [|reflexivity].
      specialize (H6 m eq_refl). unfold scene_meshes in H6. rewrite Hdev in H6.
      inversion H6. }
    split; unfold scene_meshes; simpl; auto.
    + constructor.
    + intros m Hin. inversion Hin.
    + intros m Hm'. congruence.
Qed.

Lemma useEffect_body_scene_ok o d s :
  (rendererRef s = None -> sceneRef s = None) ->
  scene_ok s -> scene_ok (fst (useEffect_body o d s)).
Proof.
  intros Hdev H. unfold useEffect_body.
  destruct (mountRef s) as [el|]; [|exact H].
  destruct (negb (truthy o) || negb (truthy d)); [now apply cleanupScene_scene_ok|].
  cbv zeta. fold (prepare el (setIsLoadingAssets true s)).
  pose proof (cleanupScene_scene_ok _ (prepare_scene_ok el s Hdev H)) as Hc.
  set (sB := cleanupScene _) in *. simpl.
  apply (scene_ok_view sB); [|exact Hc].
  now destruct (animate sB).
Qed.

Lemma run_cleanup_scene_view f : scene_view (run_cleanup f) = scene_view (fst f).
Proof. unfold run_cleanup. now destruct (snd f). Qed.

(** The then handler, when the scene exists, keeps the scene sound. *)
Lemma load_resolved_scene_ok cw ch dw dh s :
  sceneRef s <> None -> scene_ok s -> scene_ok (load_resolved cw ch dw dh s).
Proof.
  intros Hs [H1 H2 H3 H4 H5 H6].
  destruct (sceneRef s) as [sc|] eqn:Hsc; [clear Hs|congruence].
  unfold scene_meshes in *. rewrite Hsc in *.
  unfold load_resolved, new_Texture, load_then, alloc, new_Mesh. simpl.
  rewrite Hsc. unfold setIsLoadingAssets, set_sceneRef. simpl.
  set (n := next_id s) in *.
  set (mesh := {| geometry := _; material := _; rotation_y := _ |}).
  assert (Hres : mesh_resources mesh = [S (S n); n; S n; S (S (S n))]) by reflexivity.
  assert (Hnew : S (S (S (S n))) ∉ mesh_children (children sc)).
  { intros Hin. destruct (H2 _ Hin) as (m0 & Hh & _).
    assert (S (S (S (S n))) < n)%nat by (apply H3; eauto). lia. }
  assert (Hch : mesh_children (remove_child (S (S (S (S n)))) (children sc)
                                ++ [MeshObj (S (S (S (S n))))])
                = mesh_children (children sc) ++ [S (S (S (S n)))]).
  { rewrite (remove_child_absent _ _ Hnew), mesh_children_app. reflexivity. }
  assert (Hold : forall m m0, heap s !! m = Some m0 -> m <> S (S (S (S n)))).
  { intros m m0 Hh ->. assert (S (S (S (S n))) < n)%nat by (apply H3; eauto). lia. }
  split; unfold scene_meshes; cbn [sceneRef children Scene_add heap live next_id meshRef].
  - rewrite Hch. apply NoDup_app. split; [exact H1|]. split.
    + intros a Ha Hin. apply list_elem_of_singleton in Hin. subst a. contradiction.
    + apply NoDup_singleton.
  - intros m Hin. rewrite Hch in Hin. apply elem_of_app in Hin as [Hin|Hin].
    + destruct (H2 m Hin) as (m0 & Hh & Hc & Hl).
      exists m0. split; [|split; [exact Hc|]].
      * rewrite lookup_insert_ne; [exact Hh|]. intros E. symmetry in E. now apply (Hold m m0).
      * intros r Hr. specialize (Hl r Hr). set_solver.
    + apply list_elem_of_singleton in Hin. subst m.
      exists mesh. split; [apply lookup_insert_eq|]. split.
      * do 4 eexists. repeat split; reflexivity.
      * intros r Hr. rewrite Hres in Hr. set_solver.
  - intros m Hm. destruct (decide (m = S (S (S (S n))))) as [->|Hne]; [lia|].
    rewrite lookup_insert_ne in Hm by congruence. specialize (H3 m Hm). lia.
  - intros m m0 r Hh Hr. destruct (decide (m = S (S (S (S n))))) as [->|Hne].
    + rewrite lookup_insert_eq in Hh. injection Hh as <-. rewrite Hres in Hr.
      set_unfold in Hr. lia.
    + rewrite lookup_insert_ne in Hh by congruence. specialize (H4 m m0 r Hh Hr). lia.
  - intros m1 m2 mesh1 mesh2 r Ha Hb Hra Hrb.
    destruct (decide (m1 = S (S (S (S n))))) as [->|Hne1];
      destruct (decide (m2 = S (S (S (S n))))) as [->|Hne2]; [reflexivity| | |].
    + rewrite lookup_insert_eq in Ha. injection Ha as <-.
      rewrite lookup_insert_ne in Hb by congruence.
      specialize (H4 m2 mesh2 r Hb Hrb). rewrite Hres in Hra. set_unfold in Hra. lia.
    + rewrite lookup_insert_eq in Hb. injection Hb as <-.
      rewrite lookup_insert_ne in Ha by congruence.
      specialize (H4 m1 mesh1 r Ha Hra). rewrite Hres in Hrb. set_unfold in Hrb. lia.
    + rewrite lookup_insert_ne in Ha, Hb by congruence. eauto.
  - intros m [= <-]. rewrite Hch. apply elem_of_app. right. apply list_elem_of_singleton.
    reflexivity.
Qed.

(** Turning the mesh changes no resource. *)
Lemma rotate_mesh_scene_ok v s : scene_ok s -> scene_ok (rotate_mesh v s).
Proof.
  intros H. unfold rotate_mesh.
  destruct (meshRef s) as [m|] eqn:Hm; [|exact H].
  destruct H as [H1 H2 H3 H4 H5 H6].
  assert (Hlk : forall a mesh', alter (set_rotation_y v) m (heap s) !! a = Some mesh' ->
                  exists mesh, heap s !! a = Some mesh /\
                               mesh_resources mesh' = mesh_resources mesh /\
                               (complete_mesh mesh -> complete_mesh mesh')).
  { intros a mesh' Ha. destruct (decide (m = a)) as [->|Hne].
    - rewrite lookup_alter_eq in Ha. destruct (heap s !! a) as [mesh|]; [|discriminate].
      injection Ha as <-. exists mesh. repeat split; auto.
    - rewrite lookup_alter_ne in Ha by exact Hne. exists mesh'. auto. }
  split; unfold scene_meshes in *; simpl; auto.
  - intros a Ha. destruct (H2 a Ha) as (mesh & Hh & Hc & Hl).
    destruct (decide (m = a)) as [->|Hne].
    + exists (set_rotation_y v mesh). rewrite lookup_alter_eq, Hh. repeat split; auto.
    + exists mesh. rewrite lookup_alter_ne by exact Hne. auto.
  - intros a Ha. apply lookup_alter_is_Some in Ha. auto.
  - intros a mesh' r Ha Hr. destruct (Hlk a mesh' Ha) as (mesh & Hh & Hres & _).
    rewrite Hres in Hr. eauto.
  - intros m1 m2 mesh1 mesh2 r Ha Hb Hra Hrb.
    destruct (Hlk m1 mesh1 Ha) as (o1 & Ho1 & Hr1 & _).
    destruct (Hlk m2 mesh2 Hb) as (o2 & Ho2 & Hr2 & _).
    rewrite Hr1 in Hra. rewrite Hr2 in Hrb. eauto.
Qed.

Lemma animateRecording_scene_ok k now s :
  scene_ok s -> scene_ok (fst (animateRecording k now s)).
Proof.
  intros H. unfold animateRecording.
  destruct (recorderRef s) as [r|] eqn:Hr; [|exact H].
  destruct (negb (is_recording r)); [exact H|].
  destruct (now - startTime k <? duration); cbn [fst].
  - now apply rotate_mesh_scene_ok.
  - apply rotate_mesh_scene_ok. unfold stopRecordingAndDownload. rewrite Hr.
    apply (scene_ok_view s); [reflexivity|exact H].
Qed.

Lemma run_rec_frames_scene_ok now waiting : forall s,
  scene_ok s -> scene_ok (fst (run_rec_frames now waiting s)).
Proof.
  induction waiting as [|k waiting IH]; intros s H; [exact H|]. simpl.
  pose proof (animateRecording_scene_ok k now s H) as H1.
  destruct (animateRecording k now s) as [s1 again]. simpl in H1.
  specialize (IH s1 H1). destruct (run_rec_frames now waiting s1) as [s2 rest].
  exact IH.
Qed.

Lemma startRecording_scene_ok t0 t1 s :
  scene_ok s -> scene_ok (fst (fst (startRecording t0 t1 s))).
Proof.
  intros H. unfold startRecording.
  destruct (rendererRef s); [|exact H].
  destruct (sceneRef s) eqn:Hs; [|exact H].
  destruct (cameraRef s); [|exact H].
  cbv zeta. fold (recording_armed s).
  set (k := {| initialRotationY := _; startTime := t0 |}).
  assert (Ha : scene_ok (recording_armed s))
    by (apply (scene_ok_view s); [reflexivity|exact H]).
  pose proof (animateRecording_scene_ok k t1 _ Ha) as H1.
  destruct (animateRecording k t1 (recording_armed s)) as [s1 again]. exact H1.
Qed.

Lemma recorder_onstop_scene_ok s s' :
  recorder_onstop s = Some s' -> scene_ok s -> scene_ok s'.
Proof.
  unfold recorder_onstop, stop_callback. intros Hs H.
  destruct (pending_stops s); [now injection Hs as <-|].
  simpl in Hs. destruct (recorderRef s); [|discriminate].
  injection Hs as <-. apply (scene_ok_view s); [reflexivity|exact H].
Qed.

Lemma animate_frames_view n s :
  scene_view (Nat.iter n animate_frame s) = scene_view s /\
  mountRef (Nat.iter n animate_frame s) = mountRef s /\
  rendererRef (Nat.iter n animate_frame s) = rendererRef s /\
  cameraRef (Nat.iter n animate_frame s) = cameraRef s /\
  controlsRef (Nat.iter n animate_frame s) = controlsRef s /\
  resize_listeners (Nat.iter n animate_frame s) = resize_listeners s /\
  (animate s = true -> animate_loops (Nat.iter n animate_frame s) = animate_loops s) /\
  (animate_loops s = 0%nat -> animate_loops (Nat.iter n animate_frame s) = 0%nat).
Proof.
  induction n as [|n IH]; [repeat split; auto|]. simpl.
  destruct IH as (I1 & I2 & I3 & I4 & I5 & I6 & I7 & I8).
  set (s1 := Nat.iter n animate_frame s) in *.
  assert (Han : animate s1 = animate s).
  { unfold animate. unfold scene_view in I1. injection I1 as -> _ _ _ _.
    now rewrite I3, I4, I5. }
  unfold animate_frame. destruct (animate_loops s1) as [|l] eqn:Hl.
  - repeat split; auto; intros E; rewrite Hl; auto.
  - rewrite Han. destruct (animate s) eqn:Ha.
    + repeat split; auto; intros E; rewrite Hl; auto.
    + repeat split; auto; try discriminate. intros E. specialize (I8 E). congruence.
Qed.

Lemma window_resize_scene_view w h s : scene_view (window_resize w h s) = scene_view s.
Proof.
  unfold window_resize, handleResize. simpl.
  destruct (resize_listeners s); [reflexivity|].
  destruct (rendererRef s), (cameraRef s), (mountRef s); reflexivity.
Qed.

Lemma exportAsImage_scene_view s : scene_view (exportAsImage s) = scene_view s.
Proof. unfold exportAsImage. now destruct (rendererRef s). Qed.

(** ** The devices *)

Lemma devices_ok_at_view s s' cl al lo :
  device_view s' = device_view s ->
  devices_ok_at s cl al lo -> devices_ok_at s' cl al lo.
Proof.
  unfold device_view, devices_ok_at. intros H.
  injection H as -> -> -> -> -> -> ->. auto.
Qed.

Lemma rotate_mesh_device_view v s : device_view (rotate_mesh v s) = device_view s.
Proof. unfold rotate_mesh. now destruct (meshRef s). Qed.

Lemma animateRecording_device_view k now s :
  device_view (fst (animateRecording k now s)) = device_view s.
Proof.
  unfold animateRecording.
  destruct (recorderRef s) as [r|] eqn:Hr; [|reflexivity].
  destruct (negb (is_recording r)); [reflexivity|].
  destruct (now - startTime k <? duration); cbn [fst]; rewrite rotate_mesh_device_view;
    [reflexivity|].
  unfold stopRecordingAndDownload. now rewrite Hr.
Qed.

Lemma run_rec_frames_device_view now waiting : forall s,
  device_view (fst (run_rec_frames now waiting s)) = device_view s.
Proof.
  induction waiting as [|k waiting IH]; intros s; [reflexivity|]. simpl.
  pose proof (animateRecording_device_view k now s) as H1.
  destruct (animateRecording k now s) as [s1 again]. simpl in H1.
  specialize (IH s1). destruct (run_rec_frames now waiting s1) as [s2 rest].
  simpl in *. congruence.
Qed.

Lemma startRecording_device_view t0 t1 s :
  device_view (fst (fst (startRecording t0 t1 s))) = device_view s.
Proof.
  unfold startRecording.
  destruct (rendererRef s) eqn:Hr; [|reflexivity].
  destruct (sceneRef s) eqn:Hs; [|reflexivity].
  destruct (cameraRef s) eqn:Hc; [|reflexivity].
  cbv zeta. fold (recording_armed s).
  set (k := {| initialRotationY := _; startTime := t0 |}).
  pose proof (animateRecording_device_view k t1 (recording_armed s)) as H1.
  destruct (animateRecording k t1 (recording_armed s)) as [s1 again].
  simpl in *. rewrite H1. reflexivity.
Qed.

Lemma recorder_onstop_device_view s s' :
  recorder_onstop s = Some s' -> device_view s' = device_view s.
Proof.
  unfold recorder_onstop, stop_callback. intros Hs.
  destruct (pending_stops s); [now injection Hs as <-|].
  simpl in Hs. destruct (recorderRef s); [|discriminate].
  now injection Hs as <-.
Qed.

Lemma exportAsImage_device_view s : device_view (exportAsImage s) = device_view s.
Proof. unfold exportAsImage. now destruct (rendererRef s). Qed.

Lemma cleanupScene_devices_ok s cl al lo :
  devices_ok_at s cl al lo -> devices_ok_at (cleanupScene s) cl al lo.
Proof.
  intros H.
  destruct (meshRef s) as [m|] eqn:Hm; [|now rewrite cleanupScene_noop by auto].
  destruct (sceneRef s) as [sc|] eqn:Hs; [|now rewrite cleanupScene_noop by auto].
  rewrite (cleanupScene_unfold s m sc Hm Hs).
  unfold devices_ok_at in *. simpl.
  destruct H as (H1 & H2 & H3). split; [exact H1|]. split; [exact H2|].
  destruct (rendererRef s) as [r|].
  - destruct H3 as (Hr & sc' & cam & ctl & E1 & E2 & E3 & E4 & E5 & E6).
    rewrite Hs in E1. injection E1 as <-.
    split; [exact Hr|]. exists (Scene_remove m sc), cam, ctl.
    repeat split; auto. simpl. now rewrite lights_remove_child.
  - destruct H3 as (E1 & _). congruence.
Qed.

(** While a load is pending the devices exist and the render loop runs. *)
Lemma devices_pending_animate s cl al lo :
  devices_ok_at s cl al (S lo) -> animate s = true.
Proof.
  intros (_ & _ & H). unfold animate.
  destruct (rendererRef s).
  - destruct H as (_ & sc & cam & ctl & -> & -> & -> & _). reflexivity.
  - destruct H as (_ & _ & _ & E & _). discriminate.
Qed.

(** A mounted component after an effect run. *)
Lemma useEffect_body_devices_ok o d s lo :
  devices_ok_at s false true lo ->
  devices_ok_at (fst (useEffect_body o d s)) (snd (useEffect_body o d s)) true
    (if snd (useEffect_body o d s) then S lo else lo).
Proof.
  intros H. pose proof H as (H1 & H2 & H3).
  unfold useEffect_body.
  destruct (mountRef s) as [el|] eqn:Hel; [|now contradiction H2].
  destruct (negb (truthy o) || negb (truthy d)); [now apply cleanupScene_devices_ok|].
  cbv zeta. cbn [fst snd].
  set (sA := match rendererRef (setIsLoadingAssets true s) with
             | Some _ => _ | None => _ end).
  assert (HA : devices_ok_at sA false true (S lo) /\ animate sA = true /\
               animate_loops sA = animate_loops s).
  { subst sA. simpl. unfold devices_ok_at in *.
    destruct (rendererRef s) as [r|] eqn:Hr.
    - destruct H3 as (Hd & sc & cam & ctl & E1 & E2 & E3 & E4 & E5 & E6).
      unfold refresh_size, animate. simpl. rewrite Hr, E1, E2, E3, Hel. simpl.
      split; [|split; reflexivity].
      split; [exact H1|]. split; [discriminate|]. split; [exact Hd|].
      do 3 eexists. repeat split; eauto.
    - destruct H3 as (E1 & E2 & E3 & E4 & E5 & E6).
      unfold init_three, animate. simpl. split; [|split; [reflexivity|]].
      + split; [exact H1|]. split; [discriminate|]. split; [reflexivity|].
        do 3 eexists. repeat split; try reflexivity.
        intros el' [= <-]. simpl. now rewrite (E6 el eq_refl).
      + reflexivity. }
  destruct HA as (HA & Han & Hloops).
  pose proof (cleanupScene_devices_ok _ _ _ _ HA) as HB.
  pose proof (devices_pending_animate _ _ _ _ HB) as HanB.
  rewrite HanB. unfold devices_ok_at in *. simpl.
  destruct HB as (B1 & B2 & B3). rewrite B1. split; [reflexivity|]. split; [exact B2|].
  destruct (rendererRef (cleanupScene sA)); [exact B3|].
  destruct B3 as (_ & _ & _ & E & _). discriminate.
Qed.

Lemma rerender_devices_ok o d s cl lo :
  devices_ok_at s cl true lo ->
  devices_ok_at (fst (rerender o d (s, cl))) (snd (rerender o d (s, cl))) true
    (if snd (rerender o d (s, cl)) then S lo else lo).
Proof.
  intros H. unfold rerender. apply useEffect_body_devices_ok.
  unfold run_cleanup. simpl. destruct cl; [|exact H].
  unfold devices_ok_at in *. simpl. destruct H as (H1 & H2 & H3).
  split; [now rewrite H1|]. split; [exact H2|exact H3].
Qed.

(** When a load settles the scene exists, so the then handler attaches
    its mesh and never ends in the catch handler. *)
Lemma load_resolved_devices_ok cw ch dw dh s cl al lo :
  devices_ok_at s cl al (S lo) ->
  sceneRef s <> None /\ devices_ok_at (load_resolved cw ch dw dh s) cl al lo.
Proof.
  intros (H1 & H2 & H3).
  destruct (rendererRef s) as [r|] eqn:Hr.
  - destruct H3 as (Hd & sc & cam & ctl & E1 & E2 & E3 & E4 & E5 & E6).
    split; [congruence|].
    unfold load_resolved, new_Texture, load_then, alloc, new_Mesh. simpl.
    rewrite E1. unfold devices_ok_at. simpl. rewrite Hr.
    split; [exact H1|]. split; [exact H2|]. split; [exact Hd|].
    do 3 eexists. repeat split; eauto. simpl.
    rewrite lights_app, lights_remove_child, E4. reflexivity.
  - destruct H3 as (_ & _ & _ & E & _). discriminate.
Qed.

Lemma load_catch_devices_ok s cl al lo :
  devices_ok_at s cl al (S lo) -> devices_ok_at (load_catch s) cl al lo.
Proof.
  intros (H1 & H2 & H3). unfold devices_ok_at. simpl.
  split; [exact H1|]. split; [exact H2|].
  destruct (rendererRef s); [exact H3|].
  destruct H3 as (_ & _ & _ & E & _). discriminate.
Qed.

Lemma window_resize_devices_ok w h s cl al lo :
  devices_ok_at s cl al lo -> devices_ok_at (window_resize w h s) cl al lo.
Proof.
  intros (H1 & H2 & H3). unfold window_resize, handleResize, resize_mount. simpl.
  assert (Hbase : devices_ok_at
                    (set_mountRef
                       ((fun el => {| clientWidth := w; clientHeight := h;
                                      canvases := canvases el |}) <$> mountRef s) s)
                    cl al lo).
  { unfold devices_ok_at. simpl. split; [exact H1|].
    split; [intros E; specialize (H2 E); now destruct (mountRef s)|].
    destruct (rendererRef s) as [r|].
    - destruct H3 as (Hd & sc & cam & ctl & E1 & E2 & E3 & E4 & E5 & E6).
      split; [exact Hd|]. do 3 eexists. repeat split; eauto.
      intros el. destruct (mountRef s) as [el0|]; [|discriminate].
      intros [= <-]. simpl. now apply E6.
    - destruct H3 as (E1 & E2 & E3 & E4 & E5 & E6). repeat split; auto.
      intros el. destruct (mountRef s) as [el0|]; [|discriminate].
      intros [= <-]. simpl. now apply E6. }
  destruct (resize_listeners s); [exact Hbase|].
  destruct (rendererRef s) as [r|] eqn:Hr; [|exact Hbase].
  destruct (cameraRef s) as [cam|] eqn:Hc; [|exact Hbase].
  destruct (mountRef s) as [el|] eqn:Hel; [|exact Hbase]. simpl in *.
  unfold devices_ok_at in *. unfold refresh_size. simpl in *. rewrite Hr, Hc in *.
  simpl in *.
  destruct Hbase as (B1 & B2 & Hd & sc & cam' & ctl & E1 & E2 & E3 & E4 & E5 & E6).
  split; [exact B1|]. split; [exact B2|]. split; [exact Hd|].
  do 3 eexists. repeat split; eauto.
Qed.

Lemma animate_frames_devices_ok n s cl al lo :
  devices_ok_at s cl al lo -> devices_ok_at (Nat.iter n animate_frame s) cl al lo.
Proof.
  intros H. apply (devices_ok_at_view s); [|exact H].
  destruct (animate_frames_view n s) as (I1 & I2 & I3 & I4 & I5 & I6 & I7 & I8).
  unfold scene_view in I1. injection I1 as I1 _ _ _ _.
  unfold device_view. rewrite I1, I2, I3, I4, I5, I6. do 2 f_equal.
  destruct H as (_ & _ & H). unfold animate in I7.
  destruct (rendererRef s).
  - destruct H as (_ & sc & cam & ctl & E1 & E2 & E3 & _).
    rewrite E1, E2, E3 in I7. now apply I7.
  - destruct H as (_ & _ & _ & _ & E & _). rewrite E. now apply I8.
Qed.

Lemma unmount_devices_ok s cl lo :
  devices_ok_at s cl true lo -> devices_ok_at (unmount (s, cl)) false false lo.
Proof.
  intros (H1 & H2 & H3). unfold unmount, run_cleanup, devices_ok_at. simpl.
  split; [destruct cl; simpl; [now rewrite H1|exact H1]|].
  split; [discriminate|].
  destruct cl; simpl.
  - destruct (rendererRef s) as [r|].
    + destruct H3 as (Hd & sc & cam & ctl & E1 & E2 & E3 & E4 & E5 & _).
      split; [exact Hd|]. do 3 eexists. repeat split; eauto. discriminate.
    + destruct H3 as (E1 & E2 & E3 & E4 & E5 & _). repeat split; auto. discriminate.
  - destruct (rendererRef s) as [r|].
    + destruct H3 as (Hd & sc & cam & ctl & E1 & E2 & E3 & E4 & E5 & _).
      split; [exact Hd|]. do 3 eexists. repeat split; eauto. discriminate.
    + destruct H3 as (E1 & E2 & E3 & E4 & E5 & _). repeat split; auto. discriminate.
Qed.

Lemma unmount_scene_view f : scene_view (unmount f) = scene_view (fst f).
Proof. unfold unmount, run_cleanup. now destruct (snd f). Qed.

Lemma devices_scene_guard s cl al lo :
  devices_ok_at s cl al lo -> rendererRef s = None -> sceneRef s = None.
Proof.
  intros (_ & _ & H) Hr. rewrite Hr in H. apply H.
Qed.

(** One callback keeps the devices and the scene sound. *)
Lemma step_devices_scene e c c' :
  step e c = Some c' -> devices_ok c -> scene_ok (comp c) ->
  devices_ok c' /\ scene_ok (comp c').
Proof.
  unfold devices_ok.
  destruct e as [o d|cw ch dw dh| |now|w h|t0 t1| | |]; simpl; intros Hstep HD HS.
  - destruct (alive c) eqn:Hal; simpl in Hstep; [|injection Hstep as <-; now rewrite Hal].
    destruct (negb (bool_decide ((o, d) = props c)));
      [|injection Hstep as <-; now rewrite Hal].
    pose proof (rerender_devices_ok o d (comp c) (cleanup_due c) (loads c) HD) as HD'.
    assert (HS' : scene_ok (fst (rerender o d (comp c, cleanup_due c)))).
    { unfold rerender. apply useEffect_body_scene_ok.
      - unfold run_cleanup. simpl. destruct (cleanup_due c); simpl;
          apply (devices_scene_guard _ _ _ _ HD).
      - apply (scene_ok_view (comp c)); [apply (run_cleanup_scene_view (comp c, _))|exact HS]. }
    destruct (rerender o d (comp c, cleanup_due c)) as [s cl].
    injection Hstep as <-. simpl in *. split; assumption.
  - destruct (loads c) as [|n] eqn:Hl; injection Hstep as <-; simpl; [now rewrite Hl|].
    destruct (load_resolved_devices_ok cw ch dw dh _ _ _ _ HD) as (Hsc & HD').
    split; [exact HD'|]. now apply load_resolved_scene_ok.
  - destruct (loads c) as [|n] eqn:Hl; injection Hstep as <-; simpl; [now rewrite Hl|].
    split; [now apply load_catch_devices_ok|].
    apply (scene_ok_view (comp c)); [reflexivity|exact HS].
  - set (s := Nat.iter _ _ _) in *.
    assert (HDs : devices_ok_at s (cleanup_due c) (alive c) (loads c))
      by now apply animate_frames_devices_ok.
    assert (HSs : scene_ok s).
    { apply (scene_ok_view (comp c)); [apply animate_frames_view|exact HS]. }
    pose proof (run_rec_frames_device_view now (rec_frames c) s) as Hv.
    pose proof (run_rec_frames_scene_ok now (rec_frames c) s HSs) as Hs.
    destruct (run_rec_frames now (rec_frames c) s) as [s' waiting].
    injection Hstep as <-. simpl in *.
    split; [now apply (devices_ok_at_view s)|exact Hs].
  - injection Hstep as <-. simpl.
    split; [now apply window_resize_devices_ok|].
    apply (scene_ok_view (comp c)); [apply window_resize_scene_view|exact HS].
  - destruct (alive c && negb (toolbar_disabled (props c) (comp c)));
      [|injection Hstep as <-; auto].
    pose proof (startRecording_device_view t0 t1 (comp c)) as Hv.
    pose proof (startRecording_scene_ok t0 t1 (comp c) HS) as Hs.
    destruct (startRecording t0 t1 (comp c)) as [[s cl] again].
    injection Hstep as <-. simpl in *.
    split; [now apply (devices_ok_at_view (comp c))|exact Hs].
  - destruct (alive c && negb (toolbar_disabled (props c) (comp c)));
      injection Hstep as <-; auto. simpl.
    split; [apply (devices_ok_at_view (comp c)); [apply exportAsImage_device_view|exact HD]|].
    apply (scene_ok_view (comp c)); [apply exportAsImage_scene_view|exact HS].
  - destruct (recorder_onstop (comp c)) as [s|] eqn:Hs; [|discriminate].
    injection Hstep as <-. simpl.
    split; [apply (devices_ok_at_view (comp c));
            [now apply recorder_onstop_device_view|exact HD]|].
    now apply (recorder_onstop_scene_ok (comp c)).
  - destruct (alive c) eqn:Hal; injection Hstep as <-; simpl; [|now rewrite Hal].
    split; [now apply unmount_devices_ok|].
    apply (scene_ok_view (comp c)); [apply (unmount_scene_view (comp c, _))|exact HS].
Qed.

Lemma step_sound e c : sound c -> exists c', step e c = Some c' /\ sound c'.
Proof.
  intros (He & Hd & Hs).
  destruct (step_export_ok e c He) as (c' & Hstep & He').
  destruct (step_devices_scene e c c' Hstep Hd Hs) as (Hd' & Hs').
  exists c'. split; [exact Hstep|]. split; [exact He'|]. split; assumption.
Qed.

Lemma run_sound es : forall c, sound c -> exists c', run es c = Some c' /\ sound c'.
Proof.
  induction es as [|e es IH]; intros c H; simpl; [eauto|].
  destruct (step_sound e c H) as (c1 & -> & H1). now apply IH.
Qed.

Lemma initial_sound w h : sound (initial w h).
Proof.
  split; [apply initial_export_ok|]. split.
  - unfold devices_ok, devices_ok_at. simpl. repeat split; try discriminate.
    intros el [= <-]. reflexivity.
  - split; simpl; unfold scene_meshes; simpl.
    + constructor.
    + intros m Hm. inversion Hm.
    + intros m [x Hx]. rewrite lookup_empty in Hx. discriminate.
    + intros m mesh r Hx. rewrite lookup_empty in Hx. discriminate.
    + intros m1 m2 mesh1 mesh2 r Hx. rewrite lookup_empty in Hx. discriminate.
    + discriminate.
Qed.

Lemma reached_sound es w h c : run es (initial w h) = Some c -> sound c.
Proof.
  intros H. destruct (run_sound es (initial w h) (initial_sound w h)) as (c' & E & S).
  congruence.
Qed.

Lemma run_app es1 : forall es2 c,
  run (es1 ++ es2) c = run es1 c ≫= run es2.
Proof.
  induction es1 as [|e es1 IH]; intros es2 c; simpl; [reflexivity|].
  destruct (step e c); [apply IH|reflexivity].
Qed.

(** X2.  Through any sequence of callbacks the renderer, the scene, the
    camera and the controls exist together or not at all; once created,
    the renderer and the controls are never disposed, the scene keeps
    exactly its two lights, the mount holds exactly one canvas, and
    exactly one resize listener is registered while an effect cleanup is
    due (none otherwise). *)
Theorem devices_set_up_once (es : list Event) (w h : Z) :
  exists c, run es (initial w h) = Some c /\ devices_ok c.
Proof.
  destruct (run_sound es _ (initial_sound w h)) as (c & E & _ & H & _). eauto.
Qed.

(** X3.  Through any sequence of callbacks the scene never shows what
    was disposed: every mesh attached to it has its geometry, its
    material and both textures live, no two attached meshes are the same
    object or share a resource, and the mesh [meshRef] points to is
    attached. *)
Theorem scene_shows_no_disposed_resource (es : list Event) (w h : Z) :
  exists c, run es (initial w h) = Some c /\ scene_ok (comp c).
Proof.
  destruct (run_sound es _ (initial_sound w h)) as (c & E & _ & _ & H). eauto.
Qed.

(** ** Loads that settle late *)

Lemma reached_scene es w h c n :
  run es (initial w h) = Some c -> loads c = S n ->
  exists sc, sceneRef (comp c) = Some sc.
Proof.
  intros Hrun Hl. destruct (reached_sound _ _ _ _ Hrun) as (_ & (_ & _ & H) & _).
  rewrite Hl in H. destruct (rendererRef (comp c)).
  - destruct H as (_ & sc & _ & _ & E & _). eauto.
  - destruct H as (_ & _ & _ & E & _). discriminate.
Qed.

Lemma scene_meshes_fresh s m : scene_ok s -> m ∈ scene_meshes s -> (m < next_id s)%nat.
Proof.
  intros H Hm. destruct (scene_live s H m Hm) as (mesh & Hh & _).
  apply (scene_fresh_mesh s H). now exists mesh.
Qed.

Lemma load_resolved_attached cw ch dw dh s sc :
  scene_ok s -> sceneRef s = Some sc ->
  let s' := load_resolved cw ch dw dh s in
  let a := (4 + next_id s)%nat in
  meshRef s' = Some a /\
  scene_meshes s' = scene_meshes s ++ [a] /\
  resources_at s' a = [2 + next_id s; next_id s; 1 + next_id s; 3 + next_id s]%nat /\
  (forall r, r ∈ live s' <-> r ∈ live s \/ (next_id s <= r < 4 + next_id s)%nat) /\
  (forall b, b <> a -> heap s' !! b = heap s !! b) /\
  next_id s' = (5 + next_id s)%nat /\
  isLoadingAssets s' = false /\
  device_view s' = device_view (set_sceneRef (sceneRef s') s) /\
  capture_state s' = capture_state s.
Proof.
  intros Hok Hs.
  assert (Hfresh : (4 + next_id s)%nat ∉ mesh_children (children sc)).
  { intros Hin. assert (Hin' : (4 + next_id s)%nat ∈ scene_meshes s)
      by (unfold scene_meshes; now rewrite Hs).
    apply (scene_meshes_fresh s _ Hok) in Hin'. lia. }
  unfold load_resolved, new_Texture, load_then, alloc, new_Mesh. simpl.
  rewrite Hs. unfold scene_meshes, resources_at. simpl. rewrite Hs. simpl.
  rewrite lookup_insert_eq. simpl.
  split; [reflexivity|]. split.
  { simpl in Hfresh. rewrite (remove_child_absent _ _ Hfresh).
    unfold mesh_children. rewrite omap_app. reflexivity. }
  split; [reflexivity|]. split.
  { intros r. rewrite !elem_of_union, !elem_of_singleton.
    split; [intros [->|[->|[->|[->|?]]]]; [right; lia..|now left]|].
    intros [?|Hb]; [tauto|].
    assert (r = S (S (S (next_id s))) \/ r = S (S (next_id s)) \/
            r = S (next_id s) \/ r = next_id s) by lia.
    tauto. }
  split.
  { intros b Hb. rewrite lookup_insert_ne; [reflexivity|]. intros E. apply Hb. now rewrite <- E. }
  repeat split.
Qed.

(** X4.  A load that settles always attaches its mesh: whenever a
    [Promise.all] is pending, its then handler builds a mesh with four
    fresh live resources, appends it to the scene, points [meshRef] to it
    and clears the loading flag.  It checks neither whether the props
    still name its images nor whether a mesh is already tracked: a mesh
    that was tracked stays in the scene, out of [cleanupScene]'s reach. *)
Theorem settled_load_always_attaches (es : list Event) (w h : Z) (c : Canvas) (n : nat)
    (cw ch dw dh : Z) :
  run es (initial w h) = Some c -> loads c = S n ->
  exists c', step (Resolve cw ch dw dh) c = Some c' /\
    loads c' = n /\ props c' = props c /\
    meshRef (comp c') = Some (4 + next_id (comp c))%nat /\
    scene_meshes (comp c') = scene_meshes (comp c) ++ [(4 + next_id (comp c))%nat] /\
    resources_at (comp c') (4 + next_id (comp c)) =
      [2 + next_id (comp c); next_id (comp c); 1 + next_id (comp c);
       3 + next_id (comp c)]%nat /\
    (forall r, r ∈ live (comp c') <->
               r ∈ live (comp c) \/ (next_id (comp c) <= r < 4 + next_id (comp c))%nat) /\
    isLoadingAssets (comp c') = false /\
    (forall m, meshRef (comp c) = Some m -> orphan (comp c') m).
Proof.
  intros Hrun Hl. destruct (reached_scene _ _ _ _ _ Hrun Hl) as (sc & Hsc).
  destruct (reached_sound _ _ _ _ Hrun) as (_ & _ & Hok).
  destruct (load_resolved_attached cw ch dw dh (comp c) sc Hok Hsc)
    as (A1 & A2 & A3 & A4 & _ & _ & A7 & _).
  simpl. rewrite Hl. eexists. split; [reflexivity|]. simpl.
  repeat (split; [assumption || reflexivity|]).
  intros m Hm. split.
  - rewrite A2. apply elem_of_app. left. now apply (scene_tracked _ Hok).
  - rewrite A1. intros [= E].
    pose proof (scene_meshes_fresh _ m Hok (scene_tracked _ Hok m Hm)). lia.
Qed.

Lemma settled_load_always_attaches_witness :
  exists c c', run withdrawn_events (initial 800 600) = Some c /\
    hasContent (props c) = false /\
    step (Resolve 1920 1080 640 360) c = Some c' /\
    scene_meshes (comp c') = [4%nat] /\ meshRef (comp c') = Some 4%nat.
Proof.
  eexists. 
  assert (Hrun : run withdrawn_events (initial 800 600) = Some ?[c])
    by (vm_compute; reflexivity).
  destruct (settled_load_always_attaches withdrawn_events 800 600 _ 0 1920 1080 640 360 Hrun)
    as (c' & Hs & _ & _ & Hm & Hsc & _); [reflexivity|].
  exists c'. split; [exact Hrun|]. split; [reflexivity|]. split; [exact Hs|].
  split; [exact Hsc|exact Hm].
Defined.

(** ** Meshes out of reach *)

Lemma same_shape_refl s : same_shape s s.
Proof. repeat split. Qed.

Lemma same_shape_trans s1 s2 s3 : same_shape s1 s2 -> same_shape s2 s3 -> same_shape s1 s3.
Proof.
  intros (A1 & A2 & A3 & A4 & A5) (B1 & B2 & B3 & B4 & B5).
  repeat split; try congruence.
Qed.

Lemma same_shape_view s s' : scene_view s' = scene_view s -> same_shape s s'.
Proof.
  unfold scene_view. intros H. injection H as H1 H2 H3 H4 H5.
  repeat split; auto. intros a. unfold resources_at. now rewrite H3.
Qed.

Lemma rotate_mesh_same_shape v s : same_shape s (rotate_mesh v s).
Proof.
  unfold rotate_mesh. destruct (meshRef s) as [m|]; [|apply same_shape_refl].
  repeat split. intros a. unfold resources_at. simpl.
  destruct (decide (m = a)) as [->|Hne].
  - rewrite lookup_alter_eq. now destruct (heap s !! a).
  - now rewrite lookup_alter_ne.
Qed.

Lemma animateRecording_same_shape k now s : same_shape s (fst (animateRecording k now s)).
Proof.
  unfold animateRecording.
  destruct (recorderRef s) as [r|] eqn:Hr; [|apply same_shape_refl].
  destruct (negb (is_recording r)); [apply same_shape_refl|].
  destruct (now - startTime k <? duration); cbn [fst]; [apply rotate_mesh_same_shape|].
  eapply same_shape_trans; [|apply rotate_mesh_same_shape].
  unfold stopRecordingAndDownload. rewrite Hr. now apply same_shape_view.
Qed.

Lemma run_rec_frames_same_shape now waiting : forall s,
  same_shape s (fst (run_rec_frames now waiting s)).
Proof.
  induction waiting as [|k waiting IH]; intros s; [apply same_shape_refl|]. simpl.
  pose proof (animateRecording_same_shape k now s) as H1.
  destruct (animateRecording k now s) as [s1 again]. simpl in H1.
  specialize (IH s1). destruct (run_rec_frames now waiting s1) as [s2 rest].
  simpl in *. eapply same_shape_trans; eassumption.
Qed.

Lemma startRecording_same_shape t0 t1 s : same_shape s (fst (fst (startRecording t0 t1 s))).
Proof.
  unfold startRecording.
  destruct (rendererRef s); [|apply same_shape_refl].
  destruct (sceneRef s) eqn:Hs; [|apply same_shape_refl].
  destruct (cameraRef s); [|apply same_shape_refl].
  cbv zeta. fold (recording_armed s).
  set (k := {| initialRotationY := _; startTime := t0 |}).
  pose proof (animateRecording_same_shape k t1 (recording_armed s)) as H1.
  destruct (animateRecording k t1 (recording_armed s)) as [s1 again]. simpl in *.
  eapply same_shape_trans; [|exact H1]. now apply same_shape_view.
Qed.

Lemma recorder_onstop_same_shape s s' : recorder_onstop s = Some s' -> same_shape s s'.
Proof.
  unfold recorder_onstop, stop_callback. intros Hs.
  destruct (pending_stops s); [injection Hs as <-; apply same_shape_refl|].
  simpl in Hs. destruct (recorderRef s); [|discriminate].
  injection Hs as <-. now apply same_shape_view.
Qed.

Lemma orphan_same_shape s s' m :
  same_shape s s' -> orphan s m ->
  orphan s' m /\ resources_at s' m = resources_at s m.
Proof.
  intros (A1 & A2 & A3 & A4 & A5) [H1 H2]. unfold orphan, scene_meshes in *.
  rewrite A1, A2. auto.
Qed.

(** [cleanupScene] removes the tracked mesh and no other. *)
Lemma cleanupScene_orphan s m :
  orphan s m -> orphan (cleanupScene s) m /\
  resources_at (cleanupScene s) m = resources_at s m.
Proof.
  intros [H1 H2].
  destruct (meshRef s) as [m0|] eqn:Hm; [|rewrite cleanupScene_noop by auto; repeat split; auto;
                                            congruence].
  destruct (sceneRef s) as [sc|] eqn:Hs;
    [|rewrite cleanupScene_noop by auto; repeat split; auto; congruence].
  rewrite (cleanupScene_unfold s m0 sc Hm Hs).
  unfold orphan, scene_meshes, resources_at in *. simpl. rewrite Hs in H1.
  split; [|reflexivity]. split; [|discriminate].
  assert (Hne : m <> m0) by congruence.
  clear -H1 Hne. induction (children sc) as [|o l IH]; simpl in *; [exact H1|].
  destruct o as [c i|c i|b]; simpl in *; auto.
  apply elem_of_cons in H1. destruct (Nat.eqb_spec b m0) as [->|Hb].
  - destruct H1 as [->|H1]; [contradiction|exact H1].
  - simpl. apply elem_of_cons. destruct H1 as [->|H1]; auto.
Qed.

Lemma useEffect_body_orphan o d s m :
  (rendererRef s = None -> sceneRef s = None) ->
  orphan s m -> orphan (fst (useEffect_body o d s)) m /\
  resources_at (fst (useEffect_body o d s)) m = resources_at s m.
Proof.
  intros Hg H. unfold useEffect_body.
  destruct (mountRef s) as [el|]; [|auto].
  destruct (negb (truthy o) || negb (truthy d)); [now apply cleanupScene_orphan|].
  cbv zeta. cbn [fst].
  set (sA := match rendererRef (setIsLoadingAssets true s) with
             | Some _ => _ | None => _ end).
  assert (HA : orphan sA m /\ resources_at sA m = resources_at s m).
  { subst sA. simpl. destruct (rendererRef s) as [r|].
    - apply orphan_same_shape; [|exact H]. now apply same_shape_view.
    - destruct H as [H _]. unfold scene_meshes in H. rewrite (Hg eq_refl) in H.
      inversion H. }
  destruct HA as [HA HAr].
  destruct (cleanupScene_orphan sA m HA) as [HB HBr].
  destruct (animate (cleanupScene sA)); simpl;
    (split; [exact HB|rewrite <- HAr, <- HBr; reflexivity]).
Qed.

(** One callback leaves a mesh out of reach where it is. *)
Lemma step_orphan e c c' m :
  step e c = Some c' -> sound c -> orphan (comp c) m ->
  orphan (comp c') m /\ resources_at (comp c') m = resources_at (comp c) m.
Proof.
  intros Hstep (_ & HD & HS) Ho. unfold devices_ok in HD.
  destruct e as [o d|cw ch dw dh| |now|w h|t0 t1| | |]; simpl in Hstep.
  - destruct (alive c && negb (bool_decide ((o, d) = props c)));
      [|injection Hstep as <-; auto].
    assert (H : orphan (fst (rerender o d (comp c, cleanup_due c))) m /\
                resources_at (fst (rerender o d (comp c, cleanup_due c))) m =
                resources_at (comp c) m).
    { unfold rerender.
      destruct (orphan_same_shape (comp c) (run_cleanup (comp c, cleanup_due c)) m)
        as [H1 H2]; [apply same_shape_view, (run_cleanup_scene_view (comp c, _))|exact Ho|].
      destruct (useEffect_body_orphan o d (run_cleanup (comp c, cleanup_due c)) m)
        as [H3 H4]; [|exact H1|split; [exact H3|congruence]].
      unfold run_cleanup. simpl. destruct (cleanup_due c); simpl;
        apply (devices_scene_guard _ _ _ _ HD). }
    destruct (rerender o d (comp c, cleanup_due c)) as [s cl].
    injection Hstep as <-. exact H.
  - destruct (loads c) as [|n] eqn:Hl; injection Hstep as <-; simpl; [auto|].
    destruct (load_resolved_devices_ok cw ch dw dh _ _ _ _ HD) as (Hsc & _).
    destruct (sceneRef (comp c)) as [sc|] eqn:Hs; [|congruence].
    destruct (load_resolved_attached cw ch dw dh (comp c) sc HS Hs)
      as (A1 & A2 & _ & _ & A5 & _).
    destruct Ho as [H1 H2]. pose proof (scene_meshes_fresh _ m HS H1) as Hlt.
    split; [split|].
    + rewrite A2. apply elem_of_app. now left.
    + rewrite A1. intros [= E]. lia.
    + unfold resources_at. rewrite A5 by lia. reflexivity.
  - destruct (loads c) as [|n] eqn:Hl; injection Hstep as <-; simpl; [auto|].
    apply orphan_same_shape; [now apply same_shape_view|exact Ho].
  - set (s := Nat.iter _ _ _) in *.
    pose proof (run_rec_frames_same_shape now (rec_frames c) s) as Hv.
    destruct (run_rec_frames now (rec_frames c) s) as [s' waiting].
    injection Hstep as <-. simpl in *.
    apply orphan_same_shape; [|exact Ho].
    eapply same_shape_trans; [|exact Hv]. apply same_shape_view, animate_frames_view.
  - injection Hstep as <-. simpl.
    apply orphan_same_shape; [|exact Ho]. apply same_shape_view, window_resize_scene_view.
  - destruct (alive c && negb (toolbar_disabled (props c) (comp c)));
      [|injection Hstep as <-; auto].
    pose proof (startRecording_same_shape t0 t1 (comp c)) as Hv.
    destruct (startRecording t0 t1 (comp c)) as [[s cl] again].
    injection Hstep as <-. simpl in *. now apply orphan_same_shape.
  - destruct (alive c && negb (toolbar_disabled (props c) (comp c)));
      injection Hstep as <-; auto. simpl.
    apply orphan_same_shape; [|exact Ho]. apply same_shape_view, exportAsImage_scene_view.
  - destruct (recorder_onstop (comp c)) as [s|] eqn:Hs; [|discriminate].
    injection Hstep as <-. simpl.
    apply orphan_same_shape; [|exact Ho]. now apply recorder_onstop_same_shape.
  - destruct (alive c); injection Hstep as <-; simpl; [|auto].
    apply orphan_same_shape; [|exact Ho].
    apply same_shape_view, (unmount_scene_view (comp c, _)).
Qed.

Lemma run_orphan es : forall c c' m,
  run es c = Some c' -> sound c -> orphan (comp c) m ->
  orphan (comp c') m /\ resources_at (comp c') m = resources_at (comp c) m /\ sound c'.
Proof.
  induction es as [|e es IH]; intros c c' m Hrun Hs Ho; simpl in Hrun.
  - injection Hrun as <-. auto.
  - destruct (step_sound e c Hs) as (c1 & Hstep & Hs1). rewrite Hstep in Hrun.
    destruct (step_orphan e c c1 m Hstep Hs Ho) as [Ho1 Hr1].
    destruct (IH c1 c' m Hrun Hs1 Ho1) as (Ho' & Hr' & Hs').
    split; [exact Ho'|]. split; [congruence|exact Hs'].
Qed.

(** X5.  A mesh that is attached to the scene while [meshRef] points
    elsewhere is never released: whatever callbacks follow, it stays
    attached, [meshRef] never points to it again, and its geometry,
    material and textures stay live. *)
Theorem orphan_mesh_never_released (es1 es2 : list Event) (w h : Z) (c1 c2 : Canvas)
    (m : nat) :
  run es1 (initial w h) = Some c1 -> orphan (comp c1) m -> run es2 c1 = Some c2 ->
  orphan (comp c2) m /\
  resources_at (comp c2) m = resources_at (comp c1) m /\
  length (resources_at (comp c2) m) = 4%nat /\
  forall r, r ∈ resources_at (comp c2) m -> r ∈ live (comp c2).
Proof.
  intros H1 Ho H2. pose proof (reached_sound _ _ _ _ H1) as Hs1.
  destruct (run_orphan es2 c1 c2 m H2 Hs1 Ho) as (Ho2 & Hr & _ & _ & Hok).
  split; [exact Ho2|]. split; [exact Hr|].
  destruct Ho2 as [Hin _].
  destruct (scene_live _ Hok m Hin) as (mesh & Hh & (g & mt & t1 & t2 & E1 & E2 & E3 & E4) & Hl).
  unfold resources_at. rewrite Hh. split; [|exact Hl].
  unfold mesh_resources. rewrite E1, E2, E3, E4. reflexivity.
Qed.

Lemma orphan_mesh_never_released_witness :
  exists c1 c2, run overlapping_events (initial 800 600) = Some c1 /\
    run [Props None None; Frame 16; Unmount] c1 = Some c2 /\
    scene_meshes (comp c2) = [4%nat] /\ meshRef (comp c2) = None /\
    forall r, r ∈ resources_at (comp c2) 4 -> r ∈ live (comp c2).
Proof.
  eexists. eexists.
  assert (H1 : run overlapping_events (initial 800 600) = Some ?[c1])
    by (vm_compute; reflexivity).
  match type of H1 with
  | _ = Some ?c =>
      assert (H2 : run [Props None None; Frame 16; Unmount] c = Some ?[c2])
        by (vm_compute; reflexivity)
  end.
  match type of H1 with
  | _ = Some ?c =>
      assert (Ho : orphan (comp c) 4)
        by (split; [change (4%nat ∈ [4%nat; 9%nat]); constructor|discriminate])
  end.
  destruct (orphan_mesh_never_released _ _ _ _ _ _ _ H1 Ho H2) as (_ & _ & _ & Hl).
  split; [exact H1|]. split; [exact H2|]. split; [reflexivity|].
  split; [reflexivity|exact Hl].
Defined.

(** ** The effect on a mounted component *)

Lemma cleanupScene_rest s : rest_view (cleanupScene s) = rest_view s.
Proof.
  destruct (meshRef s) as [m|] eqn:Hm; [|now rewrite cleanupScene_noop by auto].
  destruct (sceneRef s) as [sc|] eqn:Hs; [|now rewrite cleanupScene_noop by auto].
  now rewrite (cleanupScene_unfold s m sc Hm Hs).
Qed.

(** The effect body on a mounted component whose devices are sound: with
    both images it returns a cleanup, registers the one resize listener,
    raises the loading flag and starts one more render loop; without, it
    returns no cleanup and only clears the scene. *)
Lemma useEffect_body_mounted o d s lo :
  devices_ok_at s false true lo ->
  let r := useEffect_body o d s in
  snd r = hasContent (o, d) /\
  (hasContent (o, d) = true -> rendererRef (fst r) <> None) /\
  animate_loops (fst r) =
    (if hasContent (o, d) then S (animate_loops s) else animate_loops s) /\
  isLoadingAssets (fst r) = (if hasContent (o, d) then true else isLoadingAssets s) /\
  (hasContent (o, d) = false -> fst r = cleanupScene s).
Proof.
  intros H. pose proof (useEffect_body_devices_ok o d s lo H) as HD.
  destruct H as (H1 & H2 & H3). unfold hasContent. cbn [fst snd].
  destruct (mountRef s) as [el|] eqn:Hel; [|now contradiction H2].
  destruct (truthy o) eqn:Ho; [destruct (truthy d) eqn:Hd|].
  - rewrite (useEffect_body_valid o d s el Hel Ho Hd) in *. cbv zeta in *. cbn [fst snd] in *.
    set (sB := cleanupScene _) in *.
    assert (Han : animate sB = true).
    { destruct (animate sB) eqn:E; [reflexivity|].
      eapply devices_pending_animate in HD. unfold animate in *. simpl in HD.
      rewrite E in HD. simpl in HD. congruence. }
    rewrite Han in *. simpl.
    assert (Hrest : rest_view sB = rest_view (prepare el (setIsLoadingAssets true s)))
      by apply cleanupScene_rest.
    unfold rest_view in Hrest. injection Hrest as R1 R2 R3 R4 R5 R6 R7.
    split; [reflexivity|]. split.
    { intros _ E. unfold animate in Han. rewrite E in Han. discriminate. }
    rewrite R6, R7. unfold prepare. simpl.
    split; [|split; [|discriminate]].
    + destruct (rendererRef s); [reflexivity|]. reflexivity.
    + destruct (rendererRef s); reflexivity.
  - unfold useEffect_body. rewrite Hel, Ho, Hd. simpl.
    assert (Hrest := cleanupScene_rest s). unfold rest_view in Hrest.
    injection Hrest as R1 R2 R3 R4 R5 R6 R7.
    repeat split; auto; discriminate.
  - unfold useEffect_body. rewrite Hel, Ho. simpl.
    assert (Hrest := cleanupScene_rest s). unfold rest_view in Hrest.
    injection Hrest as R1 R2 R3 R4 R5 R6 R7.
    repeat split; auto; discriminate.
Qed.

Lemma rotate_mesh_still_view v s : still_view (rotate_mesh v s) = still_view s.
Proof. unfold rotate_mesh. now destruct (meshRef s). Qed.

Lemma animateRecording_still_view k now s :
  still_view (fst (animateRecording k now s)) = still_view s.
Proof.
  unfold animateRecording.
  destruct (recorderRef s) as [r|] eqn:Hr; [|reflexivity].
  destruct (negb (is_recording r)); [reflexivity|].
  destruct (now - startTime k <? duration); cbn [fst]; rewrite rotate_mesh_still_view;
    [reflexivity|].
  unfold stopRecordingAndDownload. now rewrite Hr.
Qed.

Lemma run_rec_frames_still_view now waiting : forall s,
  still_view (fst (run_rec_frames now waiting s)) = still_view s.
Proof.
  induction waiting as [|k waiting IH]; intros s; [reflexivity|]. simpl.
  pose proof (animateRecording_still_view k now s) as H1.
  destruct (animateRecording k now s) as [s1 again]. simpl in H1.
  specialize (IH s1). destruct (run_rec_frames now waiting s1) as [s2 rest].
  simpl in *. congruence.
Qed.

Lemma startRecording_still_view t0 t1 s :
  still_view (fst (fst (startRecording t0 t1 s))) = still_view s.
Proof.
  unfold startRecording.
  destruct (rendererRef s) eqn:Hr; [|reflexivity].
  destruct (sceneRef s) eqn:Hs; [|reflexivity].
  destruct (cameraRef s) eqn:Hc; [|reflexivity].
  cbv zeta. fold (recording_armed s).
  set (k := {| initialRotationY := _; startTime := t0 |}).
  pose proof (animateRecording_still_view k t1 (recording_armed s)) as H1.
  destruct (animateRecording k t1 (recording_armed s)) as [s1 again].
  simpl in *. rewrite H1. reflexivity.
Qed.

Lemma recorder_onstop_still_view s s' :
  recorder_onstop s = Some s' -> still_view s' = still_view s.
Proof.
  unfold recorder_onstop, stop_callback. intros Hs.
  destruct (pending_stops s); [now injection Hs as <-|].
  simpl in Hs. destruct (recorderRef s); [|discriminate].
  now injection Hs as <-.
Qed.

Lemma exportAsImage_still_view s : still_view (exportAsImage s) = still_view s.
Proof. unfold exportAsImage. now destruct (rendererRef s). Qed.

Lemma animate_frames_loading n s :
  isLoadingAssets (Nat.iter n animate_frame s) = isLoadingAssets s.
Proof.
  induction n as [|n IH]; [reflexivity|]. simpl. unfold animate_frame.
  destruct (animate_loops _); [exact IH|]. now destruct (animate _).
Qed.

Lemma window_resize_rest w h s :
  animate_loops (window_resize w h s) = animate_loops s /\
  isLoadingAssets (window_resize w h s) = isLoadingAssets s /\
  (rendererRef s <> None -> rendererRef (window_resize w h s) <> None).
Proof.
  unfold window_resize, handleResize, resize_mount. simpl.
  destruct (resize_listeners s); [auto|].
  destruct (rendererRef s) eqn:Hr, (cameraRef s), (mountRef s); simpl;
    unfold refresh_size; simpl; rewrite ?Hr; repeat split; auto; discriminate.
Qed.

Lemma unmount_rest f :
  animate_loops (unmount f) = animate_loops (fst f) /\
  isLoadingAssets (unmount f) = isLoadingAssets (fst f) /\
  rendererRef (unmount f) = rendererRef (fst f).
Proof. unfold unmount, run_cleanup. now destruct (snd f). Qed.

Lemma run_cleanup_rest f :
  animate_loops (run_cleanup f) = animate_loops (fst f) /\
  isLoadingAssets (run_cleanup f) = isLoadingAssets (fst f) /\
  rendererRef (run_cleanup f) = rendererRef (fst f).
Proof. unfold run_cleanup. now destruct (snd f). Qed.

Lemma load_resolved_rest cw ch dw dh s :
  rendererRef (load_resolved cw ch dw dh s) = rendererRef s /\
  animate_loops (load_resolved cw ch dw dh s) = animate_loops s.
Proof.
  unfold load_resolved, new_Texture, load_then, alloc, new_Mesh. simpl.
  destruct (sceneRef s); split; reflexivity.
Qed.

Lemma still_view_fields s s' :
  still_view s' = still_view s ->
  rendererRef s' = rendererRef s /\ animate_loops s' = animate_loops s /\
  isLoadingAssets s' = isLoadingAssets s.
Proof.
  unfold still_view, device_view. intros H. injection H. auto.
Qed.

(** One callback: the render loops only grow in number, the renderer
    stays, and the listener and the loading flag keep their meaning. *)
Lemma step_grow e c c' :
  step e c = Some c' -> sound c -> listener_ok c -> loading_ok c ->
  (animate_loops (comp c) <= animate_loops (comp c'))%nat /\
  (rendererRef (comp c) <> None -> rendererRef (comp c') <> None) /\
  listener_ok c' /\ loading_ok c'.
Proof.
  intros Hstep (_ & HD & HS) [HL1 HL2] HG. unfold devices_ok in HD.
  unfold listener_ok, loading_ok in *.
  destruct e as [o d|cw ch dw dh| |now|w h|t0 t1| | |]; simpl in Hstep.
  - destruct (alive c) eqn:Hal; simpl in Hstep; [|injection Hstep as <-; rewrite Hal; auto].
    destruct (negb (bool_decide ((o, d) = props c)));
      [|injection Hstep as <-; rewrite Hal; auto].
    assert (HD0 : devices_ok_at (run_cleanup (comp c, cleanup_due c)) false true (loads c)).
    { unfold run_cleanup. simpl. destruct (cleanup_due c); [|exact HD].
      unfold devices_ok_at in *. simpl. destruct HD as (H1 & H2 & H3).
      split; [now rewrite H1|]. split; [exact H2|exact H3]. }
    destruct (useEffect_body_mounted o d _ _ HD0) as (U1 & U2 & U3 & U4 & U5).
    pose proof (useEffect_body_devices_ok o d _ _ HD0) as HD1.
    destruct (run_cleanup_rest (comp c, cleanup_due c)) as (R1 & R2 & R3).
    unfold rerender in Hstep.
    destruct (useEffect_body o d (run_cleanup (comp c, cleanup_due c))) as [s cl].
    injection Hstep as <-. simpl in *. subst cl. rewrite U3, U4, R1, R2.
    split; [destruct (hasContent (o, d)); lia|]. split.
    { intros Hr. destruct (hasContent (o, d)) eqn:Hc; [now apply U2|].
      rewrite (U5 eq_refl).
      pose proof (cleanupScene_rest (run_cleanup (comp c, cleanup_due c))) as E.
      unfold rest_view in E. injection E as _ E _ _ _ _ _. rewrite E, R3. exact Hr. }
    split; [split; [reflexivity|exact U2]|].
    destruct (hasContent (o, d)); [discriminate|]. intros E. specialize (HG E). exact HG.
  - destruct (loads c) as [|n] eqn:Hl; injection Hstep as <-; simpl; [rewrite Hl; auto|].
    destruct (load_resolved_devices_ok cw ch dw dh _ _ _ _ HD) as (Hsc & _).
    destruct (sceneRef (comp c)) as [sc|] eqn:Hs; [|congruence].
    destruct (load_resolved_attached cw ch dw dh (comp c) sc HS Hs)
      as (_ & _ & _ & _ & _ & _ & A7 & A8 & _).
    destruct (load_resolved_rest cw ch dw dh (comp c)) as [A9 A10]. rewrite A7, A9, A10. split; [lia|]. split; [auto|]. split; [auto|discriminate].
  - destruct (loads c) as [|n] eqn:Hl; injection Hstep as <-; simpl; [rewrite Hl; auto|].
    split; [lia|]. split; [auto|]. split; [auto|discriminate].
  - set (s := Nat.iter _ _ _) in *.
    destruct (animate_frames_view (animate_loops (comp c)) (comp c))
      as (_ & _ & I3 & _ & _ & _ & I7 & I8).
    pose proof (animate_frames_loading (animate_loops (comp c)) (comp c)) as I9.
    fold s in I3, I7, I8, I9.
    assert (Hloops : animate_loops s = animate_loops (comp c)).
    { destruct HD as (_ & _ & H). unfold animate in I7.
      destruct (rendererRef (comp c)).
      - destruct H as (_ & sc & cam & ctl & E1 & E2 & E3 & _).
        rewrite E1, E2, E3 in I7. now apply I7.
      - destruct H as (_ & _ & _ & _ & E & _). rewrite E. now apply I8. }
    pose proof (run_rec_frames_still_view now (rec_frames c) s) as Hv.
    destruct (run_rec_frames now (rec_frames c) s) as [s' waiting].
    injection Hstep as <-. simpl in *.
    apply still_view_fields in Hv. destruct Hv as (V1 & V2 & V3).
    rewrite V1, V2, V3, I3, I9, Hloops. split; [lia|]. auto.
  - injection Hstep as <-. simpl.
    destruct (window_resize_rest w h (comp c)) as (W1 & W2 & W3).
    rewrite W1, W2. split; [lia|]. split; [exact W3|]. split; [split; auto|exact HG].
  - destruct (alive c && negb (toolbar_disabled (props c) (comp c)));
      [|injection Hstep as <-; auto].
    pose proof (startRecording_still_view t0 t1 (comp c)) as Hv.
    destruct (startRecording t0 t1 (comp c)) as [[s cl] again].
    injection Hstep as <-. simpl in *.
    apply still_view_fields in Hv. destruct Hv as (V1 & V2 & V3).
    rewrite V1, V2, V3. split; [lia|]. auto.
  - destruct (alive c && negb (toolbar_disabled (props c) (comp c)));
      injection Hstep as <-; auto. simpl.
    destruct (still_view_fields _ _ (exportAsImage_still_view (comp c))) as (V1 & V2 & V3).
    rewrite V1, V2, V3. split; [lia|]. auto.
  - destruct (recorder_onstop (comp c)) as [s|] eqn:Hs; [|discriminate].
    injection Hstep as <-. simpl.
    destruct (still_view_fields _ _ (recorder_onstop_still_view _ _ Hs)) as (V1 & V2 & V3).
    rewrite V1, V2, V3. split; [lia|]. auto.
  - destruct (alive c) eqn:Hal; injection Hstep as <-;
      cbn [comp cleanup_due alive loads props]; [|rewrite Hal; auto].
    destruct (unmount_rest (comp c, cleanup_due c)) as (W1 & W2 & W3).
    rewrite W1, W2, W3. simpl. split; [lia|]. split; [auto|].
    split; [split; [reflexivity|discriminate]|exact HG].
Qed.

Lemma run_grow es : forall c c',
  run es c = Some c' -> sound c -> listener_ok c -> loading_ok c ->
  (animate_loops (comp c) <= animate_loops (comp c'))%nat /\
  (rendererRef (comp c) <> None -> rendererRef (comp c') <> None) /\
  sound c' /\ listener_ok c' /\ loading_ok c'.
Proof.
  induction es as [|e es IH]; intros c c' Hrun Hs Hl Hg; simpl in Hrun.
  - injection Hrun as <-. auto.
  - destruct (step_sound e c Hs) as (c1 & Hstep & Hs1). rewrite Hstep in Hrun.
    destruct (step_grow e c c1 Hstep Hs Hl Hg) as (G1 & G2 & G3 & G4).
    destruct (IH c1 c' Hrun Hs1 G3 G4) as (I1 & I2 & I3).
    split; [lia|]. split; [auto|exact I3].
Qed.

Lemma reached_grow es w h c :
  run es (initial w h) = Some c -> sound c /\ listener_ok c /\ loading_ok c.
Proof.
  intros H. apply (run_grow es (initial w h) c H).
  - apply initial_sound.
  - split; [reflexivity|discriminate].
  - discriminate.
Qed.

(** X6.  Render loops are only ever added.  No callback stops a
    running [animate] loop or drops the renderer, and every effect run
    with both images (a change of the props of a mounted component)
    starts one more loop beside those already running. *)
Theorem render_loops_pile_up (es1 es2 : list Event) (w h : Z) (c1 c2 : Canvas) :
  run es1 (initial w h) = Some c1 -> run es2 c1 = Some c2 ->
  (animate_loops (comp c1) <= animate_loops (comp c2))%nat /\
  (rendererRef (comp c1) <> None -> rendererRef (comp c2) <> None) /\
  forall o d, alive c2 = true -> hasContent (o, d) = true -> (o, d) <> props c2 ->
    exists c3, step (Props o d) c2 = Some c3 /\
               animate_loops (comp c3) = S (animate_loops (comp c2)).
Proof.
  intros H1 H2. destruct (reached_grow _ _ _ _ H1) as (S1 & L1 & G1).
  destruct (run_grow es2 c1 c2 H2 S1 L1 G1) as (R1 & R2 & (_ & HD & _) & _).
  split; [exact R1|]. split; [exact R2|].
  intros o d Hal Hc Hne. simpl. rewrite Hal. rewrite bool_decide_eq_false_2 by exact Hne.
  simpl. unfold devices_ok in HD. rewrite Hal in HD.
  assert (HD0 : devices_ok_at (run_cleanup (comp c2, cleanup_due c2)) false true (loads c2)).
  { unfold run_cleanup. simpl. destruct (cleanup_due c2); [|exact HD].
    unfold devices_ok_at in *. simpl. destruct HD as (D1 & D2 & D3).
    split; [now rewrite D1|]. split; [exact D2|exact D3]. }
  destruct (useEffect_body_mounted o d _ _ HD0) as (_ & _ & U3 & _).
  destruct (run_cleanup_rest (comp c2, cleanup_due c2)) as (R3 & _).
  unfold rerender.
  destruct (useEffect_body o d (run_cleanup (comp c2, cleanup_due c2))) as [s cl].
  eexists. split; [reflexivity|]. simpl in *. rewrite U3, Hc, R3. reflexivity.
Qed.

Lemma render_loops_pile_up_witness :
  exists c1 c2 c3, run two_pairs_events (initial 800 600) = Some c1 /\
    run [Frame 16; Props None None; Unmount] c1 = Some c2 /\
    animate_loops (comp c1) = 2%nat /\ animate_loops (comp c2) = 2%nat /\
    step (Props (Some "data:image/png;base64,EEEE") (Some "data:image/png;base64,FFFF")) c1
      = Some c3 /\
    animate_loops (comp c3) = 3%nat.
Proof.
  assert (H1 : run two_pairs_events (initial 800 600) = Some ?[c1])
    by (vm_compute; reflexivity).
  match type of H1 with
  | _ = Some ?c =>
      assert (H2 : run [Frame 16; Props None None; Unmount] c = Some ?[c2])
        by (vm_compute; reflexivity);
      assert (H0 : run [] c = Some c) by reflexivity
  end.
  destruct (render_loops_pile_up _ _ _ _ _ _ H1 H2) as (Hle & _ & _).
  destruct (render_loops_pile_up _ _ _ _ _ _ H1 H0) as (_ & _ & Hadd).
  destruct (Hadd (Some "data:image/png;base64,EEEE") (Some "data:image/png;base64,FFFF"))
    as (c3 & Hs & Hl); [reflexivity|reflexivity|discriminate|].
  do 3 eexists. split; [exact H1|]. split; [exact H2|].
  split; [reflexivity|]. split; [reflexivity|]. split; [exact Hs|exact Hl].
Defined.

(** The effect run that finds an image missing. *)
Lemma teardown_step (c : Canvas) (o d : option string) :
  sound c -> alive c = true ->
  hasContent (o, d) = false -> (o, d) <> props c ->
  exists c', step (Props o d) c = Some c' /\
    meshRef (comp c') = None /\
    (forall m, meshRef (comp c) = Some m ->
       (m ∉ scene_meshes (comp c')) /\
       forall r, r ∈ resources_at (comp c) m -> r ∉ live (comp c')) /\
    cleanup_due c' = false /\ resize_listeners (comp c') = 0%nat /\
    loads c' = loads c /\
    rendererRef (comp c') = rendererRef (comp c) /\
    animate_loops (comp c') = animate_loops (comp c).
Proof.
  intros (_ & HD & HS) Hal Hc Hne.
  simpl. rewrite Hal. rewrite bool_decide_eq_false_2 by exact Hne. simpl.
  unfold devices_ok in HD. rewrite Hal in HD.
  assert (HD0 : devices_ok_at (run_cleanup (comp c, cleanup_due c)) false true (loads c)).
  { unfold run_cleanup. simpl. destruct (cleanup_due c); [|exact HD].
    unfold devices_ok_at in *. simpl. destruct HD as (D1 & D2 & D3).
    split; [now rewrite D1|]. split; [exact D2|exact D3]. }
  destruct (useEffect_body_mounted o d _ _ HD0) as (U1 & _ & U3 & _ & U5).
  specialize (U5 Hc). rewrite Hc in U1, U3.
  set (s0 := run_cleanup (comp c, cleanup_due c)) in *.
  assert (Hv : scene_view s0 = scene_view (comp c))
    by apply (run_cleanup_scene_view (comp c, cleanup_due c)).
  assert (HS0 : scene_ok s0) by (now apply (scene_ok_view (comp c))).
  unfold scene_view in Hv. injection Hv as V1 V2 V3 V4 V5.
  destruct (run_cleanup_rest (comp c, cleanup_due c)) as (R1 & _ & R3). fold s0 in R1, R3.
  assert (Hl0 : resize_listeners s0 = 0%nat) by apply HD0.
  unfold rerender. fold s0.
  destruct (useEffect_body o d s0) as [s cl]. simpl in *. subst s cl.
  eexists. split; [reflexivity|]. simpl.
  pose proof (cleanupScene_rest s0) as Hrest. unfold rest_view in Hrest.
  injection Hrest as _ Q2 _ _ Q5 Q6 _.
  rewrite Q2, Q5, Q6, R3, Hl0.
  assert (Hmesh : meshRef (cleanupScene s0) = None /\
                  forall m, meshRef s0 = Some m ->
                    (m ∉ scene_meshes (cleanupScene s0)) /\
                    forall r, r ∈ resources_at s0 m -> r ∉ live (cleanupScene s0)).
  { destruct (meshRef s0) as [m|] eqn:Hm;
      [|rewrite cleanupScene_noop by auto; split; [exact Hm|discriminate]].
    pose proof (scene_tracked s0 HS0 m Hm) as Hin.
    destruct (sceneRef s0) as [sc|] eqn:Hsc;
      [|unfold scene_meshes in Hin; rewrite Hsc in Hin; inversion Hin].
    rewrite (cleanupScene_unfold s0 m sc Hm Hsc). simpl. split; [reflexivity|].
    intros m' [= <-]. split.
    - unfold scene_meshes. simpl.
      pose proof (scene_nodup s0 HS0) as Hnd. unfold scene_meshes in Hnd. rewrite Hsc in Hnd.
      destruct (remove_child_meshes m (children sc) Hnd) as [_ Hrm].
      rewrite Hrm. tauto.
    - intros r Hr. rewrite elem_of_difference, elem_of_list_to_set. tauto. }
  destruct Hmesh as [M1 M2]. split; [exact M1|]. split.
  { intros m Hm. rewrite <- V2 in Hm. destruct (M2 m Hm) as [M3 M4]. split; [exact M3|].
    intros r Hr. apply M4. unfold resources_at in *. now rewrite V3. }
  repeat split; auto.
Qed.

(** X7.  Taking an image away from a mounted component tears the mesh
    down: the effect run drops the tracked mesh from the scene, disposes
    its geometry, material and textures, clears [meshRef], and leaves no
    resize listener behind.  The devices stay, and loads that are pending
    are not cancelled. *)
Theorem removed_image_tears_mesh_down (es : list Event) (w h : Z) (c : Canvas)
    (o d : option string) :
  run es (initial w h) = Some c -> alive c = true ->
  hasContent (o, d) = false -> (o, d) <> props c ->
  exists c', step (Props o d) c = Some c' /\
    meshRef (comp c') = None /\
    (forall m, meshRef (comp c) = Some m ->
       (m ∉ scene_meshes (comp c')) /\
       forall r, r ∈ resources_at (comp c) m -> r ∉ live (comp c')) /\
    cleanup_due c' = false /\ resize_listeners (comp c') = 0%nat /\
    loads c' = loads c /\
    rendererRef (comp c') = rendererRef (comp c) /\
    animate_loops (comp c') = animate_loops (comp c).
Proof.
  intros Hrun. apply teardown_step. now apply (reached_sound es w h).
Qed.

Lemma removed_image_tears_mesh_down_witness :
  exists c c', run two_pairs_events (initial 800 600) = Some c /\
    meshRef (comp c) = Some 9%nat /\
    step (Props (Some "data:image/png;base64,CCCC") None) c = Some c' /\
    meshRef (comp c') = None /\ (9%nat ∉ scene_meshes (comp c')) /\
    resize_listeners (comp c') = 0%nat.
Proof.
  assert (H1 : run two_pairs_events (initial 800 600) = Some ?[c])
    by (vm_compute; reflexivity).
  destruct (removed_image_tears_mesh_down _ _ _ _ (Some "data:image/png;base64,CCCC") None H1)
    as (c' & Hs & Hm & Hgone & _ & Hl & _); [reflexivity|reflexivity|discriminate|].
  do 2 eexists. split; [exact H1|]. split; [reflexivity|]. split; [exact Hs|].
  split; [exact Hm|]. split; [|exact Hl]. apply (Hgone 9%nat). reflexivity.
Defined.

(** X8.  The renderer follows its mount exactly while both images are
    shown.  On a window resize of a mounted component with both images
    the one registered listener sets the renderer to the mount's new size
    and the camera to its aspect ratio; without both images, or after the
    unmount, no listener is registered and a resize changes neither. *)
Theorem resize_follows_mount_while_shown (es : list Event) (w h : Z) (c : Canvas)
    (w' h' : Z) :
  run es (initial w h) = Some c -> (0 < h')%Z ->
  exists c', step (Resize w' h') c = Some c' /\
    if alive c && hasContent (props c) then
      (renderer_size <$> rendererRef (comp c')) = Some (w', h') /\
      (aspect <$> cameraRef (comp c')) = Some (inject_Z w' / inject_Z h')%Q
    else
      rendererRef (comp c') = rendererRef (comp c) /\
      cameraRef (comp c') = cameraRef (comp c).
Proof.
  intros Hrun _.
  destruct (reached_grow _ _ _ _ Hrun) as ((_ & HD & _) & (L1 & L2) & _).
  eexists. split; [reflexivity|]. simpl.
  unfold devices_ok in HD. destruct HD as (D1 & D2 & D3).
  rewrite <- L1. unfold window_resize, handleResize, resize_mount. simpl. rewrite D1.
  destruct (cleanup_due c) eqn:Hcl; [|auto].
  assert (Hal : alive c = true) by (symmetry in L1; now apply andb_true_iff in L1).
  specialize (L2 eq_refl). specialize (D2 Hal).
  destruct (rendererRef (comp c)) as [r|] eqn:Hr; [|congruence].
  destruct D3 as (_ & sc & cam & ctl & _ & Hcam & _). rewrite Hcam.
  destruct (mountRef (comp c)) as [el|] eqn:Hel; [|congruence].
  simpl. rewrite Hr, Hcam. auto.
Qed.

Lemma resize_follows_mount_while_shown_witness :
  exists c c', run two_pairs_events (initial 800 600) = Some c /\
    step (Resize 1024 768) c = Some c' /\
    (renderer_size <$> rendererRef (comp c')) = Some (1024, 768) /\
    (aspect <$> cameraRef (comp c')) = Some (inject_Z 1024 / inject_Z 768)%Q.
Proof.
  assert (H1 : run two_pairs_events (initial 800 600) = Some ?[c])
    by (vm_compute; reflexivity).
  destruct (resize_follows_mount_while_shown _ _ _ _ 1024 768 H1) as (c' & Hs & Hr);
    [reflexivity|].
  do 2 eexists. split; [exact H1|]. split; [exact Hs|exact Hr].
Defined.

(** X9.  The loading spinner is never left on: after any sequence of
    callbacks, if [isLoadingAssets] is set then a load is still pending,
    and whichever way a pending load settles, its handler clears the
    flag. *)
Theorem loading_flag_never_stuck (es : list Event) (w h : Z) (c : Canvas) :
  run es (initial w h) = Some c ->
  (isLoadingAssets (comp c) = true -> loads c <> 0%nat) /\
  (loads c <> 0%nat ->
   (exists c', step Reject c = Some c' /\ isLoadingAssets (comp c') = false) /\
   forall cw ch dw dh,
     exists c', step (Resolve cw ch dw dh) c = Some c' /\ isLoadingAssets (comp c') = false).
Proof.
  intros Hrun. destruct (reached_grow _ _ _ _ Hrun) as ((_ & _ & HS) & _ & HG).
  split; [exact HG|]. intros Hl.
  destruct (loads c) as [|n] eqn:El; [congruence|].
  destruct (reached_scene _ _ _ _ _ Hrun El) as (sc & Hsc).
  split.
  - simpl. rewrite El. eexists. split; reflexivity.
  - intros cw ch dw dh. simpl. rewrite El. eexists. split; [reflexivity|]. simpl.
    apply (load_resolved_attached cw ch dw dh (comp c) sc HS Hsc).
Qed.

Lemma loading_flag_never_stuck_witness :
  exists c c', run withdrawn_events (initial 800 600) = Some c /\
    isLoadingAssets (comp c) = true /\ loads c = 1%nat /\
    step Reject c = Some c' /\ isLoadingAssets (comp c') = false.
Proof.
  assert (H1 : run withdrawn_events (initial 800 600) = Some ?[c])
    by (vm_compute; reflexivity).
  destruct (loading_flag_never_stuck _ _ _ _ H1) as (_ & Hset).
  destruct Hset as ((c' & Hs & Hf) & _); [discriminate|].
  do 2 eexists. split; [exact H1|]. split; [reflexivity|]. split; [reflexivity|].
  split; [exact Hs|exact Hf].
Defined.

(** * Rebuilds, failed loads and [cleanupScene] in the states the component reaches *)

Lemma filter_keeps_all {A} (f : A -> bool) (l : list A) :
  (forall x, x ∈ l -> f x = true) -> List.filter f l = l.
Proof.
  induction l as [|a l IH]; intros H; [reflexivity|]. simpl.
  rewrite (H a) by constructor. f_equal. apply IH. intros x Hx. apply H. now constructor.
Qed.

(** Removing a mesh from children whose meshes are distinct leaves the
    other meshes, in their order. *)
Lemma mesh_children_remove_child m l :
  NoDup (mesh_children l) ->
  mesh_children (remove_child m l) =
  List.filter (fun a => negb (Nat.eqb a m)) (mesh_children l).
Proof.
  induction l as [|o l IH]; intros Hnd; [reflexivity|].
  destruct o as [c i|c i|b]; simpl in *; try (now apply IH).
  apply NoDup_cons in Hnd as [Hb Hnd].
  destruct (Nat.eqb_spec b m) as [->|Hne]; simpl.
  - symmetry. apply filter_keeps_all. intros x Hx.
    destruct (Nat.eqb_spec x m) as [->|]; [contradiction|reflexivity].
  - f_equal. now apply IH.
Qed.

Lemma untracked_subset s m : m ∈ untracked s -> m ∈ scene_meshes s.
Proof.
  unfold untracked. destruct (meshRef s); [|auto].
  rewrite !list_elem_of_In. intros H. now apply List.filter_In in H.
Qed.

Lemma cleanupScene_heap s :
  heap (cleanupScene s) = heap s /\ next_id (cleanupScene s) = next_id s.
Proof.
  destruct (meshRef s) as [m|] eqn:Hm; [|now rewrite cleanupScene_noop by auto].
  destruct (sceneRef s) as [sc|] eqn:Hs; [|now rewrite cleanupScene_noop by auto].
  now rewrite (cleanupScene_unfold s m sc Hm Hs).
Qed.

(** [cleanupScene] in a state whose scene is sound: the tracked mesh
    leaves the scene and the GPU, every other mesh stays. *)
Lemma cleanupScene_reached s :
  scene_ok s ->
  meshRef (cleanupScene s) = None /\
  scene_meshes (cleanupScene s) = untracked s /\
  live (cleanupScene s) = live s ∖ list_to_set (tracked_resources s) /\
  untracked (cleanupScene s) = untracked s.
Proof.
  intros Hok.
  destruct (meshRef s) as [m|] eqn:Hm.
  - pose proof (scene_tracked s Hok m Hm) as Hin.
    destruct (sceneRef s) as [sc|] eqn:Hs;
      [|unfold scene_meshes in Hin; rewrite Hs in Hin; inversion Hin].
    rewrite (cleanupScene_unfold s m sc Hm Hs).
    pose proof (scene_nodup s Hok) as Hnd. unfold scene_meshes in Hnd. rewrite Hs in Hnd.
    unfold untracked, tracked_resources, scene_meshes. simpl. rewrite Hm, Hs.
    rewrite (mesh_children_remove_child m _ Hnd). auto.
  - rewrite cleanupScene_noop by auto. unfold untracked, tracked_resources. rewrite Hm.
    repeat split; auto. set_solver.
Qed.

Lemma useEffect_body_heap o d s :
  heap (fst (useEffect_body o d s)) = heap s /\
  next_id (fst (useEffect_body o d s)) = next_id s.
Proof.
  unfold useEffect_body. destruct (mountRef s) as [el|]; [|auto].
  destruct (negb (truthy o) || negb (truthy d)); [apply cleanupScene_heap|].
  cbv zeta. cbn [fst].
  set (sA := match rendererRef (setIsLoadingAssets true s) with
             | Some _ => _ | None => _ end).
  assert (HA : heap sA = heap s /\ next_id sA = next_id s)
    by (subst sA; simpl; destruct (rendererRef s); auto).
  destruct (cleanupScene_heap sA) as [H1 H2].
  destruct (animate (cleanupScene sA)); simpl; rewrite H1, H2; exact HA.
Qed.

(** What a callback does to the resources meshes refer to: nothing,
    except that a settled load adds a mesh with four fresh ones. *)
Lemma step_resources e c c' :
  step e c = Some c' -> sound c ->
  forall a, resources_at (comp c') a = resources_at (comp c) a \/
            resources_at (comp c') a =
              [2 + next_id (comp c); next_id (comp c); 1 + next_id (comp c);
               3 + next_id (comp c)]%nat.
Proof.
  intros Hstep (_ & HD & HS) a. unfold devices_ok in HD.
  assert (Hshape : forall s', same_shape (comp c) s' ->
            resources_at s' a = resources_at (comp c) a)
    by (intros s' (_ & _ & _ & _ & H); apply H).
  destruct e as [o d|cw ch dw dh| |now|w h|t0 t1| | |]; simpl in Hstep.
  - destruct (alive c && negb (bool_decide ((o, d) = props c)));
      [|injection Hstep as <-; auto].
    unfold rerender in Hstep.
    destruct (useEffect_body_heap o d (run_cleanup (comp c, cleanup_due c))) as [H1 _].
    destruct (useEffect_body o d (run_cleanup (comp c, cleanup_due c))) as [s cl].
    injection Hstep as <-. left. unfold resources_at. simpl in *. rewrite H1.
    unfold run_cleanup. simpl. now destruct (cleanup_due c).
  - destruct (loads c) as [|n] eqn:Hl; injection Hstep as <-; simpl; [auto|].
    destruct (load_resolved_devices_ok cw ch dw dh _ _ _ _ HD) as (Hsc & _).
    destruct (sceneRef (comp c)) as [sc|] eqn:Hs; [|congruence].
    destruct (load_resolved_attached cw ch dw dh (comp c) sc HS Hs)
      as (_ & _ & A3 & _ & A5 & _).
    destruct (decide (a = 4 + next_id (comp c))%nat) as [->|Hne]; [now right|].
    left. unfold resources_at. now rewrite A5.
  - destruct (loads c); injection Hstep as <-; auto.
  - set (s := Nat.iter _ _ _) in *.
    pose proof (run_rec_frames_same_shape now (rec_frames c) s) as Hv.
    destruct (run_rec_frames now (rec_frames c) s) as [s' waiting].
    injection Hstep as <-. simpl in *. left. apply Hshape.
    eapply same_shape_trans; [|exact Hv]. apply same_shape_view, animate_frames_view.
  - injection Hstep as <-. left. apply Hshape, same_shape_view, window_resize_scene_view.
  - destruct (alive c && negb (toolbar_disabled (props c) (comp c)));
      [|injection Hstep as <-; auto].
    pose proof (startRecording_same_shape t0 t1 (comp c)) as Hv.
    destruct (startRecording t0 t1 (comp c)) as [[s cl] again].
    injection Hstep as <-. left. now apply Hshape.
  - destruct (alive c && negb (toolbar_disabled (props c) (comp c)));
      injection Hstep as <-; auto.
    left. apply Hshape, same_shape_view, exportAsImage_scene_view.
  - destruct (recorder_onstop (comp c)) as [s|] eqn:Hs; [|discriminate].
    injection Hstep as <-. left. now apply Hshape, recorder_onstop_same_shape.
  - destruct (alive c); injection Hstep as <-; auto.
    left. apply Hshape, same_shape_view, (unmount_scene_view (comp c, _)).
Qed.

Lemma step_distinct e c c' :
  step e c = Some c' -> sound c -> distinct_ok (comp c) -> distinct_ok (comp c').
Proof.
  intros Hstep Hs Hd a.
  destruct (step_resources e c c' Hstep Hs a) as [-> | ->]; [apply Hd|].
  apply NoDup_four.
Qed.

Lemma run_distinct es : forall c c',
  run es c = Some c' -> sound c -> distinct_ok (comp c) ->
  sound c' /\ distinct_ok (comp c').
Proof.
  induction es as [|e es IH]; intros c c' Hrun Hs Hd; simpl in Hrun.
  - injection Hrun as <-. auto.
  - destruct (step_sound e c Hs) as (c1 & Hstep & Hs1). rewrite Hstep in Hrun.
    apply (IH c1 c' Hrun Hs1). now apply (step_distinct e c).
Qed.

Lemma reached_distinct es w h c :
  run es (initial w h) = Some c -> sound c /\ distinct_ok (comp c).
Proof.
  intros H. apply (run_distinct es (initial w h) c H); [apply initial_sound|].
  intros a. unfold resources_at. simpl. rewrite lookup_empty. constructor.
Qed.

(** The resources of distinct meshes laid end to end. *)
Lemma flat_map_four (f : nat -> list nat) (l : list nat) :
  NoDup l ->
  (forall m, m ∈ l -> NoDup (f m) /\ length (f m) = 4%nat) ->
  (forall m1 m2 r, m1 ∈ l -> m2 ∈ l -> r ∈ f m1 -> r ∈ f m2 -> m1 = m2) ->
  NoDup (flat_map f l) /\ length (flat_map f l) = (4 * length l)%nat.
Proof.
  induction l as [|m l IH]; intros Hnd Hf Hsh; simpl; [split; [constructor|reflexivity]|].
  apply NoDup_cons in Hnd as [Hm Hnd].
  assert (IH' : NoDup (flat_map f l) /\ length (flat_map f l) = (4 * length l)%nat).
  { apply IH; [exact Hnd| |].
    - intros a Ha. apply Hf. now right.
    - intros m1 m2 r H1 H2. apply Hsh; now right. }
  destruct IH' as [I1 I2].
  destruct (Hf m) as [F1 F2]; [now left|].
  split.
  - apply NoDup_app. split; [exact F1|]. split; [|exact I1].
    intros r Hr Hin. apply list_elem_of_In, in_flat_map in Hin.
    destruct Hin as (m' & Hm' & Hr'). apply list_elem_of_In in Hm', Hr'.
    assert (m = m') by (apply (Hsh m m' r); [now left|now right|exact Hr|exact Hr']).
    subst m'. contradiction.
  - rewrite length_app, F2, I2. lia.
Qed.

(** In every state the component reaches, the live GPU resources
    attached to the scene are four for each attached mesh. *)
Lemma gpu_count_four s :
  scene_ok s -> distinct_ok s -> gpu_count s = (4 * length (scene_meshes s))%nat.
Proof.
  intros Hok Hd.
  destruct (flat_map_four (resources_at s) (scene_meshes s)) as [N L].
  - apply (scene_nodup s Hok).
  - intros m Hm. split; [apply Hd|].
    destruct (scene_live s Hok m Hm)
      as (mesh & Hh & (g & mt & t1 & t2 & E1 & E2 & E3 & E4) & _).
    unfold resources_at. rewrite Hh. unfold mesh_resources. now rewrite E1, E2, E3, E4.
  - intros m1 m2 r H1 H2 R1 R2.
    destruct (scene_live s Hok m1 H1) as (mesh1 & Hh1 & _).
    destruct (scene_live s Hok m2 H2) as (mesh2 & Hh2 & _).
    unfold resources_at in R1, R2. rewrite Hh1 in R1. rewrite Hh2 in R2.
    apply (scene_unshared s Hok m1 m2 mesh1 mesh2 r); assumption.
  - unfold gpu_count. fold (scene_resources s) in N, L.
    assert (E : live s ∩ list_to_set (scene_resources s) =
                list_to_set (scene_resources s)).
    { apply set_eq. intros r. rewrite elem_of_intersection, elem_of_list_to_set.
      split; [tauto|]. intros Hr. split; [|exact Hr].
      unfold scene_resources in Hr. apply list_elem_of_In, in_flat_map in Hr.
      destruct Hr as (m & Hm & Hr). apply list_elem_of_In in Hm, Hr.
      destruct (scene_live s Hok m Hm) as (mesh & Hh & _ & Hl).
      apply Hl. unfold resources_at in Hr. now rewrite Hh in Hr. }
    rewrite E, size_list_to_set by exact N. exact L.
Qed.

(** The effect body on a mounted component in a state it can reach,
    whatever the pair: the tracked mesh leaves the scene and the GPU, what
    else is attached stays, and nothing is logged. *)
Lemma useEffect_body_scene o d s lo :
  devices_ok_at s false true lo -> scene_ok s ->
  let s' := fst (useEffect_body o d s) in
  meshRef s' = None /\ scene_meshes s' = untracked s /\
  live s' = live s ∖ list_to_set (tracked_resources s) /\
  log s' = log s.
Proof.
  intros HD Hok s'.
  assert (Hlog : log s' = log s).
  { pose proof (useEffect_body_capture o d s) as Hc. unfold capture_state in Hc.
    now injection Hc as _ _ _ Hc. }
  cut (meshRef s' = None /\ scene_meshes s' = untracked s /\
       live s' = live s ∖ list_to_set (tracked_resources s)); [tauto|].
  clear Hlog. subst s'.
  destruct (cleanupScene_reached s Hok) as (K1 & K2 & K3 & _).
  pose proof HD as (_ & H2 & H3).
  unfold useEffect_body.
  destruct (mountRef s) as [el|] eqn:Hel; [|now contradiction H2].
  destruct (negb (truthy o) || negb (truthy d)); [auto|].
  cbv zeta. cbn [fst].
  change (rendererRef (setIsLoadingAssets true s)) with (rendererRef s).
  set (sA := match rendererRef s with Some _ => _ | None => _ end).
  assert (HB : meshRef (cleanupScene sA) = None /\
               scene_meshes (cleanupScene sA) = untracked s /\
               live (cleanupScene sA) = live s ∖ list_to_set (tracked_resources s)).
  { destruct (rendererRef s) as [r|] eqn:Hr.
    - assert (Hv : scene_view sA = scene_view s) by reflexivity.
      assert (HokA : scene_ok sA) by (now apply (scene_ok_view s)).
      destruct (cleanupScene_reached sA HokA) as (B1 & B2 & B3 & _).
      split; [exact B1|]. split; [exact B2|exact B3].
    - destruct H3 as (E1 & _).
      assert (Hsm : scene_meshes s = []) by (unfold scene_meshes; now rewrite E1).
      assert (Hmr : meshRef s = None).
      { destruct (meshRef s) as [m|] eqn:Hm; [|reflexivity].
        pose proof (scene_tracked s Hok m Hm) as Hin. rewrite Hsm in Hin. inversion Hin. }
      assert (HmA : meshRef sA = None) by exact Hmr.
      rewrite (cleanupScene_noop sA) by auto.
      split; [exact HmA|]. unfold untracked, tracked_resources. rewrite Hmr, Hsm.
      split; [reflexivity|]. subst sA. simpl. set_solver. }
  destruct HB as (B1 & B2 & B3).
  destruct (animate (cleanupScene sA)); simpl; unfold scene_meshes in *; simpl; auto.
Qed.

(** The effect of a mounted component whose props changed, in any state
    it can reach. *)
Lemma effect_step o d c :
  sound c -> alive c = true -> (o, d) <> props c ->
  exists c', step (Props o d) c = Some c' /\ sound c' /\
    meshRef (comp c') = None /\ scene_meshes (comp c') = untracked (comp c) /\
    live (comp c') = live (comp c) ∖ list_to_set (tracked_resources (comp c)) /\
    log (comp c') = log (comp c) /\
    loads c' = (if hasContent (o, d) then S (loads c) else loads c) /\
    props c' = (o, d) /\ alive c' = true.
Proof.
  intros Hs Hal Hne.
  destruct (step_sound (Props o d) c Hs) as (c' & Hstep & Hs').
  exists c'. split; [exact Hstep|]. split; [exact Hs'|].
  destruct Hs as (_ & HD & HS). unfold devices_ok in HD. rewrite Hal in HD.
  simpl in Hstep. rewrite Hal, (bool_decide_eq_false_2 _ Hne) in Hstep. simpl in Hstep.
  set (s0 := run_cleanup (comp c, cleanup_due c)) in *.
  assert (HD0 : devices_ok_at s0 false true (loads c)).
  { subst s0. unfold run_cleanup. simpl. destruct (cleanup_due c); [|exact HD].
    unfold devices_ok_at in *. simpl. destruct HD as (D1 & D2 & D3).
    split; [now rewrite D1|]. split; [exact D2|exact D3]. }
  assert (Hv : scene_ok s0 /\ untracked s0 = untracked (comp c) /\
               tracked_resources s0 = tracked_resources (comp c) /\
               live s0 = live (comp c) /\ log s0 = log (comp c)).
  { subst s0. unfold run_cleanup. simpl. destruct (cleanup_due c); [|auto].
    split; [|auto]. apply (scene_ok_view (comp c)); [reflexivity|exact HS]. }
  destruct Hv as (HS0 & V1 & V2 & V3 & V4).
  destruct (useEffect_body_scene o d s0 (loads c) HD0 HS0) as (E1 & E2 & E3 & E4).
  destruct (useEffect_body_mounted o d s0 (loads c) HD0) as (U1 & _).
  unfold rerender in Hstep. fold s0 in Hstep.
  destruct (useEffect_body o d s0) as [s cl]. simpl in *. subst cl.
  injection Hstep as <-. simpl.
  rewrite E1, E2, E3, E4, V1, V2, V3, V4. repeat split; auto.
Qed.

Lemma valid_pair_content i : valid_pair i -> hasContent (pair_props i) = true.
Proof.
  intros (H1 & H2 & _). unfold hasContent, pair_props, truthy. simpl.
  apply String.eqb_neq in H1, H2. now rewrite H1, H2.
Qed.

Lemma run_two e1 e2 c c1 c2 :
  step e1 c = Some c1 -> step e2 c1 = Some c2 -> run [e1; e2] c = Some c2.
Proof.
  intros H1 H2.
  change (run [e1; e2] c)
    with (match step e1 c with Some c' => run [e2] c' | None => None end).
  rewrite H1.
  change (run [e2] c1) with (match step e2 c1 with Some c' => Some c' | None => None end).
  now rewrite H2.
Qed.

(** One rebuild run by itself, from a state the component can reach
    with no load pending. *)
Lemma rebuild_events_run i c :
  sound c -> distinct_ok (comp c) -> alive c = true -> loads c = 0%nat ->
  valid_pair i -> pair_props i <> props c ->
  exists mid c',
    step (Props (Some (originalImageUri i)) (Some (depthMapUri i))) c = Some mid /\
    run (rebuild_events i) c = Some c' /\
    meshRef (comp mid) = None /\ scene_meshes (comp mid) = untracked (comp c) /\
    (forall r, r ∈ tracked_resources (comp c) -> r ∉ live (comp mid)) /\
    sound c' /\ distinct_ok (comp c') /\ alive c' = true /\ loads c' = 0%nat /\
    props c' = pair_props i /\
    (exists m, meshRef (comp c') = Some m /\
               scene_meshes (comp c') = untracked (comp c) ++ [m]) /\
    untracked (comp c') = untracked (comp c).
Proof.
  intros Hs Hd Hal Hl Hv Hne.
  destruct (effect_step _ _ c Hs Hal Hne)
    as (mid & Hstep & Hsm & M1 & M2 & M3 & _ & M5 & M6 & M7).
  fold (pair_props i) in M5, M6. rewrite (valid_pair_content i Hv), Hl in M5.
  pose proof (step_distinct _ _ _ Hstep Hs Hd) as Hdm.
  destruct (step_sound (Resolve (fst (original_size i)) (snd (original_size i))
                          (fst (depth_size i)) (snd (depth_size i))) mid Hsm)
    as (c' & Hstep2 & Hs').
  pose proof (step_distinct _ _ _ Hstep2 Hsm Hdm) as Hd'.
  exists mid, c'. split; [exact Hstep|]. split.
  { now apply (run_two _ _ c mid c'). }
  split; [exact M1|]. split; [exact M2|]. split.
  { intros r Hr. rewrite M3. rewrite elem_of_difference, elem_of_list_to_set. tauto. }
  split; [exact Hs'|]. split; [exact Hd'|].
  pose proof Hsm as (_ & HDm & HSm). unfold devices_ok in HDm. rewrite M5 in HDm.
  destruct (load_resolved_devices_ok (fst (original_size i)) (snd (original_size i))
              (fst (depth_size i)) (snd (depth_size i)) _ _ _ _ HDm) as (Hsc & _).
  destruct (sceneRef (comp mid)) as [sc|] eqn:Hscm; [|congruence].
  destruct (load_resolved_attached (fst (original_size i)) (snd (original_size i))
              (fst (depth_size i)) (snd (depth_size i)) (comp mid) sc HSm Hscm)
    as (A1 & A2 & _).
  simpl in Hstep2. rewrite M5 in Hstep2. injection Hstep2 as <-. simpl.
  split; [exact M7|]. split; [reflexivity|]. split; [exact M6|].
  rewrite A1, A2, M2. split; [eauto|].
  unfold untracked at 1. rewrite A1, A2, M2. rewrite List.filter_app. simpl.
  rewrite Nat.eqb_refl. simpl. rewrite app_nil_r.
  apply filter_keeps_all. intros x Hx.
  apply untracked_subset in Hx.
  pose proof (scene_meshes_fresh (comp c) x (proj2 (proj2 Hs)) Hx) as Hlt.
  assert (Hn : next_id (comp mid) = next_id (comp c)).
  { simpl in Hstep. rewrite Hal, (bool_decide_eq_false_2 _ Hne) in Hstep. simpl in Hstep.
    unfold rerender in Hstep.
    destruct (useEffect_body_heap (Some (originalImageUri i)) (Some (depthMapUri i))
                (run_cleanup (comp c, cleanup_due c))) as [_ H2].
    destruct (useEffect_body _ _ _) as [s cl]. injection Hstep as <-. simpl in *.
    rewrite H2. unfold run_cleanup. simpl. now destruct (cleanup_due c). }
  apply negb_true_iff, Nat.eqb_neq. lia.
Qed.

Lemma changing_snoc l : forall p i,
  changing p (l ++ [i]) <-> changing p l /\ pair_props i <> last_props p l.
Proof.
  induction l as [|j l IH]; intros p i; simpl; [tauto|].
  rewrite IH. unfold last_props. simpl. tauto.
Qed.

Lemma rebuilds_events_snoc l i :
  rebuilds_events (l ++ [i]) = rebuilds_events l ++ rebuild_events i.
Proof. unfold rebuilds_events. rewrite flat_map_app. f_equal. Qed.

(** Rebuilds one after the other leave what [meshRef] does not point to
    as it is. *)
Lemma rebuilds_events_run l : forall c,
  sound c -> distinct_ok (comp c) -> alive c = true -> loads c = 0%nat ->
  Forall valid_pair l -> changing (props c) l ->
  exists c', run (rebuilds_events l) c = Some c' /\
    sound c' /\ distinct_ok (comp c') /\ alive c' = true /\ loads c' = 0%nat /\
    props c' = last_props (props c) l /\
    untracked (comp c') = untracked (comp c).
Proof.
  induction l as [|i l IH]; intros c Hs Hd Hal Hl Hv Hch.
  - exists c. split; [reflexivity|]. split; [exact Hs|]. split; [exact Hd|].
    split; [exact Hal|]. split; [exact Hl|]. split; reflexivity.
  - apply Forall_cons in Hv as [Hi Hv]. destruct Hch as [Hne Hch].
    destruct (rebuild_events_run i c Hs Hd Hal Hl Hi Hne)
      as (mid & c1 & _ & Hrun & _ & _ & _ & Hs1 & Hd1 & Hal1 & Hl1 & Hp1 & _ & Hu1).
    rewrite <- Hp1 in Hch.
    destruct (IH c1 Hs1 Hd1 Hal1 Hl1 Hv Hch) as (c' & R & S' & D' & A' & L' & P' & U').
    exists c'. split.
    { change (rebuilds_events (i :: l)) with (rebuild_events i ++ rebuilds_events l).
      rewrite run_app, Hrun. exact R. }
    split; [exact S'|]. split; [exact D'|]. split; [exact A'|]. split; [exact L'|].
    split; [rewrite P', Hp1; reflexivity|congruence].
Qed.

(** C2, as stated, fails: once two loads have overlapped, rebuilds that
    run strictly one after the other, with different valid pairs, leave
    the resources of two meshes live, not of one.  The mesh of the first
    load stays in the scene, where no rebuild reaches it. *)
Lemma overlap_outlives_sequential_rebuilds :
  exists c after,
    run overlapping_events (initial 800 600) = Some c /\
    alive c = true /\ loads c = 0%nat /\
    Forall valid_pair [sample_pair; other_pair] /\
    changing (props c) [sample_pair; other_pair] /\
    run (rebuilds_events [sample_pair; other_pair]) c = Some after /\
    scene_meshes (comp after) = [4%nat; 19%nat] /\
    gpu_count (comp after) = 8%nat.
Proof.
  assert (H1 : run overlapping_events (initial 800 600) = Some ?[c])
    by (vm_compute; reflexivity).
  match type of H1 with
  | _ = Some ?c =>
      assert (H2 : run (rebuilds_events [sample_pair; other_pair]) c = Some ?[after])
        by (vm_compute; reflexivity)
  end.
  do 2 eexists. split; [exact H1|]. split; [reflexivity|]. split; [reflexivity|].
  split; [repeat constructor; (apply sample_pair_valid || apply other_pair_valid)|].
  split; [simpl; repeat split; discriminate|].
  split; [exact H2|]. split; vm_compute; reflexivity.
Qed.

(** C2, amended.  Take a state the component can reach, mounted and
    with no load pending, and from there any number of rebuilds with
    valid pairs, each different from the one before, run one after the
    other, and then one more.  That rebuild first removes the tracked mesh
    from the scene and disposes its geometry, material and two textures:
    when the effect body has run, and before the new mesh is built, none
    of them is live and [meshRef] is null.  The meshes that [meshRef] did
    not point to when the rebuilds began are not touched: they are what
    the scene holds between the effect and the load, and after the rebuild
    the scene holds them and the new mesh.  The live GPU resources
    attached to the scene are always four for each attached mesh; after
    the rebuilds they are four times one more than the number of meshes
    that were untracked at the start, so the count of a single mesh when
    there was none of those. *)
Theorem rebuilds_keep_four_per_mesh (es : list Event) (w h : Z) (c : Canvas)
    (inputs : list InputPair) (i : InputPair) :
  run es (initial w h) = Some c -> alive c = true -> loads c = 0%nat ->
  Forall valid_pair inputs -> valid_pair i -> changing (props c) (inputs ++ [i]) ->
  exists before mid after,
    run (rebuilds_events inputs) c = Some before /\
    step (Props (Some (originalImageUri i)) (Some (depthMapUri i))) before = Some mid /\
    run (rebuilds_events (inputs ++ [i])) c = Some after /\
    (forall r, r ∈ tracked_resources (comp before) -> r ∉ live (comp mid)) /\
    meshRef (comp mid) = None /\
    scene_meshes (comp mid) = untracked (comp c) /\
    (exists m, meshRef (comp after) = Some m /\
               scene_meshes (comp after) = untracked (comp c) ++ [m]) /\
    gpu_count (comp c) = (4 * length (scene_meshes (comp c)))%nat /\
    gpu_count (comp mid) = (4 * length (untracked (comp c)))%nat /\
    gpu_count (comp after) = (4 * (length (untracked (comp c)) + 1))%nat /\
    (untracked (comp c) = [] ->
     gpu_count (comp after) = 4%nat /\ length (scene_meshes (comp after)) = 1%nat).
Proof.
  intros Hrun Hal Hl Hv Hi Hch.
  destruct (reached_distinct _ _ _ _ Hrun) as [Hs Hd].
  apply changing_snoc in Hch as [Hch Hne].
  destruct (rebuilds_events_run inputs c Hs Hd Hal Hl Hv Hch)
    as (before & Rb & Sb & Db & Ab & Lb & Pb & Ub).
  rewrite <- Pb in Hne.
  destruct (rebuild_events_run i before Sb Db Ab Lb Hi Hne)
    as (mid & after & Hstep & Ra & M1 & M2 & M3 & Sa & Da & _ & _ & _ & (m & A1 & A2) & _).
  rewrite Ub in M2, A2.
  assert (Smid : sound mid /\ distinct_ok (comp mid)).
  { destruct (step_sound (Props (Some (originalImageUri i)) (Some (depthMapUri i)))
                before Sb) as (mid' & E & S').
    rewrite Hstep in E. injection E as <-. split; [exact S'|].
    now apply (step_distinct _ before mid Hstep). }
  exists before, mid, after. split; [exact Rb|]. split; [exact Hstep|]. split.
  { rewrite rebuilds_events_snoc, run_app, Rb. exact Ra. }
  split; [exact M3|]. split; [exact M1|]. split; [exact M2|]. split; [eauto|].
  assert (Ga : gpu_count (comp after) = (4 * (length (untracked (comp c)) + 1))%nat).
  { rewrite (gpu_count_four _ (proj2 (proj2 Sa)) Da), A2, length_app. reflexivity. }
  split; [apply (gpu_count_four _ (proj2 (proj2 Hs)) Hd)|]. split.
  { destruct Smid as [Sm Dm]. now rewrite (gpu_count_four _ (proj2 (proj2 Sm)) Dm), M2. }
  split; [exact Ga|].
  intros Hu. rewrite Ga, A2, Hu. split; reflexivity.
Qed.

Lemma rebuilds_keep_four_per_mesh_witness :
  exists after,
    run (rebuilds_events ([sample_pair; other_pair] ++ [sample_pair])) (initial 800 600)
      = Some after /\
    gpu_count (comp after) = 4%nat /\ length (scene_meshes (comp after)) = 1%nat.
Proof.
  destruct (rebuilds_keep_four_per_mesh [] 800 600 (initial 800 600)
              [sample_pair; other_pair] sample_pair)
    as (before & mid & after & _ & _ & Ra & _ & _ & _ & _ & _ & _ & _ & H4).
  - reflexivity.
  - reflexivity.
  - reflexivity.
  - repeat constructor; (apply sample_pair_valid || apply other_pair_valid).
  - apply sample_pair_valid.
  - simpl. repeat split; discriminate.
  - exists after. split; [exact Ra|]. apply H4. reflexivity.
Defined.

(** ** What is gone stays gone *)

(** A callback brings nothing old back: a mesh in the scene, or a live
    resource, was there before the callback or was created by it. *)
Lemma step_nothing_returns e c c' :
  step e c = Some c' -> sound c ->
  (next_id (comp c) <= next_id (comp c'))%nat /\
  (forall m, m ∈ scene_meshes (comp c') ->
     m ∈ scene_meshes (comp c) \/ (next_id (comp c) <= m)%nat) /\
  (forall r, r ∈ live (comp c') -> r ∈ live (comp c) \/ (next_id (comp c) <= r)%nat).
Proof.
  intros Hstep Hs.
  assert (Hshape : forall s', same_shape (comp c) s' ->
            (next_id (comp c) <= next_id s')%nat /\
            (forall m, m ∈ scene_meshes s' ->
               m ∈ scene_meshes (comp c) \/ (next_id (comp c) <= m)%nat) /\
            (forall r, r ∈ live s' -> r ∈ live (comp c) \/ (next_id (comp c) <= r)%nat)).
  { intros s' (A1 & _ & A3 & A4 & _). unfold scene_meshes. rewrite A1, A3, A4. auto. }
  assert (Hsame : comp c' = comp c ->
            (next_id (comp c) <= next_id (comp c'))%nat /\
            (forall m, m ∈ scene_meshes (comp c') ->
               m ∈ scene_meshes (comp c) \/ (next_id (comp c) <= m)%nat) /\
            (forall r, r ∈ live (comp c') ->
               r ∈ live (comp c) \/ (next_id (comp c) <= r)%nat))
    by (intros ->; auto).
  destruct e as [o d|cw ch dw dh| |now|w h|t0 t1| | |].
  - destruct (alive c) eqn:Hal;
      [|simpl in Hstep; rewrite Hal in Hstep; injection Hstep as <-; auto].
    destruct (decide ((o, d) = props c)) as [He|Hne].
    { simpl in Hstep. rewrite Hal, (bool_decide_eq_true_2 _ He) in Hstep.
      injection Hstep as <-. auto. }
    destruct (effect_step o d c Hs Hal Hne) as (c1 & E & _ & _ & E2 & E3 & _).
    rewrite Hstep in E. injection E as <-.
    assert (Hn : next_id (comp c') = next_id (comp c)).
    { simpl in Hstep. rewrite Hal, (bool_decide_eq_false_2 _ Hne) in Hstep.
      unfold rerender in Hstep.
      destruct (useEffect_body_heap o d (run_cleanup (comp c, cleanup_due c))) as [_ H2].
      destruct (useEffect_body o d (run_cleanup (comp c, cleanup_due c))) as [s cl].
      injection Hstep as <-. simpl in *. rewrite H2.
      unfold run_cleanup. simpl. now destruct (cleanup_due c). }
    rewrite Hn, E2, E3. split; [lia|]. split.
    + intros m Hm. left. now apply untracked_subset.
    + intros r Hr. left. set_solver.
  - destruct Hs as (_ & HD & HS). unfold devices_ok in HD. simpl in Hstep.
    destruct (loads c) as [|n] eqn:Hl; injection Hstep as <-; simpl; [auto|].
    destruct (load_resolved_devices_ok cw ch dw dh _ _ _ _ HD) as (Hsc & _).
    destruct (sceneRef (comp c)) as [sc|] eqn:Hsr; [|congruence].
    destruct (load_resolved_attached cw ch dw dh (comp c) sc HS Hsr)
      as (_ & A2 & _ & A4 & _ & A6 & _).
    rewrite A2, A6. split; [lia|]. split.
    + intros m Hm. apply elem_of_app in Hm as [Hm|Hm]; [now left|].
      apply list_elem_of_singleton in Hm. right. lia.
    + intros r Hr. apply A4 in Hr as [Hr|Hr]; [now left|right; lia].
  - simpl in Hstep. destruct (loads c); injection Hstep as <-; [auto|].
    exact (Hshape _ (same_shape_view (comp c) (load_catch (comp c)) eq_refl)).
  - simpl in Hstep. set (s := Nat.iter _ _ _) in *.
    pose proof (run_rec_frames_same_shape now (rec_frames c) s) as Hv.
    destruct (run_rec_frames now (rec_frames c) s) as [s' waiting].
    injection Hstep as <-. simpl in *. apply Hshape.
    eapply same_shape_trans; [|exact Hv]. apply same_shape_view, animate_frames_view.
  - simpl in Hstep. injection Hstep as <-.
    apply Hshape, same_shape_view, window_resize_scene_view.
  - simpl in Hstep. destruct (alive c && negb (toolbar_disabled (props c) (comp c)));
      [|injection Hstep as <-; auto].
    pose proof (startRecording_same_shape t0 t1 (comp c)) as Hv.
    destruct (startRecording t0 t1 (comp c)) as [[s cl] again].
    injection Hstep as <-. now apply Hshape.
  - simpl in Hstep. destruct (alive c && negb (toolbar_disabled (props c) (comp c)));
      injection Hstep as <-; auto.
    apply Hshape, same_shape_view, exportAsImage_scene_view.
  - simpl in Hstep. destruct (recorder_onstop (comp c)) as [s|] eqn:Hso; [|discriminate].
    injection Hstep as <-. now apply Hshape, recorder_onstop_same_shape.
  - simpl in Hstep. destruct (alive c); injection Hstep as <-; auto.
    apply Hshape, same_shape_view, (unmount_scene_view (comp c, _)).
Qed.

(** A mesh that has left the scene, and a resource that was disposed,
    are not seen again, whatever callbacks run. *)
Lemma run_nothing_returns es : forall c c',
  run es c = Some c' -> sound c ->
  (next_id (comp c) <= next_id (comp c'))%nat /\
  (forall m, (m < next_id (comp c))%nat -> m ∉ scene_meshes (comp c) ->
     m ∉ scene_meshes (comp c')) /\
  (forall r, (r < next_id (comp c))%nat -> r ∉ live (comp c) -> r ∉ live (comp c')).
Proof.
  induction es as [|e es IH]; intros c c' Hrun Hs; simpl in Hrun.
  - injection Hrun as <-. auto.
  - destruct (step_sound e c Hs) as (c1 & Hstep & Hs1). rewrite Hstep in Hrun.
    destruct (step_nothing_returns e c c1 Hstep Hs) as (N1 & N2 & N3).
    destruct (IH c1 c' Hrun Hs1) as (I1 & I2 & I3).
    split; [lia|]. split.
    + intros m Hlt Hm. apply I2; [lia|]. intros Hin.
      destruct (N2 m Hin) as [?|?]; [contradiction|lia].
    + intros r Hlt Hr. apply I3; [lia|]. intros Hin.
      destruct (N3 r Hin) as [?|?]; [contradiction|lia].
Qed.

(** The tracked mesh and its resources are older than [next_id]. *)
Lemma tracked_fresh s :
  scene_ok s ->
  (forall m, meshRef s = Some m -> (m < next_id s)%nat) /\
  (forall r, r ∈ tracked_resources s -> (r < next_id s)%nat).
Proof.
  intros Hok. split.
  - intros m Hm. apply (scene_meshes_fresh s m Hok), (scene_tracked s Hok m Hm).
  - unfold tracked_resources, resources_at. intros r Hr.
    destruct (meshRef s) as [m|]; [|inversion Hr].
    destruct (heap s !! m) as [mesh|] eqn:Hh; [|inversion Hr].
    apply (scene_fresh_resource s Hok m mesh r Hh Hr).
Qed.

Lemma untracked_not_tracked s m : meshRef s = Some m -> m ∉ untracked s.
Proof.
  intros Hm. unfold untracked. rewrite Hm, list_elem_of_In. intros H.
  apply List.filter_In in H as [_ H]. now rewrite Nat.eqb_refl in H.
Qed.

(** ** A load that fails *)

(** C3, amended.  Take a state the component can reach, mounted, and a
    new pair with both images, so that the effect starts a load; let any
    callbacks run after that, and let a load then fail while one is
    pending.  The catch handler logs one error and clears the loading
    indicator, and it leaves the scene, [meshRef], the meshes and the live
    resources as they were just before the failure: it adds no partial or
    placeholder mesh.  The mesh that [meshRef] pointed to before the
    effect is not in the scene after the failure, and none of its geometry,
    material and textures is live: the effect removed and disposed them
    before the load began, and nothing brings them back.  When the load
    fails before any other callback runs, [meshRef] is null and the scene
    holds the meshes that [meshRef] did not point to before the effect,
    which loads that overlapped had left there, and no other. *)
Theorem failed_load_changes_no_scene (es between : list Event) (w h : Z)
    (c c2 : Canvas) (o d : option string) (n : nat) :
  run es (initial w h) = Some c -> alive c = true ->
  hasContent (o, d) = true -> (o, d) <> props c ->
  run (Props o d :: between) c = Some c2 -> loads c2 = S n ->
  exists c3,
    step Reject c2 = Some c3 /\
    log (comp c3) = log (comp c2) ++ [ConsoleError "Error loading textures:"] /\
    isLoadingAssets (comp c3) = false /\
    scene_view (comp c3) = scene_view (comp c2) /\
    scene_meshes (comp c3) = scene_meshes (comp c2) /\
    loads c3 = n /\
    (forall m, meshRef (comp c) = Some m -> m ∉ scene_meshes (comp c3)) /\
    (forall r, r ∈ tracked_resources (comp c) -> r ∉ live (comp c3)) /\
    (between = [] ->
     meshRef (comp c3) = None /\
     scene_meshes (comp c3) = untracked (comp c) /\
     log (comp c3) = log (comp c) ++ [ConsoleError "Error loading textures:"]).
Proof.
  intros Hrun Hal Hc Hne Hrun2 Hl.
  pose proof (reached_sound _ _ _ _ Hrun) as Hs.
  destruct (effect_step o d c Hs Hal Hne)
    as (mid & Hstep & Hsm & E1 & E2 & E3 & E4 & _).
  change (run (Props o d :: between) c)
    with (match step (Props o d) c with Some c' => run between c' | None => None end)
    in Hrun2.
  rewrite Hstep in Hrun2.
  destruct (tracked_fresh (comp c) (proj2 (proj2 Hs))) as [F1 F2].
  assert (Hn : next_id (comp mid) = next_id (comp c)).
  { destruct (step_nothing_returns _ c mid Hstep Hs) as (N1 & _).
    pose proof Hstep as Hstep'. simpl in Hstep'.
    rewrite Hal, (bool_decide_eq_false_2 _ Hne) in Hstep'. unfold rerender in Hstep'.
    destruct (useEffect_body_heap o d (run_cleanup (comp c, cleanup_due c))) as [_ H2].
    destruct (useEffect_body o d (run_cleanup (comp c, cleanup_due c))) as [s cl].
    injection Hstep' as <-. simpl in *. rewrite H2.
    unfold run_cleanup. simpl. now destruct (cleanup_due c). }
  destruct (run_nothing_returns between mid c2 Hrun2 Hsm) as (_ & R2 & R3).
  exists {| comp := load_catch (comp c2); cleanup_due := cleanup_due c2;
            props := props c2; loads := n; rec_frames := rec_frames c2;
            alive := alive c2 |}.
  split; [simpl; rewrite Hl; reflexivity|]. simpl.
  split; [reflexivity|]. split; [reflexivity|]. split; [reflexivity|].
  split; [reflexivity|]. split; [reflexivity|].
  change (scene_meshes (load_catch (comp c2))) with (scene_meshes (comp c2)).
  change (live (load_catch (comp c2))) with (live (comp c2)).
  change (meshRef (load_catch (comp c2))) with (meshRef (comp c2)).
  change (log (load_catch (comp c2)))
    with (log (comp c2) ++ [ConsoleError "Error loading textures:"]).
  split.
  { intros m Hm. apply R2; [rewrite Hn; now apply F1|].
    rewrite E2. now apply untracked_not_tracked. }
  split.
  { intros r Hr. apply R3; [rewrite Hn; now apply F2|].
    rewrite E3. rewrite elem_of_difference, elem_of_list_to_set. tauto. }
  intros ->. simpl in Hrun2. injection Hrun2 as <-.
  rewrite E1, E2, E4. auto.
Qed.

Lemma failed_load_changes_no_scene_witness :
  exists c c2 c3,
    run (rebuild_events sample_pair) (initial 800 600) = Some c /\
    scene_meshes (comp c) = [4%nat] /\
    step (Props (Some (originalImageUri other_pair)) (Some (depthMapUri other_pair))) c
      = Some c2 /\
    step Reject c2 = Some c3 /\
    scene_meshes (comp c3) = [] /\ isLoadingAssets (comp c3) = false.
Proof.
  assert (H1 : run (rebuild_events sample_pair) (initial 800 600) = Some ?[c])
    by (vm_compute; reflexivity).
  match type of H1 with
  | _ = Some ?c =>
      assert (H2 : step (Props (Some (originalImageUri other_pair))
                               (Some (depthMapUri other_pair))) c = Some ?[c2])
        by (vm_compute; reflexivity)
  end.
  match type of H1 with
  | _ = Some ?c =>
      match type of H2 with
      | _ = Some ?c2 =>
          destruct (failed_load_changes_no_scene (rebuild_events sample_pair) [] 800 600
                      c c2 (Some (originalImageUri other_pair))
                      (Some (depthMapUri other_pair)) 0 H1)
            as (c3 & S3 & _ & L3 & _ & _ & _ & _ & _ & B);
            [ reflexivity | reflexivity | vm_compute; intros E; discriminate E
            | vm_compute; reflexivity | reflexivity | ];
          exists c, c2, c3
      end
  end.
  split; [exact H1|]. split; [vm_compute; reflexivity|]. split; [exact H2|].
  split; [exact S3|]. split; [|exact L3].
  destruct (B eq_refl) as (_ & B2 & _). rewrite B2. vm_compute. reflexivity.
Defined.

(** ** [cleanupScene], whatever the scene holds *)

(** C10, as stated, fails: after two loads that overlapped, a state the
    component reaches, the scene still holds a mesh after one call of
    [cleanupScene]. *)
Lemma cleanupScene_leaves_untracked_mesh :
  exists c,
    run overlapping_events (initial 800 600) = Some c /\
    scene_meshes (comp c) = [4%nat; 9%nat] /\
    meshRef (comp c) = Some 9%nat /\
    meshRef (cleanupScene (comp c)) = None /\
    scene_meshes (cleanupScene (comp c)) = [4%nat] /\
    scene_meshes (cleanupScene (comp c)) <> [].
Proof.
  assert (H1 : run overlapping_events (initial 800 600) = Some ?[c])
    by (vm_compute; reflexivity).
  eexists. split; [exact H1|].
  split; [vm_compute; reflexivity|]. split; [vm_compute; reflexivity|].
  split; [vm_compute; reflexivity|]. split; [vm_compute; reflexivity|].
  vm_compute. intros E. discriminate E.
Qed.

(** C10, amended.  [cleanupScene] is idempotent and total in every state:
    a second consecutive call changes nothing, and a call when no mesh is
    tracked, or when the scene does not exist yet, changes nothing and
    raises no error.  In a state the component can reach, after one call
    [meshRef] is null, the mesh it pointed to is no longer in the scene,
    and none of that mesh's geometry, material and textures is live.  The
    scene then holds exactly the meshes that [meshRef] did not point to,
    in their order, with their resources still live; it holds no mesh
    when the tracked mesh was the only one. *)
Theorem cleanupScene_releases_tracked_mesh (es : list Event) (w h : Z) (c : Canvas)
    (s0 : State) :
  run es (initial w h) = Some c ->
  cleanupScene (cleanupScene s0) = cleanupScene s0 /\
  (meshRef s0 = None \/ sceneRef s0 = None -> cleanupScene s0 = s0) /\
  meshRef (cleanupScene (comp c)) = None /\
  (forall m, meshRef (comp c) = Some m -> m ∉ scene_meshes (cleanupScene (comp c))) /\
  (forall r, r ∈ tracked_resources (comp c) -> r ∉ live (cleanupScene (comp c))) /\
  scene_meshes (cleanupScene (comp c)) = untracked (comp c) /\
  (forall m r, m ∈ untracked (comp c) -> r ∈ resources_at (comp c) m ->
     r ∈ live (cleanupScene (comp c)) /\
     resources_at (cleanupScene (comp c)) m = resources_at (comp c) m) /\
  (untracked (comp c) = [] -> scene_meshes (cleanupScene (comp c)) = []).
Proof.
  intros Hrun.
  destruct (reached_sound _ _ _ _ Hrun) as (_ & _ & Hok).
  destruct (cleanupScene_twice s0) as (T1 & T2 & _).
  destruct (cleanupScene_reached (comp c) Hok) as (K1 & K2 & K3 & _).
  destruct (cleanupScene_heap (comp c)) as [Hh _].
  split; [exact T1|]. split; [exact T2|]. split; [exact K1|]. split.
  { intros m Hm. rewrite K2. now apply untracked_not_tracked. }
  split.
  { intros r Hr. rewrite K3, elem_of_difference, elem_of_list_to_set. tauto. }
  split; [exact K2|]. split; [|intros Hu; now rewrite K2].
  intros m r Hm Hr. split; [|unfold resources_at; now rewrite Hh].
  pose proof (untracked_subset _ _ Hm) as Hin.
  destruct (scene_live _ Hok m Hin) as (mesh & Hmesh & _ & Hlive).
  unfold resources_at in Hr. rewrite Hmesh in Hr.
  rewrite K3, elem_of_difference, elem_of_list_to_set. split; [now apply Hlive|].
  unfold tracked_resources, resources_at.
  destruct (meshRef (comp c)) as [mt|] eqn:Hmt; [|intros H; inversion H].
  destruct (heap (comp c) !! mt) as [mesht|] eqn:Hht; [|intros H; inversion H].
  intros Hrt.
  pose proof (scene_unshared _ Hok m mt mesh mesht r Hmesh Hht Hr Hrt) as ->.
  revert Hm. now apply untracked_not_tracked.
Qed.

Lemma cleanupScene_releases_tracked_mesh_witness :
  exists c,
    run (rebuild_events sample_pair) (initial 800 600) = Some c /\
    scene_meshes (comp c) = [4%nat] /\
    meshRef (cleanupScene (comp c)) = None /\
    scene_meshes (cleanupScene (comp c)) = [] /\
    cleanupScene (cleanupScene (comp c)) = cleanupScene (comp c).
Proof.
  assert (H1 : run (rebuild_events sample_pair) (initial 800 600) = Some ?[c])
    by (vm_compute; reflexivity).
  match type of H1 with
  | _ = Some ?c =>
      destruct (cleanupScene_releases_tracked_mesh (rebuild_events sample_pair) 800 600
                  c (comp c) H1) as (T1 & _ & K1 & _ & _ & _ & _ & K5);
      exists c
  end.
  split; [exact H1|]. split; [vm_compute; reflexivity|]. split; [exact K1|].
  split; [apply K5; vm_compute; reflexivity|exact T1].
Defined.

(** * The Camera Controller: how its operations compose *)

Module OrbitCompose.

Import Lra Orbit OrbitFacts.

Local Open Scope R_scope.

Lemma preset_distance_bound d : 1 / 10 < preset_distance d.
Proof. unfold preset_distance. destruct (Rlt_dec (1 / 10) d); lra. Qed.

Lemma preset_distance_fixed d : 1 / 10 < d -> preset_distance d = d.
Proof. intros H. unfold preset_distance. destruct (Rlt_dec (1 / 10) d); [reflexivity|lra]. Qed.

Lemma reset_controls_unconfigured c :
  unconfigured c -> unconfigured (with_scale 1 (with_target origin c)).
Proof. intros (H1 & H2 & H3 & H4). repeat split; assumption. Qed.

(** X11.  Among the presets the last one wins, unless [top] came
    before: after [front], [reset], [sideR] or [sideL], any preset puts
    the camera exactly where it would have put it at once, and pressing
    one of these four twice is the same as pressing it once. *)
Theorem last_preset_wins (first second : Preset) (v : View) (p : Vector3)
    (c : OrbitControls) :
  cameraRef v = Some p -> controlsRef v = Some c -> unconfigured c -> first <> top ->
  setPresetView second (setPresetView first v) = setPresetView second v /\
  setPresetView first (setPresetView first v) = setPresetView first v.
Proof.
  intros Hp Hc Hu Hf. destruct v as [cam ctl]. simpl in Hp, Hc. subst cam ctl.
  assert (H : forall q,
    setPresetView q (setPresetView first {| cameraRef := Some p; controlsRef := Some c |})
    = setPresetView q {| cameraRef := Some p; controlsRef := Some c |}).
  { intros q. rewrite !(setPresetView_unfold _ p c Hu).
    rewrite setPresetView_unfold by now apply reset_controls_unconfigured.
    pose proof (preset_distance_bound (length p)) as Hb.
    rewrite (length_preset first) by (lra || assumption).
    rewrite preset_distance_fixed by exact Hb. reflexivity. }
  split; apply H.
Qed.

Lemma last_preset_wins_witness :
  setPresetView top (setPresetView sideL init_view) = setPresetView top init_view.
Proof.
  apply (last_preset_wins sideL top init_view {| x := 0; y := 0; z := 3 / 2 |}
           (new_OrbitControls {| x := 0; y := 0; z := 3 / 2 |})); try reflexivity.
  - apply new_OrbitControls_unconfigured.
  - discriminate.
Defined.

Lemma length_top d : length (preset_position top d) = sqrt (d * d + 1 / 1000 * (1 / 1000)).
Proof. unfold length. simpl. f_equal. ring. Qed.

(** X12.  The [top] preset drifts.  It puts the camera 0.001 off the
    axis and takes the distance of that position as the next starting
    point, so every press moves the camera outwards: after [k] presses
    from a distance [d] above 0.1 the camera is at distance
    [sqrt (d^2 + k * 0.001^2)] from the origin, further than after
    [k - 1]. *)
Theorem top_preset_drifts (k : nat) (v : View) (p : Vector3) (c : OrbitControls) :
  cameraRef v = Some p -> controlsRef v = Some c -> unconfigured c ->
  1 / 10 < length p ->
  (length <$> cameraRef (Nat.iter k (setPresetView top) v)) =
    Some (sqrt (length p * length p + INR k * (1 / 1000 * (1 / 1000)))) /\
  (length <$> cameraRef (Nat.iter (S k) (setPresetView top) v)) =
    Some (sqrt (length p * length p + INR (S k) * (1 / 1000 * (1 / 1000)))) /\
  sqrt (length p * length p + INR k * (1 / 1000 * (1 / 1000))) <
  sqrt (length p * length p + INR (S k) * (1 / 1000 * (1 / 1000))).
Proof.
  intros Hp Hc Hu Hd.
  assert (Hiter : forall n, exists q c',
    Nat.iter n (setPresetView top) v = {| cameraRef := Some q; controlsRef := Some c' |} /\
    unconfigured c' /\
    length q = sqrt (length p * length p + INR n * (1 / 1000 * (1 / 1000)))).
  { induction n as [|n (q & c' & E & U & L)].
    - exists p, c. destruct v as [cam ctl]. simpl in Hp, Hc. subst cam ctl.
      split; [reflexivity|]. split; [exact Hu|].
      simpl. rewrite Rmult_0_l, Rplus_0_r. symmetry. apply sqrt_square, length_nonneg.
    - change (Nat.iter (S n) (setPresetView top) v)
        with (setPresetView top (Nat.iter n (setPresetView top) v)).
      rewrite E. rewrite (setPresetView_unfold top q c' U).
      do 2 eexists. split; [reflexivity|]. split; [now apply reset_controls_unconfigured|].
      assert (Hq : 1 / 10 < length q).
      { rewrite L. apply Rlt_le_trans with (length p); [exact Hd|].
        rewrite <- (sqrt_square (length p)) at 1 by apply length_nonneg.
        apply sqrt_le_1_alt. pose proof (pos_INR n). nra. }
      rewrite preset_distance_fixed by exact Hq. rewrite length_top, L.
      rewrite sqrt_sqrt by (pose proof (pos_INR n); pose proof (length_nonneg p); nra).
      f_equal. rewrite S_INR. ring. }
  destruct (Hiter k) as (q & c' & E & _ & L).
  destruct (Hiter (S k)) as (q' & c'' & E' & _ & L').
  rewrite E, E'. simpl cameraRef. simpl fmap. rewrite L, L'.
  split; [reflexivity|]. split; [reflexivity|].
  apply sqrt_lt_1_alt. rewrite S_INR.
  pose proof (pos_INR k). pose proof (length_nonneg p). nra.
Qed.

Lemma top_preset_drifts_witness :
  (length <$> cameraRef (Nat.iter 3 (setPresetView top) init_view)) =
    Some (sqrt (length {| x := 0; y := 0; z := 3 / 2 |} * length {| x := 0; y := 0; z := 3 / 2 |}
                + INR 3 * (1 / 1000 * (1 / 1000)))).
Proof.
  apply (top_preset_drifts 3 init_view {| x := 0; y := 0; z := 3 / 2 |}
           (new_OrbitControls {| x := 0; y := 0; z := 3 / 2 |})); try reflexivity.
  - apply new_OrbitControls_unconfigured.
  - change (length {| x := 0; y := 0; z := 3 / 2 |}) with (sqrt (0 * 0 + 0 * 0 + 3 / 2 * (3 / 2))).
    rewrite length_axis; lra.
Defined.

Lemma fit_positive planeWidth planeHeight :
  0 < planeWidth ->
  0 < Rmax planeWidth planeHeight / (2 * tan (75 * (PI / 180) / 2)) * (11 / 10).
Proof.
  intros Hw. pose proof PI_RGT_0 as Hpi.
  assert (Ht : 0 < tan (75 * (PI / 180) / 2)) by (apply tan_gt_0; lra).
  assert (Hm : 0 < Rmax planeWidth planeHeight)
    by (apply Rlt_le_trans with planeWidth; [exact Hw|apply Rmax_l]).
  apply Rmult_lt_0_compat; [|lra].
  apply Rdiv_lt_0_compat; [exact Hm|lra].
Qed.

(** X13.  Fitting the camera to a new plane sets its [z] only.  After
    a load the camera stands at the fitting distance in [z] with the [x]
    and [y] it had, looking at the origin: it faces the plane head-on, at
    the fitting distance, exactly when it was on the z axis before (as at
    the start, or after [front] and [reset]); from anywhere else it ends
    up further away than the fitting distance and off the axis. *)
Theorem fit_camera_moves_z_only (planeWidth planeHeight : R) (v : View) (p : Vector3)
    (c : OrbitControls) :
  cameraRef v = Some p -> controlsRef v = Some c ->
  minDistance c = 0 -> maxDistance c = None -> scale c = 1 ->
  0 < planeWidth ->
  let fit := Rmax planeWidth planeHeight / (2 * tan (75 * (PI / 180) / 2)) * (11 / 10) in
  let v' := fit_camera planeWidth planeHeight 75 v in
  cameraRef v' = Some {| x := x p; y := y p; z := fit |} /\
  (target <$> controlsRef v') = Some origin /\
  distance v' = sqrt (x p * x p + y p * y p + fit * fit) /\
  fit <= distance v' /\
  (distance v' = fit <-> x p = 0 /\ y p = 0).
Proof.
  intros Hp Hc Hmin Hmax Hs Hw fit v'.
  pose proof (fit_positive planeWidth planeHeight Hw) as Hfit. fold fit in Hfit.
  destruct v as [cam ctl]. simpl in Hp, Hc. subst cam ctl.
  assert (Hv : v' = {| cameraRef := Some {| x := x p; y := y p; z := fit |};
                       controlsRef := Some (with_scale 1 (with_target origin c)) |}).
  { subst v'. unfold fit_camera. cbn [cameraRef controlsRef fmap option_fmap option_map].
    fold fit. now rewrite update_rest. }
  rewrite Hv. cbn [cameraRef controlsRef fmap option_fmap option_map].
  split; [reflexivity|]. split; [reflexivity|].
  assert (Hd : distance {| cameraRef := Some {| x := x p; y := y p; z := fit |};
                           controlsRef := Some (with_scale 1 (with_target origin c)) |}
               = sqrt (x p * x p + y p * y p + fit * fit)).
  { unfold distance. cbn [cameraRef controlsRef]. simpl target. rewrite sub_origin.
    reflexivity. }
  rewrite Hd. split; [reflexivity|].
  assert (Hsq : sqrt (fit * fit) = fit) by (apply sqrt_square; lra).
  split.
  - rewrite <- Hsq at 1. apply sqrt_le_1_alt. nra.
  - split.
    + intros E. assert (E2 : x p * x p + y p * y p + fit * fit = fit * fit).
      { rewrite <- (sqrt_sqrt (x p * x p + y p * y p + fit * fit)) by nra.
        rewrite E. reflexivity. }
      split; nra.
    + intros [-> ->]. apply length_axis. lra.
Qed.

Lemma fit_camera_moves_z_only_witness :
  cameraRef (fit_camera 2 (9 / 8) 75 (setPresetView sideR init_view)) =
    Some {| x := 3 / 2; y := 0;
            z := Rmax 2 (9 / 8) / (2 * tan (75 * (PI / 180) / 2)) * (11 / 10) |}.
Proof.
  unfold init_view.
  rewrite (setPresetView_unfold sideR {| x := 0; y := 0; z := 3 / 2 |}
             (new_OrbitControls {| x := 0; y := 0; z := 3 / 2 |})
             (new_OrbitControls_unconfigured _)).
  assert (Hl : length {| x := 0; y := 0; z := 3 / 2 |} = 3 / 2)
    by (unfold length; simpl; apply length_axis; lra).
  rewrite Hl. rewrite preset_distance_fixed by lra.
  apply (fit_camera_moves_z_only 2 (9 / 8)
           {| cameraRef := Some (preset_position sideR (3 / 2));
              controlsRef := Some (with_scale 1 (with_target origin
                               (new_OrbitControls {| x := 0; y := 0; z := 3 / 2 |}))) |}
           (preset_position sideR (3 / 2))
           (with_scale 1 (with_target origin
              (new_OrbitControls {| x := 0; y := 0; z := 3 / 2 |}))));
    try reflexivity. lra.
Defined.

End OrbitCompose.

(** * The image proxy *)

Module ImageProxyFacts.

Import ImageProxy.

Lemma prefix_app p : forall s, String.prefix p s = true -> exists r, s = p +:+ r.
Proof.
  induction p as [|a p IH]; intros s H.
  - now exists s.
  - destruct s as [|b s]; [discriminate|]. simpl in H.
    destruct (Ascii.ascii_dec a b) as [->|]; [|discriminate].
    destruct (IH s H) as [r ->]. now exists r.
Qed.

Lemma prefix_of_app p s : String.prefix p (p +:+ s) = true.
Proof.
  induction p as [|a p IH]; simpl; [now destruct s|].
  destruct (Ascii.ascii_dec a a); [exact IH|contradiction].
Qed.

Lemma on_error_fails e : exists msg, on_error e = Failure msg.
Proof.
  destruct e as [n m|]; simpl; [|eauto].
  destruct (String.eqb n "AbortError" || includes m "timed out"); eauto.
Qed.

Lemma Array_includes_In l s : Array_includes l s = true <-> In s l.
Proof.
  unfold Array_includes. rewrite existsb_exists. split.
  - intros (x & Hx & E). apply String.eqb_eq in E. now subst.
  - intros H. exists s. split; [exact H|apply String.eqb_refl].
Qed.

Section Action.

Variable fetch : string -> Thrown + Response.
Variable base64 : list Byte.byte -> string.

Lemma success_iff (imageUrl dataUri : string) :
  (fetchImageAsDataUrl fetch base64 imageUrl).1.1 = Success dataUri <->
  (startsWith imageUrl "http://" = true \/ startsWith imageUrl "https://" = true) /\
  exists response contentType buffer,
    fetch imageUrl = inr response /\ ok response = true /\
    content_type response = Some contentType /\
    startsWith contentType "image/" = true /\
    In (toLowerCase contentType) allowedImageTypes /\
    arrayBuffer response = inr buffer /\ Z.of_nat (length buffer) <= size_limit /\
    dataUri = "data:" +:+ contentType +:+ ";base64," +:+ base64 buffer.
Proof.
  unfold fetchImageAsDataUrl. split.
  - destruct (startsWith imageUrl "http://") eqn:H1;
      destruct (startsWith imageUrl "https://") eqn:H2; cbn [negb andb];
      try discriminate.
    all: destruct (fetch imageUrl) as [e|r] eqn:Hf;
      [destruct (on_error_fails e) as [m ->]; discriminate|].
    all: destruct (ok r) eqn:Hok; cbn [negb]; [|discriminate].
    all: destruct (content_type r) as [ct|] eqn:Hct; [|discriminate].
    all: destruct (negb (truthy (Some ct)) || negb (startsWith ct "image/")) eqn:Hp;
      [discriminate|].
    all: apply orb_false_iff in Hp; destruct Hp as [_ Hp];
      apply negb_false_iff in Hp.
    all: destruct (Array_includes allowedImageTypes (toLowerCase ct)) eqn:Hin;
      cbn [negb]; [|discriminate].
    all: destruct (arrayBuffer r) as [e|buf] eqn:Hb;
      [destruct (on_error_fails e) as [m ->]; discriminate|].
    all: destruct (size_limit <? Z.of_nat (length buf)) eqn:Hsz; [discriminate|].
    all: simpl; intros [= <-]; apply Z.ltb_ge in Hsz;
      apply Array_includes_In in Hin.
    all: split; [auto|]; exists r, ct, buf; repeat split; auto.
  - intros (Hs & r & ct & buf & Hf & Hok & Hct & Hp & Hin & Hb & Hsz & ->).
    assert (Hs' : negb (startsWith imageUrl "http://") &&
                  negb (startsWith imageUrl "https://") = false).
    { destruct Hs as [-> | ->]; [reflexivity|apply andb_false_r]. }
    rewrite Hs', Hf, Hok, Hct. cbn [negb].
    assert (Ht : truthy (Some ct) = true).
    { apply prefix_app in Hp. destruct Hp as [rest ->]. reflexivity. }
    rewrite Ht, Hp. cbn [negb orb].
    apply Array_includes_In in Hin. rewrite Hin, Hb. cbn [negb].
    apply Z.ltb_ge in Hsz. rewrite Hsz. reflexivity.
Qed.

End Action.

Lemma data_uri_prefix (contentType encoded : string) :
  startsWith contentType "image/" = true ->
  startsWith ("data:" +:+ contentType +:+ ";base64," +:+ encoded) "data:image/" = true /\
  truthy (Some ("data:" +:+ contentType +:+ ";base64," +:+ encoded)) = true.
Proof.
  intros Hp. apply prefix_app in Hp. destruct Hp as [rest ->]. split; [|reflexivity].
  apply (prefix_of_app "data:image/" (rest +:+ ";base64," +:+ encoded)).
Qed.

Section Action.

Variable fetch : string -> Thrown + Response.
Variable base64 : list Byte.byte -> string.

(** X14.  The proxy answers [Success] in one case only, and then with an image
    data URI.  It succeeds exactly when the URL starts with [http://] or
    [https://], the response is [ok], its content type starts with
    (lower-case) [image/] and is, in lower case, one of the five allowed
    types, and the body is read and holds at most 10 MB; the data URI
    then carries the content type as the server sent it and the encoded
    body.  So every URI it returns starts with [data:image/] and is a
    non-empty string. *)
Theorem proxy_success_is_image_data_uri (imageUrl dataUri : string) :
  ((fetchImageAsDataUrl fetch base64 imageUrl).1.1 = Success dataUri <->
   (startsWith imageUrl "http://" = true \/ startsWith imageUrl "https://" = true) /\
   exists response contentType buffer,
     fetch imageUrl = inr response /\ ok response = true /\
     content_type response = Some contentType /\
     startsWith contentType "image/" = true /\
     In (toLowerCase contentType) allowedImageTypes /\
     arrayBuffer response = inr buffer /\ Z.of_nat (length buffer) <= size_limit /\
     dataUri = "data:" +:+ contentType +:+ ";base64," +:+ base64 buffer) /\
  ((fetchImageAsDataUrl fetch base64 imageUrl).1.1 = Success dataUri ->
   startsWith dataUri "data:image/" = true /\ truthy (Some dataUri) = true).
Proof.
  split; [apply success_iff|].
  intros H. apply success_iff in H.
  destruct H as (_ & r & ct & buf & _ & _ & _ & Hp & _ & _ & _ & ->).
  now apply data_uri_prefix.
Qed.


End Action.

Lemma proxy_success_is_image_data_uri_witness :
  (fetchImageAsDataUrl sample_fetch sample_base64 "https://example.com/a.png").1.1
    = Success "data:image/PNG;base64,iVBORw==" /\
  startsWith "data:image/PNG;base64,iVBORw==" "data:image/" = true.
Proof.
  assert (H : (fetchImageAsDataUrl sample_fetch sample_base64
                 "https://example.com/a.png").1.1
              = Success "data:image/PNG;base64,iVBORw==") by (vm_compute; reflexivity).
  split; [exact H|].
  apply (proxy_success_is_image_data_uri sample_fetch sample_base64
           "https://example.com/a.png" "data:image/PNG;base64,iVBORw=="). exact H.
Defined.

End ImageProxyFacts.

(** * The page *)

Module PageFacts.

Import ImageProxy Page.

Lemma take_request_single is_kind r l rest :
  (length l <= 1)%nat -> take_request is_kind l = Some (r, rest) ->
  l = [r] /\ rest = [] /\ is_kind r = true.
Proof.
  destruct l as [|a [|b l]]; simpl; intros Hl H; [discriminate| |lia].
  destruct (is_kind a) eqn:Ha; [|discriminate]. now injection H as <- <-.
Qed.

Lemma progress_ticks n s :
  0 <= progress s <= 100 ->
  let s' := Nat.iter n progress_tick s in
  0 <= progress s' <= 100 /\ progress s <= progress s' /\
  (originalImage s', depthMapImage s', isLoading s', isExporting s', imageUrl s',
   error s', toasts s', console s', readers s', requests s', intervals s', unhandled s') =
  (originalImage s, depthMapImage s, isLoading s, isExporting s, imageUrl s,
   error s, toasts s, console s, readers s, requests s, intervals s, unhandled s).
Proof.
  intros H. induction n as [|n IH]; simpl; [repeat split; lia|].
  destruct IH as (I1 & I2 & I3). set (s1 := Nat.iter n progress_tick s) in *.
  unfold progress_tick. simpl.
  split; [|split; [|exact I3]]; destruct (progress s1 <? 90) eqn:E;
    try apply Z.ltb_lt in E; lia.
Qed.

Lemma initial_ok : page_ok initial.
Proof.
  split; simpl; try lia; try congruence.
  - split; [discriminate|congruence].
  - intros photo H. inversion H.
Qed.

Lemma page_ok_view s s' :
  (isLoading s', requests s', intervals s', progress s', depthMapImage s',
   originalImage s') =
  (isLoading s, requests s, intervals s, progress s, depthMapImage s, originalImage s) ->
  page_ok s -> page_ok s'.
Proof.
  intros H [H1 H2 H3 H4 H5 H6]. injection H as E1 E2 E3 E4 E5 E6.
  split; rewrite ?E1, ?E2, ?E3, ?E4, ?E5, ?E6; auto.
Qed.

(** No event breaks the page's bookkeeping. *)
Lemma step_ok e s : page_ok s -> page_ok (step e s).
Proof.
  intros Hok. pose proof Hok as [H1 H2 H3 H4 H5 H6].
  assert (Hidle : isLoading s = false -> requests s = []).
  { intros E. destruct (requests s); [reflexivity|].
    assert (isLoading s = true) by (apply H1; discriminate). congruence. }
  assert (Hkeep : forall s', (isLoading s', requests s', intervals s', progress s',
                              depthMapImage s', originalImage s') =
                             (isLoading s, requests s, intervals s, progress s,
                              depthMapImage s, originalImage s) -> page_ok s')
    by (intros s' E; now apply (page_ok_view s)).
  destruct e as [file|i|value| |outcome| |outcome| | |loading]; simpl.
  - unfold file_input_disabled. destruct (isLoading s) eqn:El; [exact Hok|].
    destruct file as [[size content]|]; simpl; [|exact Hok].
    destruct (5 * 1024 * 1024 <? size); apply Hkeep; simpl; now rewrite El.
  - unfold reader_onload. destruct (readers s !! i); [|exact Hok].
    split; simpl; auto; discriminate.
  - unfold url_input_disabled. destruct (isLoading s) eqn:El; [exact Hok|].
    apply Hkeep. simpl. now rewrite El.
  - unfold load_disabled. destruct (isLoading s) eqn:El; simpl; [exact Hok|].
    destruct (blank (imageUrl s)); [exact Hok|].
    unfold handleImageUrlLoad.
    destruct (String.eqb (imageUrl s) ""); [apply Hkeep; simpl; now rewrite El|].
    pose proof (Hidle eq_refl) as Hr.
    split; simpl; rewrite ?Hr; simpl; auto; try lia.
    + split; [discriminate|reflexivity].
    + intros photo H. apply list_elem_of_singleton in H. discriminate.
  - destruct (take_request is_url_request (requests s)) as [[r rest]|] eqn:Ht; [|exact Hok].
    destruct (take_request_single _ _ _ _ H2 Ht) as (Hr & -> & Hk).
    destruct outcome as [e|[uri|err]]; split; simpl; auto; try lia;
      try (split; [discriminate|congruence]); try discriminate;
      try (intros photo H; inversion H).
  - unfold generate_disabled.
    destruct (truthy (originalImage s)) eqn:Ho; simpl; [|exact Hok].
    destruct (isLoading s) eqn:El; simpl; [exact Hok|].
    destruct (isExporting s); [exact Hok|].
    unfold handleGenerateDepthMap.
    destruct (originalImage s) as [photo|] eqn:Eo; [|discriminate].
    destruct (String.eqb photo ""); [apply Hkeep; simpl; now rewrite El, Eo|].
    pose proof (Hidle eq_refl) as Hr.
    split; simpl; rewrite ?Hr, ?Eo; simpl; auto; try lia; try discriminate.
    split; [discriminate|reflexivity].
  - destruct (take_request is_depth_request (requests s)) as [[r rest]|] eqn:Ht; [|exact Hok].
    destruct (take_request_single _ _ _ _ H2 Ht) as (Hr & -> & Hk).
    assert (Ho : originalImage s <> None).
    { destruct r as [u|photo]; [discriminate|]. apply (H6 photo). rewrite Hr. constructor. }
    unfold handleGenerateDepthMap_settled, handleGenerateDepthMap_catch.
    destruct outcome as [e|uri]; [|destruct (String.eqb uri "")]; split; simpl; auto;
      try lia; try (split; [discriminate|congruence]);
      try (intros photo H; inversion H).
  - destruct (progress_ticks (intervals s) s H4) as (P1 & _ & P3).
    injection P3 as E1 E2 E3 E4 E5 E6 E7 E8 E9 E10 E11 E12.
    split; rewrite ?E1, ?E2, ?E3, ?E10, ?E11; auto.
  - unfold clear_disabled. destruct (isLoading s) eqn:El; simpl; [exact Hok|].
    destruct (isExporting s); [exact Hok|].
    pose proof (Hidle eq_refl) as Hr.
    split; simpl; rewrite ?Hr; simpl; auto; try lia; try discriminate.
    + split; [discriminate|congruence].
    + intros photo H. inversion H.
  - apply Hkeep. reflexivity.
Qed.

Lemma run_ok es : forall s, page_ok s -> page_ok (run es s).
Proof.
  unfold run. induction es as [|e es IH]; intros s H; simpl; [exact H|].
  apply IH. now apply step_ok.
Qed.

(** X16.  Whatever the user, the timers and the server actions do, the
    page awaits at most one server action, and exactly one while
    [isLoading] is set, so the loading state cannot stick or be shared by
    two requests; an awaited generation has its progress interval running;
    the progress value stays between 0 and 100; and the page never keeps
    a depth map, or awaits one, without an original image. *)
Theorem page_awaits_one_request (es : list Event) : page_ok (run es initial).
Proof. apply run_ok, initial_ok. Qed.

Lemma progress_ticks_start n s :
  0 <= progress s <= 100 -> 10 <= progress (Nat.iter (S n) progress_tick s).
Proof.
  intros H. destruct (progress_ticks n s H) as ((P1 & P2) & _). simpl.
  set (s1 := Nat.iter n progress_tick s) in *. unfold progress_tick. simpl.
  destruct (progress s1 <? 90) eqn:E; [lia|].
  apply Z.ltb_ge in E. lia.
Qed.

(** X17.  A depth map is stored whatever the original image has become
    meanwhile.  The file input is disabled only while a request is
    awaited, not while a [FileReader] reads: when a reader that was
    started before the click on "Generate" delivers during the
    generation, the page ends up showing the new image with the depth map
    that was generated for the old one. *)
Theorem depth_map_lands_on_later_image (es : list Event) (photo content uri : string)
    (i : nat) :
  requests (run es initial) = [DepthRequest photo] ->
  readers (run es initial) !! i = Some content -> uri <> EmptyString ->
  let s' := run [ReaderLoaded i; DepthSettled (inr uri)] (run es initial) in
  viewer_props s' = (Some content, Some uri) /\ isLoading s' = false /\ requests s' = [].
Proof.
  intros Hr Hi Hu. set (s := run es initial) in *. simpl.
  unfold reader_onload. rewrite Hi. simpl. rewrite Hr. simpl.
  apply String.eqb_neq in Hu. unfold handleGenerateDepthMap_settled. rewrite Hu. simpl.
  auto.
Qed.

Lemma depth_map_lands_on_later_image_witness :
  viewer_props
    (run [ReaderLoaded 0; DepthSettled (inr "data:image/png;base64,BBBB")]
       (run [ChooseFile (Some (1000, "data:image/png;base64,AAAA")); ReaderLoaded 0;
             ChooseFile (Some (2000, "data:image/png;base64,CCCC")); ClickGenerate]
          initial))
  = (Some "data:image/png;base64,CCCC", Some "data:image/png;base64,BBBB").
Proof.
  destruct (depth_map_lands_on_later_image
              [ChooseFile (Some (1000, "data:image/png;base64,AAAA")); ReaderLoaded 0;
               ChooseFile (Some (2000, "data:image/png;base64,CCCC")); ClickGenerate]
              "data:image/png;base64,AAAA" "data:image/png;base64,CCCC"
              "data:image/png;base64,BBBB" 0) as (H & _).
  - reflexivity.
  - reflexivity.
  - discriminate.
  - exact H.
Defined.

(** X18.  A generation that fails ends in an unhandled
    [ReferenceError]: the error is shown and [finally] resets the loading
    state, but the [catch] clause cannot clear the progress interval.
    When the server action rejected, the interval started for it keeps
    running, and its next tick moves the progress value of the idle page
    away from 0; a generation that returns a depth map stops its
    interval. *)
Theorem failed_generation_leaks_interval (es : list Event) (photo : string) (e : Thrown) :
  requests (run es initial) = [DepthRequest photo] ->
  let s := run es initial in
  let s' := step (DepthSettled (inl e)) s in
  isLoading s' = false /\ progress s' = 0 /\ requests s' = [] /\
  error s' = Some (message_or e "Failed to generate depth map.") /\
  unhandled s' = unhandled s ++ ["ReferenceError: progressInterval is not defined"] /\
  intervals s' = intervals s /\ (1 <= intervals s')%nat /\
  10 <= progress (step Tick s') /\ isLoading (step Tick s') = false /\
  forall uri, uri <> EmptyString ->
    intervals (step (DepthSettled (inr uri)) s) = Nat.pred (intervals s) /\
    unhandled (step (DepthSettled (inr uri)) s) = unhandled s.
Proof.
  intros Hr s s'. subst s'. pose proof (run_ok es initial initial_ok) as Hok. fold s in Hok, Hr.
  pose proof (ok_interval s Hok) as Hi. rewrite Hr in Hi. simpl in Hi.
  simpl. rewrite Hr. simpl. repeat (split; [reflexivity || lia|]).
  split; [|split].
  - destruct (intervals s) as [|n]; [lia|].
    apply progress_ticks_start. simpl. lia.
  - match goal with |- isLoading (Nat.iter ?n progress_tick ?x) = false =>
      destruct (progress_ticks n x) as (_ & _ & P); [simpl; lia|];
      injection P as _ _ P _ _ _ _ _ _ _ _ _; exact P end.
  - intros uri Hu. apply String.eqb_neq in Hu. rewrite Hu. simpl. auto.
Qed.

Lemma failed_generation_leaks_interval_witness :
  let es := [ChooseFile (Some (1000, "data:image/png;base64,AAAA")); ReaderLoaded 0;
             ClickGenerate] in
  let s' := step (DepthSettled (inl (ErrorObject "Error" "quota exceeded"))) (run es initial) in
  isLoading s' = false /\ intervals s' = 1%nat /\ progress (step Tick s') = 10 /\
  error s' = Some "quota exceeded".
Proof.
  destruct (failed_generation_leaks_interval
              [ChooseFile (Some (1000, "data:image/png;base64,AAAA")); ReaderLoaded 0;
               ClickGenerate]
              "data:image/png;base64,AAAA" (ErrorObject "Error" "quota exceeded"))
    as (H1 & _ & _ & H4 & _ & H6 & _); [reflexivity|].
  split; [exact H1|]. split; [exact H6|]. split; [reflexivity|exact H4].
Defined.

Section Proxy.

Variable fetch : string -> Thrown + Response.
Variable base64 : list Byte.byte -> string.

(** X19.  Loading from a URL, end to end.  When the proxy's answer
    arrives the page is idle again, with the progress value at 0.  On
    success the page shows the proxy's data URI, which starts with
    [data:image/], and no depth map, and "Generate" is enabled unless an
    export runs; on failure the proxy's message is shown as the error, one
    toast is added, and both images stay as they were. *)
Theorem url_load_shows_image_data_uri (es : list Event) (url : string) :
  requests (run es initial) = [UrlRequest url] ->
  let s := run es initial in
  let result := (fetchImageAsDataUrl fetch base64 url).1.1 in
  let s' := step (UrlSettled (inr result)) s in
  isLoading s' = false /\ progress s' = 0 /\ requests s' = [] /\
  match result with
  | Success dataUri =>
      viewer_props s' = (Some dataUri, None) /\
      startsWith dataUri "data:image/" = true /\
      generate_disabled s' = isExporting s /\ toasts s' = toasts s
  | Failure msg =>
      error s' = Some msg /\ viewer_props s' = viewer_props s /\
      toasts s' = toasts s ++ [{| title := "Error loading image from URL";
                                  description := msg; destructive := true |}]
  end.
Proof.
  intros Hr s result s'. subst s'. fold s in Hr. simpl. rewrite Hr. simpl.
  pose proof (ImageProxyFacts.success_iff fetch base64 url) as Hp.
  fold result in Hp. destruct result as [uri|msg]; simpl.
  - destruct (Hp uri) as ((_ & r & ct & buf & _ & _ & _ & Hct & _ & _ & _ & ->) & _);
      [reflexivity|].
    destruct (ImageProxyFacts.data_uri_prefix ct (base64 buf) Hct) as (Hd & Ht).
    unfold generate_disabled, handleImageUrlLoad_settled, viewer_props.
    cbn [originalImage depthMapImage isLoading isExporting setProgress setIsLoading
         setDepthMapImage setOriginalImage set_requests].
    rewrite Ht. repeat split; auto.
  - repeat split; reflexivity.
Qed.

End Proxy.

Lemma url_load_shows_image_data_uri_witness :
  let es := [TypeUrl "https://example.com/a.png"; ClickLoad] in
  let s' := step (UrlSettled
                    (inr (fetchImageAsDataUrl sample_fetch sample_base64
                            "https://example.com/a.png").1.1)) (run es initial) in
  viewer_props s' = (Some "data:image/PNG;base64,iVBORw==", None) /\ isLoading s' = false.
Proof.
  destruct (url_load_shows_image_data_uri sample_fetch sample_base64
              [TypeUrl "https://example.com/a.png"; ClickLoad]
              "https://example.com/a.png") as (H1 & _ & _ & H4); [reflexivity|].
  split; [|exact H1]. apply H4.
Defined.

End PageFacts.

(** * The page with its viewer *)


























